(** * ClickHouse dual-zone store: a shallow embedding of the reorg-safe
      ingest and migration pipeline

    The development follows [src/core/ClickhouseDatabase.ts] and
    [src/core/ValidBlocksManager.ts].  JavaScript numbers that hold block
    heights and counters are integers ([Z]); the in-memory [Map]s are finite
    maps; every [await]ed call is a step of a state-and-exception monad whose
    state is the adapter object together with the database server it talks to.
    Console output, metrics and wall-clock stamps are not part of the state. *)

From Stdlib Require Import ZArith Lia Ascii String.
From stdpp Require Import base numbers strings pretty list gmap fin_maps.

Local Open Scope string_scope.
Local Open Scope Z_scope.
Set Warnings "-register-all".

(* ===================================================================== *)
(** * JavaScript values, exceptions and the effect monad                  *)
(* ===================================================================== *)

Module Js.

(** The values a block object or an entity field can hold. *)
Inductive Val : Type :=
| Undefined
| Null
| Bool (b : bool)
| Number (n : Z)
| BigInt (n : Z)
| Str (s : string)
| Array (items : list Val)
| Object (fields : list (string * Val)).

(** A thrown [Error]: the three properties the code inspects. *)
Record Error : Type := mkError {
  code : option string;
  type : option string;
  message : option string
}.

Inductive Result (A : Type) : Type :=
| Ok (a : A)
| Throw (e : Error).
Arguments Ok {A} a.
Arguments Throw {A} e.

(** A computation over a mutable state [S] that returns or throws; what
    was written before a throw stays written. *)
Definition M (S A : Type) : Type := S -> Result A * S.

Definition ret {S A} (a : A) : M S A := fun s => (Ok a, s).

Definition bind {S A B} (m : M S A) (k : A -> M S B) : M S B :=
  fun s =>
    match m s with
    | (Ok a, s') => k a s'
    | (Throw e, s') => (Throw e, s')
    end.

Definition throw {S A} (e : Error) : M S A := fun s => (Throw e, s).
Definition gets {S A} (f : S -> A) : M S A := fun s => (Ok (f s), s).
Definition modify {S} (f : S -> S) : M S unit := fun s => (Ok tt, f s).

(** [try { m } catch (err) { handler err }] *)
Definition try_catch {S A} (m : M S A) (handler : Error -> M S A) : M S A :=
  fun s =>
    match m s with
    | (Ok a, s') => (Ok a, s')
    | (Throw e, s') => handler e s'
    end.

(** Run a computation of a component on the part of the state it owns. *)
Definition zoom {S T A} (view : S -> T) (update : T -> S -> S)
    (m : M T A) : M S A :=
  fun s =>
    match m (view s) with
    | (r, t') => (r, update t' s)
    end.

(** [for (const x of xs) { body x }] *)
Fixpoint for_of {S A} (xs : list A) (body : A -> M S unit) : M S unit :=
  match xs with
  | [] => ret tt
  | x :: rest => bind (body x) (fun _ => for_of rest body)
  end.

(** A [for ... of] loop that updates local variables [acc]. *)
Fixpoint for_of_acc {S A B} (xs : list A) (acc : B)
    (body : B -> A -> M S B) : M S B :=
  match xs with
  | [] => ret acc
  | x :: rest => bind (body acc x) (fun acc' => for_of_acc rest acc' body)
  end.

(** A counted [for] loop whose body may [break]: the body answers
    [true] when it breaks out. *)
Fixpoint for_break {S A} (xs : list A) (body : A -> M S bool) : M S unit :=
  match xs with
  | [] => ret tt
  | x :: rest =>
      bind (body x) (fun broke => if broke then ret tt else for_break rest body)
  end.

(** Run a computation on an object that is local to the caller. *)
Definition with_local {S T A} (init : T) (m : M T A) : M S T :=
  fun s =>
    match m init with
    | (Ok _, t') => (Ok t', s)
    | (Throw e, _) => (Throw e, s)
    end.

(** Await a callback that answers or throws without touching the state. *)
Definition answer {S A} (r : Result A) : M S A := fun s => (r, s).

(** Truthiness of a string: only the empty string is falsy. *)
Definition truthy (s : string) : bool :=
  match s with
  | EmptyString => false
  | String _ _ => true
  end.

(** [s.startsWith(p)] *)
Fixpoint startsWith (p s : string) : bool :=
  match p, s with
  | EmptyString, _ => true
  | String a p', String b s' => bool_decide (a = b) && startsWith p' s'
  | String _ _, EmptyString => false
  end.

(** [s.includes(sub)] *)
Fixpoint includes (sub s : string) : bool :=
  startsWith sub s ||
  match s with
  | EmptyString => false
  | String _ s' => includes sub s'
  end.

(** [arr.slice(start)] for any integer [start]; a negative [start] counts
    from the end. *)
Definition slice_from {A} (start : Z) (l : list A) : list A :=
  let len := Z.of_nat (length l) in
  let k := if start <? 0 then Z.max (len + start) 0 else Z.min start len in
  drop (Z.to_nat k) l.

(** [arr.slice(i, j)] for [0 <= i <= j]. *)
Definition slice {A} (i j : Z) (l : list A) : list A :=
  take (Z.to_nat (j - i)) (drop (Z.to_nat i) l).

(** [s.slice(2)] on a string *)
Definition drop2 (s : string) : string :=
  match s with
  | String _ (String _ rest) => rest
  | _ => EmptyString
  end.

(** ** [JSON.stringify] *)

Definition dquote : ascii := "034"%char.
Definition backslash : ascii := "092"%char.

Definition hex_digit (n : N) : ascii :=
  ascii_of_N (if (n <? 10)%N then 48 + n else 87 + n)%N.

Definition escape_char (c : ascii) : string :=
  let n := N_of_ascii c in
  if bool_decide (c = dquote) then String backslash (String dquote EmptyString)
  else if bool_decide (c = backslash) then String backslash (String backslash EmptyString)
  else if bool_decide (n = 8%N) then String backslash "b"
  else if bool_decide (n = 12%N) then String backslash "f"
  else if bool_decide (n = 10%N) then String backslash "n"
  else if bool_decide (n = 13%N) then String backslash "r"
  else if bool_decide (n = 9%N) then String backslash "t"
  else if (n <? 32)%N then
    String backslash
      ("u00" +:+ String (hex_digit (n / 16)) (String (hex_digit (n mod 16)) EmptyString))
  else String c EmptyString.

Fixpoint escape (s : string) : string :=
  match s with
  | EmptyString => EmptyString
  | String c s' => escape_char c +:+ escape s'
  end.

Definition quote (s : string) : string :=
  String dquote (escape s +:+ String dquote EmptyString).

(** What serializing one value gives: text, nothing ([undefined]), or the
    [TypeError] raised on a [BigInt]. *)
Inductive Ser : Type :=
| STypeError
| SNothing
| SText (s : string).

Definition comma (first : bool) : string :=
  if first then EmptyString else ",".

(** The elements of an array, comma separated; [undefined] prints as
    [null]. *)
Definition array_body {A} (ser : A -> Ser) : list A -> bool -> option string :=
  fix go (l : list A) (first : bool) : option string :=
    match l with
    | [] => Some EmptyString
    | x :: rest =>
        match ser x with
        | STypeError => None
        | SNothing => (fun r => comma first +:+ "null" +:+ r) <$> go rest false
        | SText t => (fun r => comma first +:+ t +:+ r) <$> go rest false
        end
    end.

(** The members of an object; a member that is [undefined] is left
    out. *)
Definition object_body {A} (ser : A -> Ser)
    : list (string * A) -> bool -> option string :=
  fix go (l : list (string * A)) (first : bool) : option string :=
    match l with
    | [] => Some EmptyString
    | (k, x) :: rest =>
        match ser x with
        | STypeError => None
        | SNothing => go rest first
        | SText t =>
            (fun r => comma first +:+ quote k +:+ ":" +:+ t +:+ r) <$> go rest false
        end
    end.

Fixpoint serialize (v : Val) : Ser :=
  match v with
  | Undefined => SNothing
  | Null => SText "null"
  | Bool b => SText (if b then "true" else "false")
  | Number n => SText (pretty n)
  | BigInt _ => STypeError
  | Str s => SText (quote s)
  | Array items =>
      match array_body serialize items true with
      | Some body => SText ("[" +:+ body +:+ "]")
      | None => STypeError
      end
  | Object fields =>
      match object_body serialize fields true with
      | Some body => SText ("{" +:+ body +:+ "}")
      | None => STypeError
      end
  end.

Definition bigint_type_error : Error :=
  mkError None None (Some "Do not know how to serialize a BigInt").

(** [JSON.stringify(v)] for a [v] that is not [undefined] at top level. *)
Definition JSON_stringify {S} (v : Val) : M S string :=
  match serialize v with
  | SText t => ret t
  | SNothing => ret "undefined"
  | STypeError => throw bigint_type_error
  end.

End Js.

Notation "x <- m ;;; k" := (Js.bind m (fun x => k))
  (at level 20, m at level 99, k at level 200, only parsing).
Notation "m1 ;;; m2" := (Js.bind m1 (fun _ => m2))
  (at level 100, m2 at level 200, only parsing, right associativity).

(* ===================================================================== *)
(** * The database server, as the adapter sees it                         *)
(* ===================================================================== *)

(** The ClickHouse server is the environment of the program.  The model
    keeps what the adapter's statements read and write: the managed data
    tables by physical name, the registry table [valid_blocks] and the two
    checkpoint tables.  Rows of a [ReplacingMergeTree(timestamp)] table are
    kept in insertion order, the order in which their wall-clock stamps
    resolve; mutations ([ALTER TABLE ... DELETE], [TRUNCATE]) take effect
    when the statement returns. *)

Module Server.

(** A data row, as sent in [JSONEachRow] format. *)
Definition Row : Type := list (string * Js.Val).

(** A physical table answers with its rows, or fails every statement
    with some error; a name that is not bound is an unknown table. *)
Inductive TableState : Type :=
| Rows (rows : list Row)
| Faulty (e : Js.Error).

Record ValidBlockRow : Type := mkValidBlockRow {
  vb_height : Z;
  vb_hash : string;
  vb_processor_id : string
}.

Record StatusRow : Type := mkStatusRow {
  sr_id : string;
  sr_height : Z;
  sr_hash : string;
  sr_parent_hash : string;
  sr_hot_blocks : string;
  sr_finalized_height : Z
}.

Record ColdStatusRow : Type := mkColdStatusRow {
  cs_id : string;
  cs_height : Z;
  cs_hash : string
}.

Record t : Type := mk {
  tables : gmap string TableState;
  valid_blocks : list ValidBlockRow;
  status : list StatusRow;
  cold_status : list ColdStatusRow;
  (** the server setting [aggregate_functions_null_for_empty] *)
  null_for_empty : bool
}.

Definition set_tables (f : gmap string TableState -> gmap string TableState)
    (s : t) : t :=
  mk (f (tables s)) (valid_blocks s) (status s) (cold_status s) (null_for_empty s).

Definition set_valid_blocks (f : list ValidBlockRow -> list ValidBlockRow)
    (s : t) : t :=
  mk (tables s) (f (valid_blocks s)) (status s) (cold_status s) (null_for_empty s).

Definition set_status (f : list StatusRow -> list StatusRow) (s : t) : t :=
  mk (tables s) (valid_blocks s) (f (status s)) (cold_status s) (null_for_empty s).

Definition set_cold_status (f : list ColdStatusRow -> list ColdStatusRow)
    (s : t) : t :=
  mk (tables s) (valid_blocks s) (status s) (f (cold_status s)) (null_for_empty s).

Definition unknown_table (name : string) : Js.Error :=
  Js.mkError (Some "60") (Some "UNKNOWN_TABLE")
    (Some ("Table " +:+ name +:+ " does not exist. (UNKNOWN_TABLE)")).

Fixpoint field (k : string) (r : Row) : Js.Val :=
  match r with
  | [] => Js.Undefined
  | (k', v) :: r' => if bool_decide (k = k') then v else field k r'
  end.

(** An integer column of a row; a row that carries no number there reads
    as the column default. *)
Definition column_int (col : string) (r : Row) : Z :=
  match field col r with
  | Js.Number n => n
  | _ => 0
  end.

Definition column_str (col : string) (r : Row) : string :=
  match field col r with
  | Js.Str s => s
  | _ => EmptyString
  end.

(** [max] of a column: on no rows the column default, or [NULL] under
    [null_for_empty]. *)
Definition max_of (null_when_empty : bool) (l : list Z) : option Z :=
  match l with
  | [] => if null_when_empty then None else Some 0
  | x :: rest => Some (foldl Z.max x rest)
  end.

(** Every statement on a data table starts by resolving the table. *)
Definition scan (name : string) : Js.M t (list Row) :=
  fun s =>
    match tables s !! name with
    | Some (Rows rs) => (Js.Ok rs, s)
    | Some (Faulty e) => (Js.Throw e, s)
    | None => (Js.Throw (unknown_table name), s)
    end.

Definition store (name : string) (rs : list Row) : Js.M t unit :=
  Js.modify (set_tables (insert name (Rows rs))).

(** [SELECT count() FROM name] *)
Definition select_count (name : string) : Js.M t Z :=
  rs <- scan name ;;; Js.ret (Z.of_nat (length rs)).

(** [SELECT count() FROM name WHERE col <= cutoff] *)
Definition select_count_le (name col : string) (cutoff : Z) : Js.M t Z :=
  rs <- scan name ;;;
  Js.ret (Z.of_nat (length (filter (fun r => column_int col r <= cutoff) rs))).

(** [SELECT max(col) FROM name] *)
Definition select_max (name col : string) : Js.M t (option Z) :=
  rs <- scan name ;;;
  nul <- Js.gets null_for_empty ;;;
  Js.ret (max_of nul (column_int col <$> rs)).

(** [SELECT hash FROM name WHERE height = h LIMIT 1] *)
Definition select_hash_at (name : string) (h : Z) : Js.M t (list string) :=
  rs <- scan name ;;;
  Js.ret (take 1 (column_str "hash" <$>
                    filter (fun r => column_int "height" r = h) rs)).

(** [TRUNCATE TABLE name] *)
Definition truncate (name : string) : Js.M t unit :=
  _ <- scan name ;;; store name [].

(** [INSERT INTO name] of rows sent by the client. *)
Definition insert (name : string) (rows : list Row) : Js.M t unit :=
  rs <- scan name ;;; store name (rs ++ rows)%list.

(** [INSERT INTO cold SELECT * FROM hot WHERE col <= cutoff] *)
Definition insert_select_le (cold hot col : string) (cutoff : Z) : Js.M t unit :=
  src <- scan hot ;;;
  insert cold (filter (fun r => column_int col r <= cutoff) src).

(** [ALTER TABLE hot DELETE WHERE col <= cutoff] *)
Definition delete_le (hot col : string) (cutoff : Z) : Js.M t unit :=
  rs <- scan hot ;;;
  store hot (filter (fun r => ~ column_int col r <= cutoff) rs).

(** The latest revision of a keyed singleton. *)
Definition latest {A} (key : A -> string) (id : string) (rows : list A) : option A :=
  last (filter (fun r => key r = id) rows).

End Server.

(* ===================================================================== *)
(** * ValidBlocksManager: the valid-blocks registry                       *)
(* ===================================================================== *)

Module ValidBlocksManager.

Record BlockRef : Type := mkBlockRef {
  height : Z;
  hash : string
}.

(** The manager object: its configuration and the in-memory cache. *)
Record t : Type := mk {
  processorId : string;
  finalityDepth : Z;
  validBlocks : gmap Z string
}.

(** The state its methods run on: the object and the server. *)
Record Env : Type := mkEnv {
  self : t;
  db : Server.t
}.

Definition set_validBlocks (f : gmap Z string -> gmap Z string) (e : Env) : Env :=
  mkEnv (mk (processorId (self e)) (finalityDepth (self e)) (f (validBlocks (self e))))
        (db e).

Definition on_db (f : Server.t -> Server.t) (e : Env) : Env :=
  mkEnv (self e) (f (db e)).

Definition row_of (pid : string) (b : BlockRef) : Server.ValidBlockRow :=
  Server.mkValidBlockRow (height b) (hash b) pid.

(** [initialize]: load this processor's rows into the cache; of two rows
    at one height the later one stays. *)
Definition initialize : Js.M Env unit :=
  pid <- Js.gets (fun e => processorId (self e)) ;;;
  rows <- Js.gets (fun e =>
    filter (fun r => Server.vb_processor_id r = pid) (Server.valid_blocks (db e))) ;;;
  Js.modify (set_validBlocks (fun _ =>
    foldl (fun m r => <[Server.vb_height r := Server.vb_hash r]> m) ∅ rows)).

(** [pruneOldBlocks]: the loop deletes from the [Map] it iterates, which
    visits every entry once; the cache keeps the entries that fail the
    test. *)
Definition pruneOldBlocks (currentHeight : Z) : Js.M Env unit :=
  depth <- Js.gets (fun e => finalityDepth (self e)) ;;;
  let threshold := currentHeight - depth in
  cache <- Js.gets (fun e => validBlocks (self e)) ;;;
  let pruned := size (filter (fun kv => kv.1 < threshold) cache) in
  Js.modify (set_validBlocks (filter (fun kv => ~ kv.1 < threshold))) ;;;
  if bool_decide (0 < pruned)%nat then
    pid <- Js.gets (fun e => processorId (self e)) ;;;
    Js.modify (on_db (Server.set_valid_blocks
      (filter (fun r => ~ (Server.vb_processor_id r = pid
                           /\ Server.vb_height r < threshold)))))
  else Js.ret tt.

Definition addBlock (h : Z) (hs : string) : Js.M Env unit :=
  Js.modify (set_validBlocks (insert h hs)) ;;;
  pid <- Js.gets (fun e => processorId (self e)) ;;;
  Js.modify (on_db (Server.set_valid_blocks
    (fun rows => (rows ++ [Server.mkValidBlockRow h hs pid])%list))) ;;;
  pruneOldBlocks h.

(** [Math.max(...heights)] of a non-empty batch. *)
Definition max_height (blocks : list BlockRef) : Z :=
  match blocks with
  | [] => 0
  | b :: rest => foldl Z.max (height b) (height <$> rest)
  end.

Definition addBlocks (blocks : list BlockRef) : Js.M Env unit :=
  match blocks with
  | [] => Js.ret tt
  | _ :: _ =>
      Js.modify (set_validBlocks (fun cache =>
        foldl (fun m b => <[height b := hash b]> m) cache blocks)) ;;;
      pid <- Js.gets (fun e => processorId (self e)) ;;;
      Js.modify (on_db (Server.set_valid_blocks
        (fun rows => (rows ++ (row_of pid <$> blocks))%list))) ;;;
      pruneOldBlocks (max_height blocks)
  end.

Definition handleReorg (reorgHeight : Z) (newBlocks : list BlockRef)
    : Js.M Env unit :=
  Js.modify (set_validBlocks (filter (fun kv => ~ kv.1 >= reorgHeight))) ;;;
  pid <- Js.gets (fun e => processorId (self e)) ;;;
  Js.modify (on_db (Server.set_valid_blocks
    (filter (fun r => ~ (Server.vb_processor_id r = pid
                         /\ Server.vb_height r >= reorgHeight))))) ;;;
  match newBlocks with
  | [] => Js.ret tt
  | _ :: _ => addBlocks newBlocks
  end.

Definition getValidHashes (m : t) : gmap Z string := validBlocks m.

Definition getFinalityThreshold (m : t) (currentHeight : Z) : Z :=
  currentHeight - finalityDepth m.

Definition isValidBlock (m : t) (h : Z) (hs : string) : bool :=
  bool_decide (validBlocks m !! h = Some hs).

Definition getBlockCount (m : t) : nat := size (validBlocks m).

Definition clear : Js.M Env unit :=
  Js.modify (set_validBlocks (fun _ => ∅)) ;;;
  pid <- Js.gets (fun e => processorId (self e)) ;;;
  Js.modify (on_db (Server.set_valid_blocks
    (filter (fun r => ~ Server.vb_processor_id r = pid)))).

(** [getHighestBlock] and [getLowestBlock]: [Math.max] and [Math.min] of
    the spread keys do not depend on the order the keys come in. *)
Definition getHighestBlock (m : t) : Z :=
  match (map_to_list (validBlocks m)).*1 with
  | [] => -1
  | k :: keys => foldl Z.max k keys
  end.

Definition getLowestBlock (m : t) : Z :=
  match (map_to_list (validBlocks m)).*1 with
  | [] => -1
  | k :: keys => foldl Z.min k keys
  end.

End ValidBlocksManager.

(* ===================================================================== *)
(** * ClickhouseStore: the per-batch buffer handed to the callback        *)
(* ===================================================================== *)

Module ClickhouseStore.

(** An entity instance: its class name and its own enumerable
    properties. *)
Record Entity : Type := mkEntity {
  className : string;
  props : list (string * Js.Val)
}.

Record t : Type := mk {
  inserts : list Entity;
  deletes : list string
}.

Definition new : t := mk [] [].

Definition getInserts (s : t) : list Entity := inserts s.

Definition clearBuffers (s : t) : t := new.

Definition insert (entities : list Entity) : Js.M t unit :=
  Js.modify (fun s => mk (inserts s ++ entities)%list (deletes s)).

Definition save (entities : list Entity) : Js.M t unit := insert entities.

End ClickhouseStore.

(* ===================================================================== *)
(** * ClickhouseDatabase: the adapter                                     *)
(* ===================================================================== *)

Module ClickhouseDatabase.

(** A block object as delivered by the producer: the two fields the
    adapter reads, the optional [parent], and whatever else the producer
    attached (gas fields, big integers, ...). *)
Record BlockRef : Type := mkBlockRef {
  height : Z;
  hash : string;
  parent : option string;
  extra : list (string * Js.Val)
}.

Record DatabaseState : Type := mkDatabaseState {
  st_height : Z;
  st_hash : string;
  top : list BlockRef;
  st_finalizedHeight : option Z
}.

Record HotTxInfo : Type := mkHotTxInfo {
  finalizedHead : BlockRef;
  baseHead : BlockRef;
  newBlocks : list BlockRef
}.

Record FinalTxInfo : Type := mkFinalTxInfo {
  prevHead : BlockRef;
  nextHead : BlockRef;
  isOnTop : bool
}.

Record MigrationResult : Type := mkMigrationResult {
  migrated : Z;
  cutoffHeight : Z;
  moved : list (string * Z)
}.

Record MigrationContext : Type := mkMigrationContext {
  currentHeight : Z;
  ctx_finalizedHeight : Z;
  hotTableRows : Z;
  ctx_blocksSinceLastMigration : Z;
  ctx_isAtChainTip : bool
}.

(** The fields of the adapter object. *)
Record t : Type := mk {
  processorId : string;
  hotBlocks : list BlockRef;
  finalizedHeight : Z;
  hotBlocksDepth : Z;
  network : string;
  heightColumnName : string;
  validBlocksManager : ValidBlocksManager.t;
  isAtChainTip : bool;
  migrateableTables : list string;
  autoMigrate : bool;
  migrationInterval : Z;
  migrationOnFinality : bool;
  blocksSinceLastMigration : Z;
  lastMigrationHeight : Z
}.

Definition set_hotBlocks (f : list BlockRef -> list BlockRef) (d : t) : t :=
  mk (processorId d) (f (hotBlocks d)) (finalizedHeight d) (hotBlocksDepth d)
     (network d) (heightColumnName d) (validBlocksManager d) (isAtChainTip d)
     (migrateableTables d) (autoMigrate d) (migrationInterval d)
     (migrationOnFinality d) (blocksSinceLastMigration d) (lastMigrationHeight d).

Definition set_finalizedHeight (v : Z) (d : t) : t :=
  mk (processorId d) (hotBlocks d) v (hotBlocksDepth d)
     (network d) (heightColumnName d) (validBlocksManager d) (isAtChainTip d)
     (migrateableTables d) (autoMigrate d) (migrationInterval d)
     (migrationOnFinality d) (blocksSinceLastMigration d) (lastMigrationHeight d).

Definition set_validBlocksManager (v : ValidBlocksManager.t) (d : t) : t :=
  mk (processorId d) (hotBlocks d) (finalizedHeight d) (hotBlocksDepth d)
     (network d) (heightColumnName d) v (isAtChainTip d)
     (migrateableTables d) (autoMigrate d) (migrationInterval d)
     (migrationOnFinality d) (blocksSinceLastMigration d) (lastMigrationHeight d).

Definition set_isAtChainTip (v : bool) (d : t) : t :=
  mk (processorId d) (hotBlocks d) (finalizedHeight d) (hotBlocksDepth d)
     (network d) (heightColumnName d) (validBlocksManager d) v
     (migrateableTables d) (autoMigrate d) (migrationInterval d)
     (migrationOnFinality d) (blocksSinceLastMigration d) (lastMigrationHeight d).

Definition set_blocksSinceLastMigration (f : Z -> Z) (d : t) : t :=
  mk (processorId d) (hotBlocks d) (finalizedHeight d) (hotBlocksDepth d)
     (network d) (heightColumnName d) (validBlocksManager d) (isAtChainTip d)
     (migrateableTables d) (autoMigrate d) (migrationInterval d)
     (migrationOnFinality d) (f (blocksSinceLastMigration d)) (lastMigrationHeight d).

Definition set_lastMigrationHeight (v : Z) (d : t) : t :=
  mk (processorId d) (hotBlocks d) (finalizedHeight d) (hotBlocksDepth d)
     (network d) (heightColumnName d) (validBlocksManager d) (isAtChainTip d)
     (migrateableTables d) (autoMigrate d) (migrationInterval d)
     (migrationOnFinality d) (blocksSinceLastMigration d) v.

(** The options the constructor reads, and the listing of the
    hot-supported directory ([discoverHotSupportedTables]). *)
Record Options : Type := mkOptions {
  opt_processorId : option string;
  opt_hotBlocksDepth : option Z;
  opt_network : option string;
  opt_heightColumnName : option string;
  opt_autoMigrate : option bool;
  opt_migrationInterval : option Z;
  opt_migrationOnFinality : option bool
}.

(** [options.x || fallback] on a string and on a number *)
Definition or_string (o : option string) (fallback : string) : string :=
  match o with
  | Some (String c rest) => String c rest
  | _ => fallback
  end.

Definition or_number (o : option Z) (fallback : Z) : Z :=
  match o with
  | Some n => if bool_decide (n = 0) then fallback else n
  | None => fallback
  end.

Definition constructor (options : Options) (discovered : list string) : t :=
  let pid := or_string (opt_processorId options) "default" in
  let depth := or_number (opt_hotBlocksDepth options) 10 in
  mk pid [] (-1) depth
     (or_string (opt_network options) "ethereum")
     (or_string (opt_heightColumnName options) "height")
     (ValidBlocksManager.mk pid depth ∅)
     false discovered
     (default true (opt_autoMigrate options))
     (default 30 (opt_migrationInterval options))
     (default false (opt_migrationOnFinality options))
     0 (-1).

(** The whole mutable state a method can touch: the server, the adapter
    object, the transport between them and the timers awaited.  [wire]
    scripts the fate of the coming data inserts: [Some e] makes the next
    one throw [e] before it reaches the server, [None] lets it through;
    once the script is used up every insert gets through. *)
Record World : Type := mkWorld {
  server : Server.t;
  this : t;
  wire : list (option Js.Error);
  slept : list Z
}.

Definition on_server (f : Server.t -> Server.t) (w : World) : World :=
  mkWorld (f (server w)) (this w) (wire w) (slept w).

Definition on_this (f : t -> t) (w : World) : World :=
  mkWorld (server w) (f (this w)) (wire w) (slept w).

Definition set_wire (l : list (option Js.Error)) (w : World) : World :=
  mkWorld (server w) (this w) l (slept w).

Definition add_slept (ms : Z) (w : World) : World :=
  mkWorld (server w) (this w) (wire w) (slept w ++ [ms])%list.

(** A statement sent through [this.client]. *)
Definition client {A} (m : Js.M Server.t A) : Js.M World A :=
  Js.zoom server (fun s w => on_server (fun _ => s) w) m.

(** A call of a method of [this.validBlocksManager]. *)
Definition manager {A} (m : Js.M ValidBlocksManager.Env A) : Js.M World A :=
  Js.zoom
    (fun w => ValidBlocksManager.mkEnv (validBlocksManager (this w)) (server w))
    (fun e w =>
       mkWorld (ValidBlocksManager.db e)
               (set_validBlocksManager (ValidBlocksManager.self e) (this w))
               (wire w) (slept w))
    m.

(** [await new Promise(r => setTimeout(r, delay))] *)
Definition sleep (delay : Z) : Js.M World unit := Js.modify (add_slept delay).

(** User callbacks.  [beforeMigration] and [afterMigration] are handed
    plain data and answer or throw; [customMigration] is handed the
    adapter itself and may do with it, and with the server behind it,
    whatever a method can. *)
Record MigrationHooks : Type := mkMigrationHooks {
  beforeMigration : option (MigrationContext -> Js.Result bool);
  afterMigration : option (MigrationResult -> Js.Result unit);
  customMigration : option (Js.M World MigrationResult)
}.

Definition hot_table (d : t) (table : string) : string :=
  network d +:+ "_hot_" +:+ table.

Definition cold_table (d : t) (table : string) : string :=
  network d +:+ "_cold_" +:+ table.

(** [err.message?.includes('UNKNOWN_TABLE') || err.type === 'UNKNOWN_TABLE'] *)
Definition is_unknown_table (err : Js.Error) : bool :=
  match Js.message err with
  | Some m => Js.includes "UNKNOWN_TABLE" m
  | None => false
  end
  || bool_decide (Js.type err = Some "UNKNOWN_TABLE").

(** ** Reorg detection *)

Definition detectReorg (d : t) (newBlocks : list BlockRef) : bool :=
  match last (hotBlocks d), head newBlocks with
  | Some currentTip, Some newBlock => bool_decide (height newBlock <= height currentTip)
  | _, _ => false
  end.

(** The [Map] from hash to height built over the current chain. *)
Definition hashToHeight (chain : list BlockRef) : gmap string Z :=
  foldl (fun m block => <[hash block := height block]> m) ∅ chain.

Definition findCommonAncestor (d : t) (newBlocks : list BlockRef) : Z :=
  let known := hashToHeight (hotBlocks d) in
  foldl (fun ancestorHeight newBlock =>
           if bool_decide (is_Some (known !! hash newBlock))
           then Z.max ancestorHeight (height newBlock)
           else ancestorHeight)
        (finalizedHeight d) newBlocks.

(** ** Checkpoints *)

Definition getColdStatus : Js.M World (option (Z * string)) :=
  pid <- Js.gets (fun w => processorId (this w)) ;;;
  rows <- Js.gets (fun w => Server.cold_status (server w)) ;;;
  match Server.latest Server.cs_id pid rows with
  | None => Js.ret None
  | Some r => Js.ret (Some (Server.cs_height r, Server.cs_hash r))
  end.

Definition updateColdStatus (h : Z) (hs : string) : Js.M World unit :=
  pid <- Js.gets (fun w => processorId (this w)) ;;;
  Js.modify (on_server (Server.set_cold_status
    (fun rows => (rows ++ [Server.mkColdStatusRow pid h hs])%list))).

Definition sanitize (b : BlockRef) : Js.Val :=
  Js.Object [("height", Js.Number (height b)); ("hash", Js.Str (hash b))].

(** [(state.top[state.top.length - 1] as any)?.parent || ''] *)
Definition parent_or_empty (chain : list BlockRef) : string :=
  match last chain with
  | Some b =>
      match parent b with
      | Some p => if Js.truthy p then p else EmptyString
      | None => EmptyString
      end
  | None => EmptyString
  end.

Definition saveStatus (state : DatabaseState) : Js.M World unit :=
  let sanitizedHotBlocks := Js.Array (sanitize <$> top state) in
  hot_blocks <- Js.JSON_stringify sanitizedHotBlocks ;;;
  d <- Js.gets this ;;;
  Js.modify (on_server (Server.set_status (fun rows =>
    (rows ++ [Server.mkStatusRow (processorId d) (st_height state) (st_hash state)
                (parent_or_empty (top state)) hot_blocks (finalizedHeight d)])%list))).

(** ** Zone router *)

Definition is_lower (c : ascii) : bool :=
  let n := N_of_ascii c in (97 <=? n)%N && (n <=? 122)%N.
Definition is_upper (c : ascii) : bool :=
  let n := N_of_ascii c in (65 <=? n)%N && (n <=? 90)%N.
Definition is_digit (c : ascii) : bool :=
  let n := N_of_ascii c in (48 <=? n)%N && (n <=? 57)%N.
Definition to_lower (c : ascii) : ascii :=
  if is_upper c then ascii_of_N (N_of_ascii c + 32)%N else c.

(** [s.replace(/([l])([r])/g, '$1_$2')] for two disjoint character
    classes: an underscore goes between every [l] followed by an [r]. *)
Fixpoint underscore_between (l r : ascii -> bool) (s : string) : string :=
  match s with
  | EmptyString => EmptyString
  | String a rest =>
      match rest with
      | String b _ =>
          if l a && r b
          then String a (String "_" (underscore_between l r rest))
          else String a (underscore_between l r rest)
      | EmptyString => String a EmptyString
      end
  end.

(** [s.replace(/([A-Z]+)([A-Z][a-z])/g, '$1_$2')]: an underscore goes
    before the last capital of a run of capitals that a lower-case
    letter follows. *)
Fixpoint underscore_caps (s : string) : string :=
  match s with
  | EmptyString => EmptyString
  | String a rest =>
      match rest with
      | String b (String c _) =>
          if is_upper a && is_upper b && is_lower c
          then String a (String "_" (underscore_caps rest))
          else String a (underscore_caps rest)
      | _ => String a (underscore_caps rest)
      end
  end.

Fixpoint toLowerCase (s : string) : string :=
  match s with
  | EmptyString => EmptyString
  | String c rest => String (to_lower c) (toLowerCase rest)
  end.

Definition getTableName (d : t) (className : string) : string :=
  let snakeCase :=
    toLowerCase
      (underscore_caps
         (underscore_between is_digit is_upper
            (underscore_between is_lower is_upper className))) in
  let tempZone := if isAtChainTip d then "hot_" else "cold_" in
  network d +:+ "_" +:+ tempZone +:+ snakeCase +:+ "s".

Definition setIsAtChainTip (isHead : bool) : Js.M World unit :=
  Js.modify (on_this (fun d =>
    if bool_decide (isAtChainTip d <> isHead) then set_isAtChainTip isHead d else d)).

(** ** Ingest buffer *)

Definition BATCH_SIZE : Z := 200000.

Definition hexFieldsOf (entity : ClickhouseStore.Entity) : list string :=
  match Server.field "_hexFields" (ClickhouseStore.props entity) with
  | Js.Array items =>
      omap (fun v => match v with Js.Str s => Some s | _ => None end) items
  | _ => []
  end.

(** One step of the loop of [serializeEntity]; dates and arrays are
    values that pass through as they are. *)
Definition serializeField (hexFields : list string) (kv : string * Js.Val)
    : string * Js.Val :=
  let '(key, value) := kv in
  match value with
  | Js.BigInt n => (key, Js.Str (pretty n))
  | Js.Str s =>
      if bool_decide (key ∈ hexFields)
      then (key, Js.Str (if Js.startsWith "0x" s then Js.drop2 s else s))
      else (key, value)
  | _ => (key, value)
  end.

Definition serializeEntity (entity : ClickhouseStore.Entity) : Server.Row :=
  serializeField (hexFieldsOf entity) <$> ClickhouseStore.props entity.

(** [byTable.get(tableName).push(entity)], creating the group at the
    end of the [Map] when the table is new. *)
Definition group_push (table : string) (entity : ClickhouseStore.Entity)
    (groups : list (string * list ClickhouseStore.Entity))
    : list (string * list ClickhouseStore.Entity) :=
  if bool_decide (table ∈ groups.*1)
  then (fun g => if bool_decide (g.1 = table) then (g.1, (g.2 ++ [entity])%list) else g)
         <$> groups
  else (groups ++ [(table, [entity])])%list.

Definition byTable (d : t) (inserts : list ClickhouseStore.Entity)
    : list (string * list ClickhouseStore.Entity) :=
  foldl (fun groups entity =>
           group_push (getTableName d (ClickhouseStore.className entity)) entity groups)
        [] inserts.

(** [this.client.insert] of data rows: the transport may fail before the
    rows reach the server. *)
Definition client_insert (table : string) (values : list Server.Row)
    : Js.M World unit :=
  script <- Js.gets wire ;;;
  match script with
  | Some err :: rest => Js.modify (set_wire rest) ;;; Js.throw err
  | None :: rest => Js.modify (set_wire rest) ;;; client (Server.insert table values)
  | [] => client (Server.insert table values)
  end.

Definition retryableCodes : list string :=
  ["EPIPE"; "ECONNRESET"; "ETIMEDOUT"; "ECONNREFUSED"].

Definition isRetryable (err : Js.Error) : bool :=
  match Js.code err with
  | Some c => bool_decide (c ∈ retryableCodes)
  | None => false
  end
  || match Js.message err with
     | Some m => Js.includes "socket hang up" m
     | None => false
     end.

(** The retry loop around the insert of one chunk:
    [for (let attempt = 1; attempt <= 3; attempt++)]. *)
Definition insertChunk (table : string) (chunk : list Server.Row)
    : Js.M World unit :=
  Js.for_break [1; 2; 3] (fun attempt =>
    Js.try_catch
      (client_insert table chunk ;;; Js.ret true)
      (fun err =>
         if isRetryable err && (attempt <? 3)
         then sleep (500 * attempt) ;;; Js.ret false
         else Js.throw err)).

(** The values of [i] in [for (let i = 0; i < n; i += BATCH_SIZE)]. *)
Definition chunk_starts (n : Z) : list Z :=
  (fun k => Z.of_nat k * BATCH_SIZE) <$> seq 0 (Z.to_nat ((n + BATCH_SIZE - 1) / BATCH_SIZE)).

(** [flushStore]: the tables' tasks of [Promise.all] are run one after
    the other, in the order of the [Map]. *)
Definition flushStore (store : ClickhouseStore.t) : Js.M World ClickhouseStore.t :=
  match ClickhouseStore.getInserts store with
  | [] => Js.ret store
  | inserts =>
      d <- Js.gets this ;;;
      Js.for_of (byTable d inserts) (fun group =>
        let '(table, entities) := group in
        match entities with
        | [] => Js.ret tt
        | _ =>
            let serializedEntities := serializeEntity <$> entities in
            Js.for_of (chunk_starts (Z.of_nat (length serializedEntities))) (fun i =>
              insertChunk table (Js.slice i (i + BATCH_SIZE) serializedEntities))
        end) ;;;
      Js.ret (ClickhouseStore.clearBuffers store)
  end.

(** ** Stale-restart reconciler *)

(** [getLatestColdBlockHeight]: the largest height found in the cold
    tables, [-1] when none answers. *)
Definition getLatestColdBlockHeight : Js.M World Z :=
  d <- Js.gets this ;;;
  Js.for_of_acc (migrateableTables d) (-1) (fun maxHeight table =>
    Js.try_catch
      (row <- client (Server.select_max (cold_table d table) "height") ;;;
       match row with
       | Some h => Js.ret (if bool_decide (h > maxHeight) then h else maxHeight)
       | None => Js.ret maxHeight
       end)
      (fun _ => Js.ret maxHeight)).

(** The body of the loop of [clearAllHotTables]. *)
Definition clearHotTable (d : t) (table : string) : Js.M World unit :=
  let hotTable := hot_table d table in
  Js.try_catch
    (rowsToDelete <- client (Server.select_count hotTable) ;;;
     if bool_decide (rowsToDelete = 0) then Js.ret tt
     else client (Server.truncate hotTable))
    (fun err =>
       if is_unknown_table err then Js.ret tt
       else Js.ret tt (* logged; the rollback goes on *)).

Definition clearAllHotTables : Js.M World unit :=
  d <- Js.gets this ;;;
  Js.for_of (migrateableTables d) (clearHotTable d).

(** Step 1 of the reconciler: the cold checkpoint, or the height found
    in the cold tables with no hash. *)
Definition resolveCold : Js.M World (Z * string) :=
  coldStatus <- getColdStatus ;;;
  match coldStatus with
  | Some (h, hs) => Js.ret (h, hs)
  | None => h <- getLatestColdBlockHeight ;;; Js.ret (h, EmptyString)
  end.

Definition detectAndRollbackStaleHotBlocks (state : DatabaseState)
    : Js.M World (option DatabaseState) :=
  let hotBlockCount := length (top state) in
  let lastIndexedHeight := st_height state in
  cold <- resolveCold ;;;
  let '(coldHeight, coldHash) := cold in
  let hasHotBlocks := bool_decide (0 < hotBlockCount)%nat in
  let heightBeyondCold :=
    bool_decide (lastIndexedHeight > coldHeight) && bool_decide (coldHeight >= 0) in
  if negb hasHotBlocks && negb heightBeyondCold then Js.ret None
  else
    manager ValidBlocksManager.clear ;;;
    clearAllHotTables ;;;
    let newState := mkDatabaseState coldHeight coldHash [] (Some coldHeight) in
    saveStatus newState ;;;
    Js.ret (Some newState).

(** ** Migration engine *)

(** One of the two lookups [SELECT hash ... WHERE height = h LIMIT 1] of
    [getBlockHashForHeight], with its catch-all. *)
Definition hashInTable (name : string) (h : Z) : Js.M World (option string) :=
  Js.try_catch
    (rows <- client (Server.select_hash_at name h) ;;;
     match rows with
     | row_hash :: _ => Js.ret (if Js.truthy row_hash then Some row_hash else None)
     | [] => Js.ret None
     end)
    (fun _ => Js.ret None).

(** [getBlockHashForHeight]: hot chain, then registry, then the
    representative cold and hot tables. *)
Definition getBlockHashForHeight (h : Z) : Js.M World (option string) :=
  d <- Js.gets this ;;;
  match List.find (fun b => bool_decide (height b = h)) (hotBlocks d) with
  | Some hotBlock => Js.ret (Some (hash hotBlock))
  | None =>
      let validHashes := ValidBlocksManager.getValidHashes (validBlocksManager d) in
      match validHashes !! h with
      | Some (String c rest) => Js.ret (Some (String c rest))
      | _ =>
          match migrateableTables d with
          | [] => Js.ret None
          | representativeTable :: _ =>
              fromCold <- hashInTable (cold_table d representativeTable) h ;;;
              match fromCold with
              | Some found => Js.ret (Some found)
              | None => hashInTable (hot_table d representativeTable) h
              end
          end
      end
  end.

Definition no_migration (cutoff : Z) : MigrationResult :=
  mkMigrationResult 0 cutoff [].

(** Step 1 of [migrateHotToCold]: the [try] block either returns from
    the method ([inl]) or yields [maxHeight] ([inr]). *)
Definition readMaxHeight : Js.M World (MigrationResult + Z) :=
  d <- Js.gets this ;;;
  Js.try_catch
    (match migrateableTables d with
     | [] => Js.ret (inl (no_migration (-1)))
     | first :: _ =>
         row <- client (Server.select_max (hot_table d first) (heightColumnName d)) ;;;
         match row with
         | None => Js.ret (inl (no_migration (-1)))
         | Some maxHeight =>
             if bool_decide (maxHeight = 0) || bool_decide (maxHeight <= 0)
             then Js.ret (inl (no_migration (-1)))
             else Js.ret (inr maxHeight)
         end
     end)
    (fun err =>
       if is_unknown_table err then Js.ret (inl (no_migration (-1)))
       else Js.throw err).

(** The body of the per-table loop; [acc] holds [totalMigrated] and
    [tableResults]. *)
Definition migrateTable (d : t) (cutoff : Z) (acc : Z * list (string * Z))
    (table : string) : Js.M World (Z * list (string * Z)) :=
  let hotTable := hot_table d table in
  let coldTable := cold_table d table in
  Js.try_catch
    (rowsToMigrate <-
       client (Server.select_count_le hotTable (heightColumnName d) cutoff) ;;;
     if bool_decide (rowsToMigrate = 0) then Js.ret acc
     else
       client (Server.insert_select_le coldTable hotTable (heightColumnName d) cutoff) ;;;
       client (Server.delete_le hotTable (heightColumnName d) cutoff) ;;;
       Js.ret (acc.1 + rowsToMigrate, (acc.2 ++ [(table, rowsToMigrate)])%list))
    (fun err =>
       if is_unknown_table err then Js.ret acc
       else Js.ret acc (* logged; the other tables proceed *)).

(** Steps 3 to 6 of [migrateHotToCold], once the cutoff is known to
    have advanced. *)
Definition migrateUpTo (d : t) (cutoffHeight : Z) : Js.M World MigrationResult :=
  totals <- Js.for_of_acc (migrateableTables d) (0, [])
              (migrateTable d cutoffHeight) ;;;
  Js.modify (on_this (set_lastMigrationHeight cutoffHeight)) ;;;
  cutoffHash <- getBlockHashForHeight cutoffHeight ;;;
  match cutoffHash with
  | Some (String c rest) => updateColdStatus cutoffHeight (String c rest)
  | _ => Js.ret tt
  end ;;;
  Js.ret (mkMigrationResult totals.1 cutoffHeight totals.2).

Definition migrateHotToCold : Js.M World MigrationResult :=
  d <- Js.gets this ;;;
  if negb (isAtChainTip d) then Js.ret (no_migration (-1))
  else
    step1 <- readMaxHeight ;;;
    match step1 with
    | inl result => Js.ret result
    | inr maxHeight =>
        let cutoffHeight := maxHeight - hotBlocksDepth d in
        if bool_decide (cutoffHeight <= lastMigrationHeight d)
        then Js.ret (no_migration cutoffHeight)
        else migrateUpTo d cutoffHeight
    end.

(** The first part of [performMigration]: the row estimate and the
    context handed to the hooks. *)
Definition buildContext : Js.M World MigrationContext :=
  d <- Js.gets this ;;;
  hotRows <- match migrateableTables d with
             | [] => Js.ret 0
             | first :: _ =>
                 Js.try_catch (client (Server.select_count (hot_table d first)))
                              (fun _ => Js.ret 0)
             end ;;;
  Js.ret
    (mkMigrationContext
       (match last (hotBlocks d) with
        | Some b => if bool_decide (height b = 0) then finalizedHeight d else height b
        | None => finalizedHeight d
        end)
       (finalizedHeight d) hotRows (blocksSinceLastMigration d) (isAtChainTip d)).

(** [performMigration]: the hooks around the migration. *)
Definition performMigration (hooks : option MigrationHooks) : Js.M World unit :=
  context <- buildContext ;;;
  shouldContinue <- match hooks ≫= beforeMigration with
                    | Some before => Js.answer (before context)
                    | None => Js.ret true
                    end ;;;
  if negb shouldContinue then Js.ret tt
  else
    result <- match hooks ≫= customMigration with
              | Some custom => custom
              | None => migrateHotToCold
              end ;;;
    match hooks ≫= afterMigration with
    | Some after => Js.answer (after result)
    | None => Js.ret tt
    end ;;;
    Js.modify (on_this (set_blocksSinceLastMigration (fun _ => 0))).

(** ** Ingest coordinator *)

Definition registryRef (b : BlockRef) : ValidBlocksManager.BlockRef :=
  ValidBlocksManager.mkBlockRef (height b) (hash b).

(** [transact]: a finalized batch. *)
Definition transact (info : FinalTxInfo) (cb : Js.M ClickhouseStore.t unit)
    : Js.M World unit :=
  store <- Js.with_local ClickhouseStore.new cb ;;;
  flushStore store ;;;
  Js.modify (on_this (set_finalizedHeight (height (nextHead info)))) ;;;
  d <- Js.gets this ;;;
  saveStatus (mkDatabaseState (height (nextHead info)) (hash (nextHead info))
                (hotBlocks d) None).

(** The last part of [transactHot]: the trigger of the hot-to-cold
    migration. *)
Definition autoMigration (hooks : option MigrationHooks)
    (previousFinalizedHeight : Z) (newBlocks : list BlockRef) : Js.M World unit :=
  d <- Js.gets this ;;;
  if autoMigrate d && isAtChainTip d then
    Js.modify (on_this (set_blocksSinceLastMigration
      (fun n => n + Z.of_nat (length newBlocks)))) ;;;
    d' <- Js.gets this ;;;
    let shouldMigrate :=
      if migrationOnFinality d'
      then bool_decide (finalizedHeight d' > previousFinalizedHeight)
      else bool_decide (blocksSinceLastMigration d' >= migrationInterval d') in
    if shouldMigrate then performMigration hooks else Js.ret tt
  else Js.ret tt.

(** [transactHot]: a batch of unfinalized blocks. *)
Definition transactHot (hooks : option MigrationHooks) (info : HotTxInfo)
    (cb : BlockRef -> Js.M ClickhouseStore.t unit) : Js.M World unit :=
  previousFinalizedHeight <- Js.gets (fun w => finalizedHeight (this w)) ;;;
  (if bool_decide (height (finalizedHead info) > previousFinalizedHeight) then
     Js.modify (on_this (set_finalizedHeight (height (finalizedHead info)))) ;;;
     Js.modify (on_this (set_hotBlocks
       (filter (fun b => height b > height (finalizedHead info)))))
   else Js.ret tt) ;;;
  reorgDetected <- Js.gets (fun w => detectReorg (this w) (newBlocks info)) ;;;
  (if reorgDetected then
     rollbackHeight <- Js.gets (fun w => findCommonAncestor (this w) (newBlocks info)) ;;;
     manager (ValidBlocksManager.handleReorg (rollbackHeight + 1)
                (registryRef <$> newBlocks info)) ;;;
     Js.modify (on_this (set_hotBlocks (filter (fun b => height b <= rollbackHeight))))
   else Js.ret tt) ;;;
  Js.for_of (newBlocks info) (fun block =>
    store <- Js.with_local ClickhouseStore.new (cb block) ;;;
    flushStore store ;;;
    known <- Js.gets (fun w =>
      ValidBlocksManager.isValidBlock (validBlocksManager (this w))
        (height block) (hash block)) ;;;
    (if negb known
     then manager (ValidBlocksManager.addBlock (height block) (hash block))
     else Js.ret tt) ;;;
    Js.modify (on_this (set_hotBlocks (fun chain => (chain ++ [block])%list)))) ;;;
  Js.modify (on_this (fun d =>
    if bool_decide (Z.of_nat (length (hotBlocks d)) > hotBlocksDepth d)
    then set_hotBlocks (Js.slice_from (- hotBlocksDepth d)) d
    else d)) ;;;
  match last (newBlocks info) with
  | Some lastBlock =>
      d <- Js.gets this ;;;
      saveStatus (mkDatabaseState (height lastBlock) (hash lastBlock) (hotBlocks d) None)
  | None => Js.ret tt
  end ;;;
  autoMigration hooks previousFinalizedHeight (newBlocks info).

End ClickhouseDatabase.

(* ===================================================================== *)
(** * Vocabulary of the statements                                        *)
(* ===================================================================== *)

Module CD := ClickhouseDatabase.
Module VBM := ValidBlocksManager.

(** A height is shared when a block of the new list at that height
    carries the hash of some block of the hot chain. *)
Definition shared_height (d : CD.t) (newBlocks : list CD.BlockRef) (h : Z) : Prop :=
  exists nb, nb ∈ newBlocks /\ CD.height nb = h /\
    exists hb, hb ∈ CD.hotBlocks d /\ CD.hash hb = CD.hash nb.

(** A height carries a common block when one block, height and hash, is
    in both sequences. *)
Definition common_block (d : CD.t) (newBlocks : list CD.BlockRef) (h : Z) : Prop :=
  exists b, CD.height b = h /\
    (exists nb, nb ∈ newBlocks /\ CD.height nb = CD.height b /\ CD.hash nb = CD.hash b)
    /\ (exists hb, hb ∈ CD.hotBlocks d /\ CD.height hb = CD.height b
                   /\ CD.hash hb = CD.hash b).

(** Hashes name blocks: a hash of the hot chain that the new list repeats
    comes at the same height. *)
Definition hashes_name_blocks (d : CD.t) (newBlocks : list CD.BlockRef) : Prop :=
  forall nb hb, nb ∈ newBlocks -> hb ∈ CD.hotBlocks d ->
                CD.hash hb = CD.hash nb -> CD.height hb = CD.height nb.

(** A server with no managed table and empty registry and checkpoint
    tables. *)
Definition fresh_server : Server.t := Server.mk ∅ [] [] [] false.

(** A registry of depth 10 that holds the single height 90. *)
Definition registry_at_90 : VBM.Env :=
  VBM.mkEnv (VBM.mk "default" 10 {[ 90 := "0xa" ]}) fresh_server.

(** The text of a hot chain reduced to its [(height, hash)] pairs: what the
    [hot_blocks] column is to hold. *)
Definition pair_text (p : Z * string) : string :=
  "{" +:+ Js.quote "height" +:+ ":" +:+ pretty p.1 +:+ ","
      +:+ Js.quote "hash" +:+ ":" +:+ Js.quote p.2 +:+ "}".

Fixpoint pairs_body (l : list (Z * string)) (first : bool) : string :=
  match l with
  | [] => EmptyString
  | p :: rest => Js.comma first +:+ pair_text p +:+ pairs_body rest false
  end.

Definition pairs_text (l : list (Z * string)) : string :=
  "[" +:+ pairs_body l true +:+ "]".

Definition height_and_hash (b : CD.BlockRef) : Z * string :=
  (CD.height b, CD.hash b).

(** A block object as the producer hands it over, with every field it
    carries. *)
Definition raw_object (b : CD.BlockRef) : Js.Val :=
  Js.Object ([("height", Js.Number (CD.height b)); ("hash", Js.Str (CD.hash b))]
             ++ match CD.parent b with
                | Some p => [("parent", Js.Str p)]
                | None => []
                end
             ++ CD.extra b)%list.

(** A producer block that carries a wide integer. *)
Definition block_with_gas : CD.BlockRef :=
  CD.mkBlockRef 103 "0xd" None [("baseFeePerGas", Js.BigInt 7)].

(** The retry policy in the words of the specification: an attempt that
    fails on a transient error is followed, after [delay] milliseconds, by
    [next]; any other failure is final. *)
Definition attempt_then (table : string) (chunk : list Server.Row) (delay : Z)
    (next : Js.M CD.World unit) : Js.M CD.World unit :=
  fun w =>
    match CD.client_insert table chunk w with
    | (Js.Ok _, w') => (Js.Ok tt, w')
    | (Js.Throw e, w') =>
        if CD.isRetryable e then next (CD.add_slept delay w') else (Js.Throw e, w')
    end.

(** Three attempts in all, 500 ms and then 1000 ms apart. *)
Definition three_attempts (table : string) (chunk : list Server.Row)
    : Js.M CD.World unit :=
  attempt_then table chunk 500
    (attempt_then table chunk 1000 (CD.client_insert table chunk)).

(** The transport failures the specification calls transient. *)
Definition transient (e : Js.Error) : Prop :=
  Js.code e = Some "ECONNRESET" \/ Js.code e = Some "EPIPE"
  \/ Js.code e = Some "ETIMEDOUT" \/ Js.code e = Some "ECONNREFUSED"
  \/ exists m, Js.message e = Some m /\ Js.includes "socket hang up" m = true.

Definition connection_reset : Js.Error :=
  Js.mkError (Some "ECONNRESET") None (Some "read ECONNRESET").

Definition socket_hang_up : Js.Error :=
  Js.mkError None None (Some "socket hang up").

Definition syntax_error : Js.Error :=
  Js.mkError (Some "62") (Some "SYNTAX_ERROR") (Some "Cannot parse input").

(** A computation leaves a view of the state as it was, whether it
    returns or throws. *)
Definition preserves {S X A : Type} (view : S -> X) (m : Js.M S A) : Prop :=
  forall s, view (m s).2 = view s.

(** A computation returns, it does not throw. *)
Definition returns {S A : Type} (m : Js.M S A) : Prop :=
  forall s, exists a, (m s).1 = Js.Ok a.

(** An adapter built with every option left to its default, over one
    hot-supported table, and following the chain tip. *)
Definition default_options : CD.Options :=
  CD.mkOptions None None None None None None None.

Definition adapter_at_tip : CD.t :=
  CD.set_isAtChainTip true (CD.constructor default_options ["transfers"]).

Definition world_of (tables : gmap string Server.TableState) (d : CD.t) : CD.World :=
  CD.mkWorld (Server.mk tables [] [] [] false) d [] [].

(** A hot table whose only row belongs to the genesis block. *)
Definition genesis_world : CD.World :=
  world_of {[ "ethereum_hot_transfers" := Server.Rows [[("height", Js.Number 0)]] ]}
           adapter_at_tip.

(** The reconciler's test: hot blocks were left behind, or the live
    height runs ahead of cold data that exists. *)
Definition stale (state : CD.DatabaseState) (coldHeight : Z) : Prop :=
  CD.top state <> [] \/ (CD.st_height state > coldHeight /\ coldHeight >= 0).

(** The data tables after [TRUNCATE] of those of [names] that answer with
    rows. *)
Definition emptied_one (name : string) (tables : gmap string Server.TableState)
    : gmap string Server.TableState :=
  match tables !! name with
  | Some (Server.Rows (_ :: _)) => <[name := Server.Rows []]> tables
  | _ => tables
  end.

Definition emptied (names : list string) (tables : gmap string Server.TableState)
    : gmap string Server.TableState :=
  foldl (fun t name => emptied_one name t) tables names.

(** A restart after a catch-up only run: nothing hot, nothing cold. *)
Definition state_after_catchup : CD.DatabaseState :=
  CD.mkDatabaseState 9999 "0xh" [] (Some 9999).

Definition world_after_catchup : CD.World :=
  world_of ∅ (CD.constructor default_options []).

(** The world the three steps of a rollback lead to. *)
Definition rolled_back (coldHeight : Z) (coldHash : string) (w : CD.World) : CD.World :=
  let w1 := (CD.manager VBM.clear w).2 in
  let w2 := (CD.clearAllHotTables w1).2 in
  (CD.saveStatus (CD.mkDatabaseState coldHeight coldHash [] (Some coldHeight)) w2).2.

(** What a hot batch must leave alone when it brings no block: the live
    checkpoint table, the registry on the server and in memory, and the
    hot chain. *)
Definition live_view (w : CD.World)
    : list Server.StatusRow * list Server.ValidBlockRow * VBM.t * list CD.BlockRef :=
  (Server.status (CD.server w), Server.valid_blocks (CD.server w),
   CD.validBlocksManager (CD.this w), CD.hotBlocks (CD.this w)).

Definition checkpoint_and_registry (s : Server.t)
    : list Server.StatusRow * list Server.ValidBlockRow :=
  (Server.status s, Server.valid_blocks s).

(** The adapter after the first steps of [transactHot] on a batch with no
    block: finality may advance and the hot chain may shrink. *)
Definition settled (info : CD.HotTxInfo) (d : CD.t) : CD.t :=
  let d1 :=
    if bool_decide (CD.height (CD.finalizedHead info) > CD.finalizedHeight d)
    then CD.set_hotBlocks
           (filter (fun b => CD.height b > CD.height (CD.finalizedHead info)))
           (CD.set_finalizedHeight (CD.height (CD.finalizedHead info)) d)
    else d in
  if bool_decide (Z.of_nat (length (CD.hotBlocks d1)) > CD.hotBlocksDepth d1)
  then CD.set_hotBlocks (Js.slice_from (- CD.hotBlocksDepth d1)) d1
  else d1.

(** A world at chain tip: two rows in the hot table, a hot chain of three
    blocks above finalized height 99, and those blocks in the registry. *)
Definition transfer_row (h : Z) : Server.Row :=
  [("height", Js.Number h); ("hash", Js.Str "0xr")].

Definition block (h : Z) (hs : string) : CD.BlockRef := CD.mkBlockRef h hs None [].

Definition tip_world : CD.World :=
  world_of
    {[ "ethereum_hot_transfers" := Server.Rows [transfer_row 95; transfer_row 100];
       "ethereum_cold_transfers" := Server.Rows [] ]}
    (CD.set_validBlocksManager
       (VBM.mk "default" 10 {[ 100 := "0xa"; 101 := "0xb"; 102 := "0xc" ]})
       (CD.set_finalizedHeight 99
          (CD.set_hotBlocks
             (fun _ => [block 100 "0xa"; block 101 "0xb"; block 102 "0xc"])
             adapter_at_tip))).

(** A hot batch that reports finality at 100 and brings no block. *)
Definition idle_info : CD.HotTxInfo :=
  CD.mkHotTxInfo (block 100 "0xa") (block 102 "0xc") [].

(** A hot batch with two more blocks, and the callback that stores one
    entity for each. *)
Definition next_info : CD.HotTxInfo :=
  CD.mkHotTxInfo (block 99 "0xf") (block 102 "0xc") [block_with_gas; block 104 "0xe"].

Definition one_transfer (b : CD.BlockRef) : Js.M ClickhouseStore.t unit :=
  ClickhouseStore.insert
    [ClickhouseStore.mkEntity "Transfer"
       [("height", Js.Number (CD.height b)); ("value", Js.BigInt 5)]].

(** A stale restart: the adapter has loaded a live checkpoint at 10050
    with five hot blocks and finalized height 10040; the cold checkpoint
    is at 10000 and the hot table still holds rows. *)
Definition stale_state : CD.DatabaseState :=
  CD.mkDatabaseState 10050 "0x50"
    [block 10046 "0x46"; block 10047 "0x47"; block 10048 "0x48";
     block 10049 "0x49"; block 10050 "0x50"]
    (Some 10040).

Definition stale_world : CD.World :=
  CD.mkWorld
    (Server.mk
       {[ "ethereum_hot_transfers" := Server.Rows [transfer_row 10046; transfer_row 10050];
          "ethereum_cold_transfers" := Server.Rows [transfer_row 10000] ]}
       [Server.mkValidBlockRow 10046 "0x46" "default";
        Server.mkValidBlockRow 10050 "0x50" "other"]
       []
       [Server.mkColdStatusRow "default" 10000 "0xcold"]
       false)
    (CD.set_validBlocksManager
       (VBM.mk "default" 10 {[ 10046 := "0x46" ]})
       (CD.set_finalizedHeight 10040
          (CD.set_hotBlocks (fun _ => CD.top stale_state)
             (CD.constructor default_options ["transfers"]))))
    [] [].

(** Hooks that let every migration through and bring their own. *)
Definition observing_hooks : CD.MigrationHooks :=
  CD.mkMigrationHooks (Some (fun _ => Js.Ok true)) None
    (Some (Js.ret (CD.no_migration 0))).

(** Hooks that veto every migration. *)
Definition vetoing_hooks : CD.MigrationHooks :=
  CD.mkMigrationHooks (Some (fun _ => Js.Ok false)) None None.


(** The rows a data table answers with; none when it does not answer. *)
Definition rows_at (tables : gmap string Server.TableState) (name : string)
    : list Server.Row :=
  match tables !! name with
  | Some (Server.Rows rs) => rs
  | _ => []
  end.

(** The data tables after the migration of one managed table up to
    [cutoff]: when its hot and its cold table both answer and some hot row
    is at or below the cutoff, those rows are appended to the cold table
    and leave the hot one. *)
Definition moved_one (d : CD.t) (cutoff : Z) (tables : gmap string Server.TableState)
    (table : string) : gmap string Server.TableState :=
  match tables !! CD.hot_table d table, tables !! CD.cold_table d table with
  | Some (Server.Rows hrows), Some (Server.Rows crows) =>
      match filter (fun r => Server.column_int (CD.heightColumnName d) r <= cutoff) hrows with
      | [] => tables
      | moving =>
          <[CD.hot_table d table :=
              Server.Rows (filter (fun r => ~ Server.column_int (CD.heightColumnName d) r
                                              <= cutoff) hrows)]>
            (<[CD.cold_table d table := Server.Rows (crows ++ moving)%list]> tables)
      end
  | _, _ => tables
  end.

Definition moved_all (d : CD.t) (cutoff : Z) (names : list string)
    (tables : gmap string Server.TableState) : gmap string Server.TableState :=
  foldl (moved_one d cutoff) tables names.

(** The sum of the per-table counts of a migration result. *)
Definition total_rows (moved : list (string * Z)) : Z :=
  foldr (fun p n => p.2 + n) 0 moved.

(** What one pass of the migration loop adds to [tableResults]. *)
Definition reported_one (d : CD.t) (cutoff : Z) (tables : gmap string Server.TableState)
    (table : string) : list (string * Z) :=
  match tables !! CD.hot_table d table, tables !! CD.cold_table d table with
  | Some (Server.Rows hrows), Some (Server.Rows _) =>
      match filter (fun r => Server.column_int (CD.heightColumnName d) r <= cutoff) hrows with
      | [] => []
      | moving => [(table, Z.of_nat (length moving))]
      end
  | _, _ => []
  end.

Fixpoint reported_all (d : CD.t) (cutoff : Z) (names : list string)
    (tables : gmap string Server.TableState) : list (string * Z) :=
  match names with
  | [] => []
  | table :: rest =>
      (reported_one d cutoff tables table
       ++ reported_all d cutoff rest (moved_one d cutoff tables table))%list
  end.


(** The world once the loop of a migration has run and the cutoff is
    recorded, and the world once the hash found for the cutoff block, if
    any, is written to the cold checkpoint. *)
Definition moved_world (d : CD.t) (cutoff : Z) (w : CD.World) : CD.World :=
  CD.on_this (CD.set_lastMigrationHeight cutoff)
    (CD.on_server (Server.set_tables (moved_all d cutoff (CD.migrateableTables d))) w).

Definition checkpointed (cutoff : Z) (found : option string) (w : CD.World) : CD.World :=
  match found with
  | Some (String c rest) =>
      CD.on_server (Server.set_cold_status (fun rows =>
        (rows ++ [Server.mkColdStatusRow (CD.processorId (CD.this w)) cutoff
                    (String c rest)])%list)) w
  | _ => w
  end.

(** The rows of the hot and of the cold table of a managed table. *)
Definition hot_rows (w : CD.World) (table : string) : list Server.Row :=
  rows_at (Server.tables (CD.server w)) (CD.hot_table (CD.this w) table).

Definition cold_rows (w : CD.World) (table : string) : list Server.Row :=
  rows_at (Server.tables (CD.server w)) (CD.cold_table (CD.this w) table).

Definition row_height (w : CD.World) (r : Server.Row) : Z :=
  Server.column_int (CD.heightColumnName (CD.this w)) r.

(** A data table that answers a statement with rows. *)
Definition answers (w : CD.World) (name : string) : Prop :=
  exists rows, Server.tables (CD.server w) !! name = Some (Server.Rows rows).

(** A world at chain tip with rows on both sides of the next cutoff, a
    table outside the two zones, and the cutoff block in the registry. *)
Definition aged_world : CD.World :=
  world_of
    {[ "ethereum_hot_transfers" :=
         Server.Rows [transfer_row 80; transfer_row 95; transfer_row 85; transfer_row 100];
       "ethereum_cold_transfers" := Server.Rows [transfer_row 70];
       "ethereum_transfers" := Server.Rows [transfer_row 60] ]}
    (CD.set_validBlocksManager
       (VBM.mk "default" 10 {[ 90 := "0x90"; 100 := "0xa"; 101 := "0xb"; 102 := "0xc" ]})
       (CD.this tip_world)).

(** What a call of [migrateHotToCold] answers in a world where it
    returns. *)
Definition report_of (w : CD.World) : CD.MigrationResult :=
  match (CD.migrateHotToCold w).1 with
  | Js.Ok result => result
  | Js.Throw _ => CD.no_migration 0
  end.

(** The hash the adapter holds in memory for a height: the hot chain
    first, then the registry. *)
Definition known_hash (d : CD.t) (h : Z) : option string :=
  match List.find (fun b => bool_decide (CD.height b = h)) (CD.hotBlocks d) with
  | Some hotBlock => Some (CD.hash hotBlock)
  | None => VBM.getValidHashes (CD.validBlocksManager d) !! h
  end.

(** One pass of the loop of [getLatestColdBlockHeight] over the answer of
    the server. *)
Definition cold_scan (d : CD.t) (s : Server.t) (maxHeight : Z) (table : string) : Z :=
  match (Server.select_max (CD.cold_table d table) "height" s).1 with
  | Js.Ok (Some h) => if bool_decide (h > maxHeight) then h else maxHeight
  | _ => maxHeight
  end.

(** The cache [initialize] builds from the rows of the registry table. *)
Definition loaded (pid : string) (rows : list Server.ValidBlockRow) : gmap Z string :=
  foldl (fun m r => <[Server.vb_height r := Server.vb_hash r]> m) ∅
        (filter (fun r => Server.vb_processor_id r = pid) rows).

(** The cache is in step with the table: loading it again would change
    nothing. *)
Definition in_sync (e : VBM.Env) : Prop :=
  VBM.validBlocks (VBM.self (VBM.initialize e).2) = VBM.validBlocks (VBM.self e).

(** The rows of the registry table that belong to other processors. *)
Definition rows_of_others (e : VBM.Env) : list Server.ValidBlockRow :=
  filter (fun r => Server.vb_processor_id r <> VBM.processorId (VBM.self e))
         (Server.valid_blocks (VBM.db e)).

(** A registry table shared by two processors, and the manager of one of
    them before it has loaded anything. *)
Definition shared_registry : VBM.Env :=
  VBM.mkEnv (VBM.mk "default" 10 ∅)
    (Server.set_valid_blocks (fun _ =>
       [Server.mkValidBlockRow 95 "0x95" "default";
        Server.mkValidBlockRow 96 "0x96" "other";
        Server.mkValidBlockRow 96 "0x96a" "default";
        Server.mkValidBlockRow 96 "0x96b" "default"]) fresh_server).

(** The state the reconciler hands back at [stale_world]. *)
Definition cold_state : CD.DatabaseState :=
  CD.mkDatabaseState 10000 "0xcold" [] (Some 10000).

(** The data tables once the rows of one group of [byTable] are stored,
    and the entities [byTable] has gathered under one table name. *)
Definition stored_group (tables : gmap string Server.TableState)
    (group : string * list ClickhouseStore.Entity) : gmap string Server.TableState :=
  match tables !! group.1 with
  | Some (Server.Rows rows) =>
      <[group.1 := Server.Rows (rows ++ (CD.serializeEntity <$> group.2))%list]> tables
  | _ => tables
  end.

Definition gather (name : string) (groups : list (string * list ClickhouseStore.Entity))
    : list ClickhouseStore.Entity :=
  concat ((fun g => if decide (g.1 = name) then g.2 else []) <$> groups).

(** The entities of a buffer that go to one table. *)
Definition bound_for (d : CD.t) (name : string) (inserts : list ClickhouseStore.Entity)
    : list ClickhouseStore.Entity :=
  filter (fun entity => CD.getTableName d (ClickhouseStore.className entity) = name) inserts.

(** A buffer with entities of two classes, and a world at catch-up whose
    cold tables for them answer. *)
Definition mixed_store : ClickhouseStore.t :=
  ClickhouseStore.mk
    [ClickhouseStore.mkEntity "Transfer" [("height", Js.Number 7); ("value", Js.BigInt 5)];
     ClickhouseStore.mkEntity "V3Swap" [("height", Js.Number 7)];
     ClickhouseStore.mkEntity "Transfer" [("height", Js.Number 8); ("value", Js.BigInt 6)]]
    [].

Definition catchup_world : CD.World :=
  world_of
    {[ "ethereum_cold_transfers" := Server.Rows [transfer_row 5];
       "ethereum_cold_v3_swaps" := Server.Rows [] ]}
    (CD.constructor default_options ["transfers"; "v3_swaps"]).

(** What a flush must leave alone: the registry table, both checkpoint
    tables and the adapter object. *)
Definition ledger (w : CD.World)
    : list Server.ValidBlockRow * list Server.StatusRow * list Server.ColdStatusRow * CD.t :=
  (Server.valid_blocks (CD.server w), Server.status (CD.server w),
   Server.cold_status (CD.server w), CD.this w).

(** The row [saveStatus] writes for a state, given the adapter. *)
Definition status_row (d : CD.t) (state : CD.DatabaseState) : Server.StatusRow :=
  Server.mkStatusRow (CD.processorId d) (CD.st_height state) (CD.st_hash state)
    (CD.parent_or_empty (CD.top state)) (pairs_text (height_and_hash <$> CD.top state))
    (CD.finalizedHeight d).

(** A callback that stores one entity, one that throws, and a finalized
    batch. *)
Definition failing_callback : Js.M ClickhouseStore.t unit := Js.throw syntax_error.

Definition final_info : CD.FinalTxInfo :=
  CD.mkFinalTxInfo (block 6 "0x6") (block 7 "0x7") false.

(** What the steps of a hot batch before its checkpoint leave alone, the
    hot chain apart: the live checkpoint table, the depth and the
    processor id. *)
Definition books (w : CD.World) : list Server.StatusRow * Z * string :=
  (Server.status (CD.server w), CD.hotBlocksDepth (CD.this w), CD.processorId (CD.this w)).

(** The hot chain cut to the depth, as [transactHot] cuts it. *)
Definition cut_to_depth (depth : Z) (chain : list CD.BlockRef) : list CD.BlockRef :=
  if bool_decide (Z.of_nat (length chain) > depth)
  then Js.slice_from (- depth) chain
  else chain.

(** An entity with a wide integer at top level and one inside an array. *)
Definition nested_entity : ClickhouseStore.Entity :=
  ClickhouseStore.mkEntity "Pair"
    [("reserve", Js.BigInt 9); ("path", Js.Array [Js.BigInt 1])].

(** The adapter once a hot batch has reported finality, and what the
    finality and reorg steps of [transactHot] keep of the hot chain. *)
Definition after_finality (info : CD.HotTxInfo) (d : CD.t) : CD.t :=
  if bool_decide (CD.height (CD.finalizedHead info) > CD.finalizedHeight d)
  then CD.set_hotBlocks (filter (fun b => CD.height b > CD.height (CD.finalizedHead info)))
         (CD.set_finalizedHeight (CD.height (CD.finalizedHead info)) d)
  else d.

Definition kept_chain (info : CD.HotTxInfo) (d : CD.t) : list CD.BlockRef :=
  let d1 := after_finality info d in
  if CD.detectReorg d1 (CD.newBlocks info)
  then filter (fun b => CD.height b <= CD.findCommonAncestor d1 (CD.newBlocks info))
              (CD.hotBlocks d1)
  else CD.hotBlocks d1.

(** The steps of [transactHot] before its checkpoint, by name. *)
Definition finality_step (info : CD.HotTxInfo) (previousFinalizedHeight : Z)
    : Js.M CD.World unit :=
  if bool_decide (CD.height (CD.finalizedHead info) > previousFinalizedHeight) then
    Js.modify (CD.on_this (CD.set_finalizedHeight (CD.height (CD.finalizedHead info)))) ;;;
    Js.modify (CD.on_this (CD.set_hotBlocks
      (filter (fun b => CD.height b > CD.height (CD.finalizedHead info)))))
  else Js.ret tt.

Definition reorg_step (info : CD.HotTxInfo) (reorgDetected : bool) : Js.M CD.World unit :=
  if reorgDetected then
    rollbackHeight <- Js.gets (fun w => CD.findCommonAncestor (CD.this w)
                                          (CD.newBlocks info)) ;;;
    CD.manager (VBM.handleReorg (rollbackHeight + 1)
                  (CD.registryRef <$> CD.newBlocks info)) ;;;
    Js.modify (CD.on_this (CD.set_hotBlocks
      (filter (fun b => CD.height b <= rollbackHeight))))
  else Js.ret tt.

Definition hot_block_step (cb : CD.BlockRef -> Js.M ClickhouseStore.t unit)
    (block : CD.BlockRef) : Js.M CD.World unit :=
  store <- Js.with_local ClickhouseStore.new (cb block) ;;;
  CD.flushStore store ;;;
  known <- Js.gets (fun w =>
    VBM.isValidBlock (CD.validBlocksManager (CD.this w))
      (CD.height block) (CD.hash block)) ;;;
  (if negb known
   then CD.manager (VBM.addBlock (CD.height block) (CD.hash block))
   else Js.ret tt) ;;;
  Js.modify (CD.on_this (CD.set_hotBlocks (fun chain => (chain ++ [block])%list))).

(** A block of the hot chain that the registry holds as valid, and a
    chain whose heights go up by one from [base]. *)
Definition registered (d : CD.t) (b : CD.BlockRef) : Prop :=
  VBM.isValidBlock (CD.validBlocksManager d) (CD.height b) (CD.hash b) = true.

Definition rising (base : Z) (chain : list CD.BlockRef) : Prop :=
  forall i b, chain !! i = Some b -> CD.height b = base + Z.of_nat i.

(** The registry cache holds the first [n] blocks of a rising chain as far
    as they lie in the window of [depth] below the chain's last height. *)
Definition window_ok (base depth : Z) (chain : list CD.BlockRef) (n : nat)
    (cache : gmap Z string) : Prop :=
  forall i b, (i < n)%nat -> chain !! i = Some b ->
    base + Z.of_nat (length chain) - 1 - depth <= CD.height b ->
    cache !! CD.height b = Some (CD.hash b).

(* ===================================================================== *)
(** * MetricsCollector: the counters of [src/utils/metrics.ts]            *)
(* ===================================================================== *)

Module MetricsCollector.

(** The insert metrics and the query metrics are kept by the same code,
    written twice; [avg] holds the sum and the size of the sample window,
    whose quotient the field is. *)
Record Timing : Type := mkTiming {
  total : Z;
  errors : Z;
  lastDuration : Z;
  avgDuration : Z * Z;
  durations : list Z
}.

(** The collector without its wall-clock stamps. *)
Record t : Type := mk {
  connections : Z;
  connectionErrors : Z;
  blocksProcessed : Z;
  blocksFinalized : Z;
  hotBlocksProcessed : Z;
  reorgsDetected : Z;
  reorgsExecuted : Z;
  lastReorgHeight : Z;
  totalBlocksRolledBack : Z;
  inserts : Timing;
  queries : Timing;
  statusUpdates : Z
}.

Definition maxSampleSize : nat := 100.

Definition new : t :=
  mk 0 0 0 0 0 0 0 0 0 (mkTiming 0 0 0 (0, 0) []) (mkTiming 0 0 0 (0, 0) []) 0.

Definition recordConnection (success : bool) (m : t) : t :=
  mk (if success then connections m + 1 else connections m)
     (if success then connectionErrors m else connectionErrors m + 1)
     (blocksProcessed m) (blocksFinalized m) (hotBlocksProcessed m)
     (reorgsDetected m) (reorgsExecuted m) (lastReorgHeight m) (totalBlocksRolledBack m)
     (inserts m) (queries m) (statusUpdates m).

Definition recordBlocksProcessed (count : Z) (isFinalized : bool) (m : t) : t :=
  mk (connections m) (connectionErrors m)
     (blocksProcessed m + count)
     (if isFinalized then blocksFinalized m + count else blocksFinalized m)
     (if isFinalized then hotBlocksProcessed m else hotBlocksProcessed m + count)
     (reorgsDetected m) (reorgsExecuted m) (lastReorgHeight m) (totalBlocksRolledBack m)
     (inserts m) (queries m) (statusUpdates m).

Definition recordBlockProcessed (isFinalized : bool) (m : t) : t :=
  mk (connections m) (connectionErrors m)
     (blocksProcessed m + 1)
     (if isFinalized then blocksFinalized m + 1 else blocksFinalized m)
     (if isFinalized then hotBlocksProcessed m else hotBlocksProcessed m + 1)
     (reorgsDetected m) (reorgsExecuted m) (lastReorgHeight m) (totalBlocksRolledBack m)
     (inserts m) (queries m) (statusUpdates m).

Definition recordReorgDetected (m : t) : t :=
  mk (connections m) (connectionErrors m)
     (blocksProcessed m) (blocksFinalized m) (hotBlocksProcessed m)
     (reorgsDetected m + 1) (reorgsExecuted m) (lastReorgHeight m)
     (totalBlocksRolledBack m) (inserts m) (queries m) (statusUpdates m).

Definition recordReorgExecuted (rollbackHeight blocksAffected : Z) (m : t) : t :=
  mk (connections m) (connectionErrors m)
     (blocksProcessed m) (blocksFinalized m) (hotBlocksProcessed m)
     (reorgsDetected m) (reorgsExecuted m + 1) rollbackHeight
     (totalBlocksRolledBack m + blocksAffected) (inserts m) (queries m) (statusUpdates m).

(** [push] then [shift] when the window has grown beyond its size. *)
Definition push_sample (durationMs : Z) (window : list Z) : list Z :=
  let pushed := (window ++ [durationMs])%list in
  if bool_decide (maxSampleSize < length pushed)%nat then tail pushed else pushed.

Definition record_timing (durationMs : Z) (success : bool) (x : Timing) : Timing :=
  if success then
    let window := push_sample durationMs (durations x) in
    mkTiming (total x + 1) (errors x) durationMs
      (foldl Z.add 0 window, Z.of_nat (length window)) window
  else mkTiming (total x + 1) (errors x + 1) (lastDuration x) (avgDuration x) (durations x).

Definition recordInsert (durationMs : Z) (success : bool) (m : t) : t :=
  mk (connections m) (connectionErrors m)
     (blocksProcessed m) (blocksFinalized m) (hotBlocksProcessed m)
     (reorgsDetected m) (reorgsExecuted m) (lastReorgHeight m) (totalBlocksRolledBack m)
     (record_timing durationMs success (inserts m)) (queries m) (statusUpdates m).

Definition recordQuery (durationMs : Z) (success : bool) (m : t) : t :=
  mk (connections m) (connectionErrors m)
     (blocksProcessed m) (blocksFinalized m) (hotBlocksProcessed m)
     (reorgsDetected m) (reorgsExecuted m) (lastReorgHeight m) (totalBlocksRolledBack m)
     (inserts m) (record_timing durationMs success (queries m)) (statusUpdates m).

Definition recordStatusUpdate (m : t) : t :=
  mk (connections m) (connectionErrors m)
     (blocksProcessed m) (blocksFinalized m) (hotBlocksProcessed m)
     (reorgsDetected m) (reorgsExecuted m) (lastReorgHeight m) (totalBlocksRolledBack m)
     (inserts m) (queries m) (statusUpdates m + 1).

Definition reset (m : t) : t := new.

End MetricsCollector.

Module MC := MetricsCollector.

(** A call of one of the collector's methods, and a run of calls on a
    collector. *)
Inductive MetricsCall : Type :=
| Connection (success : bool)
| BlocksProcessed (count : Z) (isFinalized : bool)
| BlockProcessed (isFinalized : bool)
| ReorgDetected
| ReorgExecuted (rollbackHeight blocksAffected : Z)
| Insert (durationMs : Z) (success : bool)
| Query (durationMs : Z) (success : bool)
| StatusUpdate
| Reset.

Definition call (m : MC.t) (c : MetricsCall) : MC.t :=
  match c with
  | Connection success => MC.recordConnection success m
  | BlocksProcessed count isFinalized => MC.recordBlocksProcessed count isFinalized m
  | BlockProcessed isFinalized => MC.recordBlockProcessed isFinalized m
  | ReorgDetected => MC.recordReorgDetected m
  | ReorgExecuted rollbackHeight blocksAffected =>
      MC.recordReorgExecuted rollbackHeight blocksAffected m
  | Insert durationMs success => MC.recordInsert durationMs success m
  | Query durationMs success => MC.recordQuery durationMs success m
  | StatusUpdate => MC.recordStatusUpdate m
  | Reset => MC.reset m
  end.

Definition run (calls : list MetricsCall) : MC.t := foldl call MC.new calls.

(** The durations of the successful inserts among the calls. *)
Definition successful_inserts (calls : list MetricsCall) : list Z :=
  omap (fun c => match c with Insert d true => Some d | _ => None end) calls.

Definition insert_calls (calls : list MetricsCall) : list bool :=
  omap (fun c => match c with Insert _ ok => Some ok | _ => None end) calls.

(** What the counters and the window of one timing must satisfy. *)
Definition timing_ok (x : MC.Timing) : Prop :=
  (length (MC.durations x) <= MC.maxSampleSize)%nat
  /\ 0 <= MC.errors x
  /\ Z.of_nat (length (MC.durations x)) <= MC.total x - MC.errors x
  /\ (MC.durations x <> [] ->
      MC.avgDuration x = (foldl Z.add 0 (MC.durations x), Z.of_nat (length (MC.durations x)))
      /\ last (MC.durations x) = Some (MC.lastDuration x)).

(** The newest [n] elements of a list. *)
Definition newest {A} (n : nat) (l : list A) : list A := drop (length l - n) l.

(** A burst of 101 successful inserts with durations 1 to 101, one failed
    insert in between. *)
Definition burst : list MetricsCall :=
  ((fun d => Insert d true) <$> seqZ 1 50) ++ [Insert 7 false]
  ++ ((fun d => Insert d true) <$> seqZ 51 51).

(* ===================================================================== *)
(** * Reorg engine: detection and common ancestor                         *)
(* ===================================================================== *)

Section ReorgEngine.

Variable d : CD.t.
Variable newBlocks : list CD.BlockRef.

(** C3. A reorg is declared exactly when the first block of the batch is
    not above the tip of the hot chain; never on an empty chain or an
    empty batch; and a different hash at the tip's own height is caught
    by that same comparison of heights. *)
Theorem detectReorg_height_rule :
  (CD.detectReorg d newBlocks = true <->
     exists tip first,
       last (CD.hotBlocks d) = Some tip /\ head newBlocks = Some first /\
       CD.height first <= CD.height tip)
  /\ (CD.hotBlocks d = [] \/ newBlocks = [] -> CD.detectReorg d newBlocks = false)
  /\ (forall tip first,
        last (CD.hotBlocks d) = Some tip -> head newBlocks = Some first ->
        CD.height first = CD.height tip -> CD.hash first <> CD.hash tip ->
        CD.detectReorg d newBlocks = true).
Proof.
  unfold CD.detectReorg. split; [|split].
  - destruct (last (CD.hotBlocks d)) as [tip|] eqn:Htip;
      destruct (head newBlocks) as [first|] eqn:Hfirst.
    + rewrite bool_decide_eq_true. split.
      * intros Hle. exists tip, first. done.
      * intros (tip' & first' & [= <-] & [= <-] & Hle). done.
    + split; [done|]. intros (? & ? & _ & ? & _). done.
    + split; [done|]. intros (? & ? & ? & _). done.
    + split; [done|]. intros (? & ? & ? & _). done.
  - intros [-> | ->]; simpl; [done|].
    by destruct (last (CD.hotBlocks d)).
  - intros tip first -> -> Heq _. apply bool_decide_eq_true. lia.
Qed.

End ReorgEngine.

Lemma hashToHeight_acc (chain : list CD.BlockRef) (m : gmap string Z) (h : string) :
  is_Some (foldl (fun m block => <[CD.hash block := CD.height block]> m) m chain !! h)
  <-> is_Some (m !! h) \/ exists hb, hb ∈ chain /\ CD.hash hb = h.
Proof.
  revert m. induction chain as [|b chain IH]; intros m; simpl.
  - split; [auto|]. intros [?|(hb & Hin & _)]; [done|]. by apply elem_of_nil in Hin.
  - rewrite IH. split.
    + intros [Hs | (hb & Hin & Hh)].
      * destruct (decide (CD.hash b = h)) as [Heq|Hne].
        -- right. exists b. split; [left|done].
        -- rewrite lookup_insert_ne in Hs by done. by left.
      * right. exists hb. split; [by right|done].
    + intros [Hs | (hb & Hin & Hh)].
      * left. destruct (decide (CD.hash b = h)) as [->|Hne].
        -- rewrite lookup_insert_eq. eauto.
        -- by rewrite lookup_insert_ne.
      * apply elem_of_cons in Hin as [-> | Hin].
        -- left. rewrite <- Hh, lookup_insert_eq. eauto.
        -- right. eauto.
Qed.

Lemma hashToHeight_has (chain : list CD.BlockRef) (h : string) :
  is_Some (CD.hashToHeight chain !! h) <-> exists hb, hb ∈ chain /\ CD.hash hb = h.
Proof.
  unfold CD.hashToHeight. rewrite hashToHeight_acc, lookup_empty.
  split; [|auto]. intros [[? ?]|?]; done.
Qed.

(** The scan of the new list, from any starting height: the answer is the
    start or the height of a matching block, and bounds both. *)
Lemma ancestor_scan (known : gmap string Z) (blocks : list CD.BlockRef) (start : Z) :
  let step := fun (a : Z) (nb : CD.BlockRef) =>
    if bool_decide (is_Some (known !! CD.hash nb)) then Z.max a (CD.height nb) else a in
  let r := foldl step start blocks in
  start <= r
  /\ (forall nb, nb ∈ blocks -> is_Some (known !! CD.hash nb) -> CD.height nb <= r)
  /\ (r = start \/
      exists nb, nb ∈ blocks /\ is_Some (known !! CD.hash nb) /\ CD.height nb = r).
Proof.
  revert start. induction blocks as [|b blocks IH]; intros start; simpl.
  - split; [lia|]. split; [|by left]. intros nb Hin. by apply elem_of_nil in Hin.
  - specialize (IH (if bool_decide (is_Some (known !! CD.hash b))
                    then Z.max start (CD.height b) else start)).
    simpl in IH. destruct IH as (Hge & Hub & Hwit).
    case_bool_decide as Hb.
    + split; [lia|]. split.
      * intros nb Hin Hs. apply elem_of_cons in Hin as [-> | Hin]; [lia|by apply Hub].
      * destruct Hwit as [Hr | (nb & Hin & Hs & Hr)].
        -- destruct (Z.max_spec start (CD.height b)) as [[_ Hm]|[_ Hm]].
           ++ right. exists b. split; [left|]. split; [done|]. lia.
           ++ left. lia.
        -- right. exists nb. split; [by right|done].
    + split; [lia|]. split.
      * intros nb Hin Hs. apply elem_of_cons in Hin as [-> | Hin]; [done|by apply Hub].
      * destruct Hwit as [Hr | (nb & Hin & Hs & Hr)]; [by left|].
        right. exists nb. split; [by right|done].
Qed.

(** C4. [findCommonAncestor] answers the highest height, not below the
    finalized height, at which a block of the new list has the hash of a
    block of the hot chain; when there is none it answers the finalized
    height. Where hashes name blocks, these heights are the heights of
    the blocks that the two sequences have in common, height and hash. *)
Theorem findCommonAncestor_highest_shared (d : CD.t) (newBlocks : list CD.BlockRef) :
  let r := CD.findCommonAncestor d newBlocks in
  CD.finalizedHeight d <= r
  /\ (forall h, shared_height d newBlocks h -> h <= r)
  /\ ((exists h, shared_height d newBlocks h /\ CD.finalizedHeight d <= h) ->
      shared_height d newBlocks r)
  /\ (~ (exists h, shared_height d newBlocks h /\ CD.finalizedHeight d <= h) ->
      r = CD.finalizedHeight d)
  /\ (hashes_name_blocks d newBlocks ->
      forall h, shared_height d newBlocks h <-> common_block d newBlocks h).
Proof.
  intros r.
  assert (Hsame : hashes_name_blocks d newBlocks ->
                  forall h, shared_height d newBlocks h <-> common_block d newBlocks h).
  { intros Hname h. split.
    - intros (nb & Hin & Hh & hb & Hhot & Hhash).
      exists nb. split; [done|]. split; [by exists nb|].
      exists hb. split; [done|]. split; [by apply Hname|done].
    - intros (b & Hh & (nb & Hin & Hnh & Hnhash) & (hb & Hhot & Hhh & Hhhash)).
      exists nb. split; [done|]. split; [congruence|].
      exists hb. split; [done|]. congruence. }
  destruct (ancestor_scan (CD.hashToHeight (CD.hotBlocks d)) newBlocks
              (CD.finalizedHeight d)) as (Hge & Hub & Hwit).
  fold (CD.findCommonAncestor d newBlocks) in Hge, Hub, Hwit. fold r in Hge, Hub, Hwit.
  assert (Hshared : forall h, shared_height d newBlocks h -> h <= r).
  { intros h (nb & Hin & <- & Hhb). apply Hub; [done|]. by apply hashToHeight_has. }
  assert (Hcase : r = CD.finalizedHeight d \/ shared_height d newBlocks r).
  { destruct Hwit as [?|(nb & Hin & Hs & Hr)]; [by left|]. right.
    exists nb. split; [done|]. split; [done|]. by apply hashToHeight_has. }
  split; [done|]. split; [done|]. split; [|split; [|done]].
  - intros (h & Hsh & Hfin). destruct Hcase as [Hr|?]; [|done].
    assert (h = r) as -> by (specialize (Hshared h Hsh); lia). done.
  - intros Hnone. destruct Hcase as [?|Hsh]; [done|].
    exfalso. apply Hnone. exists r. done.
Qed.

(* ===================================================================== *)
(** * Valid-blocks registry                                               *)
(* ===================================================================== *)

(** The cache after [pruneOldBlocks], whichever way the server branch
    goes. *)
Lemma pruneOldBlocks_self (currentHeight : Z) (e : VBM.Env) :
  (VBM.pruneOldBlocks currentHeight e).1 = Js.Ok tt
  /\ VBM.self (VBM.pruneOldBlocks currentHeight e).2 =
     VBM.mk (VBM.processorId (VBM.self e)) (VBM.finalityDepth (VBM.self e))
       (filter (fun kv => ~ kv.1 < currentHeight - VBM.finalityDepth (VBM.self e))
               (VBM.validBlocks (VBM.self e))).
Proof.
  unfold VBM.pruneOldBlocks, Js.bind, Js.gets, Js.modify, Js.ret. simpl.
  case_bool_decide; done.
Qed.

Lemma addBlock_self (h : Z) (hs : string) (e : VBM.Env) :
  (VBM.addBlock h hs e).1 = Js.Ok tt
  /\ VBM.self (VBM.addBlock h hs e).2 =
     VBM.mk (VBM.processorId (VBM.self e)) (VBM.finalityDepth (VBM.self e))
       (filter (fun kv => ~ kv.1 < h - VBM.finalityDepth (VBM.self e))
               (<[h := hs]> (VBM.validBlocks (VBM.self e)))).
Proof.
  unfold VBM.addBlock, Js.bind, Js.gets, Js.modify. simpl.
  match goal with |- context [VBM.pruneOldBlocks ?c ?x] =>
    destruct (pruneOldBlocks_self c x) as [Hr Hs] end.
  rewrite Hs. split; [|done].
  destruct (VBM.pruneOldBlocks _ _) as [[[]|err] e'] eqn:Hp; simpl in *; done.
Qed.

Lemma addBlocks_self (b : VBM.BlockRef) (rest : list VBM.BlockRef) (e : VBM.Env) :
  (VBM.addBlocks (b :: rest) e).1 = Js.Ok tt
  /\ VBM.self (VBM.addBlocks (b :: rest) e).2 =
     VBM.mk (VBM.processorId (VBM.self e)) (VBM.finalityDepth (VBM.self e))
       (filter (fun kv => ~ kv.1 < VBM.max_height (b :: rest)
                                     - VBM.finalityDepth (VBM.self e))
               (foldl (fun m x => <[VBM.height x := VBM.hash x]> m)
                      (VBM.validBlocks (VBM.self e)) (b :: rest))).
Proof.
  unfold VBM.addBlocks, Js.bind, Js.gets, Js.modify.
  cbn [fst snd VBM.set_validBlocks VBM.on_db VBM.self VBM.db VBM.processorId].
  match goal with |- context [VBM.pruneOldBlocks ?c ?x] =>
    destruct (pruneOldBlocks_self c x) as [Hr Hs] end.
  rewrite Hs. split; [|done].
  destruct (VBM.pruneOldBlocks _ _) as [[[]|err] e'] eqn:Hp; simpl in *; done.
Qed.

(** C5, as the claim states it, fails: with depth 10, adding height 100 to
    a registry that holds height 90 keeps 90, which lies below the window
    [[91, 100]]. *)
Lemma addBlock_keeps_height_at_threshold :
  let e' := (VBM.addBlock 100 "0xb" registry_at_90).2 in
  VBM.validBlocks (VBM.self e') !! 90 = Some "0xa"
  /\ ~ (100 - 10 + 1 <= 90 <= 100).
Proof. split; [by vm_compute|lia]. Qed.

(** C5, amended. After [addBlock] or [addBlocks] of a non-empty batch,
    every height left in the registry is at least [maxHeight -
    finalityDepth], for [maxHeight] the height (or the largest height of
    the batch) just added; the entries pruned are exactly those below that
    bound, so the entry at the bound itself and any entry above
    [maxHeight] stay. *)
Theorem registry_lower_bound_after_add (e : VBM.Env) :
  let depth := VBM.finalityDepth (VBM.self e) in
  let cache := VBM.validBlocks (VBM.self e) in
  (forall h hs,
     let after := VBM.validBlocks (VBM.self (VBM.addBlock h hs e).2) in
     (VBM.addBlock h hs e).1 = Js.Ok tt
     /\ (forall k, is_Some (after !! k) -> h - depth <= k)
     /\ (forall k v, after !! k = Some v <->
                     h - depth <= k /\ <[h := hs]> cache !! k = Some v))
  /\ (forall b rest,
     let batch := b :: rest in
     let after := VBM.validBlocks (VBM.self (VBM.addBlocks batch e).2) in
     let added := foldl (fun m x => <[VBM.height x := VBM.hash x]> m) cache batch in
     (VBM.addBlocks batch e).1 = Js.Ok tt
     /\ (forall k, is_Some (after !! k) -> VBM.max_height batch - depth <= k)
     /\ (forall k v, after !! k = Some v <->
                     VBM.max_height batch - depth <= k /\ added !! k = Some v)).
Proof.
  intros depth cache. split.
  - intros h hs after.
    destruct (addBlock_self h hs e) as [Hok Hself].
    subst after. rewrite Hself. simpl. fold depth cache.
    assert (Hchar : forall k v,
      filter (fun kv : Z * string => ~ kv.1 < h - depth) (<[h:=hs]> cache) !! k = Some v
      <-> h - depth <= k /\ <[h:=hs]> cache !! k = Some v).
    { intros k v. rewrite map_lookup_filter_Some. simpl. split; intros [? ?]; split; auto; lia. }
    split; [done|]. split; [|done].
    intros k [v Hv]. apply Hchar in Hv. tauto.
  - intros b rest batch after added.
    destruct (addBlocks_self b rest e) as [Hok Hself].
    subst after batch. rewrite Hself. simpl VBM.validBlocks. fold depth cache added.
    set (batch := b :: rest).
    assert (Hchar : forall k v,
      filter (fun kv : Z * string => ~ kv.1 < VBM.max_height batch - depth) added !! k = Some v
      <-> VBM.max_height batch - depth <= k /\ added !! k = Some v).
    { intros k v. rewrite map_lookup_filter_Some. simpl. split; intros [? ?]; split; auto; lia. }
    split; [done|]. split; [|done].
    intros k [v Hv]. apply Hchar in Hv. tauto.
Qed.

(** The cache after [handleReorg] with a single new block. *)
Lemma handleReorg_single_self (k : Z) (b : VBM.BlockRef) (e : VBM.Env) :
  (VBM.handleReorg k [b] e).1 = Js.Ok tt
  /\ VBM.self (VBM.handleReorg k [b] e).2 =
     VBM.mk (VBM.processorId (VBM.self e)) (VBM.finalityDepth (VBM.self e))
       (filter (fun kv => ~ kv.1 < VBM.height b - VBM.finalityDepth (VBM.self e))
          (<[VBM.height b := VBM.hash b]>
             (filter (fun kv => ~ kv.1 >= k) (VBM.validBlocks (VBM.self e))))).
Proof.
  unfold VBM.handleReorg, Js.bind, Js.gets, Js.modify.
  cbn [fst snd VBM.set_validBlocks VBM.on_db VBM.self VBM.db VBM.processorId].
  match goal with |- context [VBM.addBlocks ?l ?x] =>
    destruct (addBlocks_self b [] x) as [Hr Hs] end.
  rewrite Hs. split; [|done].
  destruct (VBM.addBlocks _ _) as [[[]|err] e'] eqn:Hp; simpl in *; done.
Qed.

(** C6. [handleReorg(k, {b_k})] run twice leaves the manager, and so its
    in-memory registry, as one run leaves it. *)
Theorem handleReorg_idempotent (e : VBM.Env) (k : Z) (hs : string) :
  let b := VBM.mkBlockRef k hs in
  let once := (VBM.handleReorg k [b] e).2 in
  let twice := (VBM.handleReorg k [b] once).2 in
  (VBM.handleReorg k [b] e).1 = Js.Ok tt
  /\ (VBM.handleReorg k [b] once).1 = Js.Ok tt
  /\ VBM.validBlocks (VBM.self twice) = VBM.validBlocks (VBM.self once)
  /\ VBM.self twice = VBM.self once.
Proof.
  intros b once twice.
  destruct (handleReorg_single_self k b e) as [Hok1 Hself1].
  destruct (handleReorg_single_self k b once) as [Hok2 Hself2].
  fold once in Hself1. fold twice in Hself2.
  assert (Hcache : VBM.validBlocks (VBM.self twice) = VBM.validBlocks (VBM.self once)).
  { rewrite Hself2. simpl VBM.validBlocks at 1. rewrite Hself1. simpl.
    set (depth := VBM.finalityDepth (VBM.self e)).
    set (m := VBM.validBlocks (VBM.self e)).
    apply map_eq. intros i. apply option_eq. intros v.
    rewrite !map_lookup_filter_Some, !lookup_insert_Some, !map_lookup_filter_Some.
    simpl. rewrite !lookup_insert_Some, !map_lookup_filter_Some. simpl.
    intuition (subst; try lia; auto). }
  split; [done|]. split; [done|]. split; [done|].
  rewrite Hself2, Hself1 in *. simpl in *. by rewrite Hcache.
Qed.

(* ===================================================================== *)
(** * Checkpoint store: the live checkpoint                               *)
(* ===================================================================== *)

Lemma append_cons (x : ascii) (a b : string) : String x a +:+ b = String x (a +:+ b).
Proof. reflexivity. Qed.

Lemma append_empty_l (a : string) : EmptyString +:+ a = a.
Proof. reflexivity. Qed.

Lemma append_assoc (a b c : string) : (a +:+ b) +:+ c = a +:+ (b +:+ c).
Proof.
  induction a as [|x a IH]; [done|]. by rewrite !append_cons, IH.
Qed.

Lemma append_empty_r (a : string) : a +:+ EmptyString = a.
Proof.
  induction a as [|x a IH]; [done|]. by rewrite append_cons, IH.
Qed.

Lemma serialize_sanitized (b : CD.BlockRef) :
  Js.serialize (CD.sanitize b) = Js.SText (pair_text (height_and_hash b)).
Proof.
  unfold CD.sanitize, pair_text, height_and_hash. simpl.
  f_equal. rewrite append_empty_l, !append_assoc. reflexivity.
Qed.

Lemma array_body_sanitized (chain : list CD.BlockRef) (first : bool) :
  Js.array_body Js.serialize (CD.sanitize <$> chain) first
  = Some (pairs_body (height_and_hash <$> chain) first).
Proof.
  revert first. induction chain as [|b chain IH]; intros first; [done|].
  rewrite !fmap_cons. cbn [Js.array_body pairs_body].
  rewrite serialize_sanitized.
  change ((fix go (l : list Js.Val) (first0 : bool) {struct l} : option string :=
             match l with
             | [] => Some EmptyString
             | x :: rest =>
                 match Js.serialize x with
                 | Js.STypeError => None
                 | Js.SNothing =>
                     (fun r => Js.comma first0 +:+ "null" +:+ r) <$> go rest false
                 | Js.SText t => (fun r => Js.comma first0 +:+ t +:+ r) <$> go rest false
                 end
             end) (CD.sanitize <$> chain) false)
    with (Js.array_body Js.serialize (CD.sanitize <$> chain) false).
  by rewrite IH.
Qed.

Lemma serialize_sanitized_chain (chain : list CD.BlockRef) :
  Js.serialize (Js.Array (CD.sanitize <$> chain))
  = Js.SText (pairs_text (height_and_hash <$> chain)).
Proof.
  cbn [Js.serialize]. by rewrite array_body_sanitized.
Qed.

(** Serializing the producer's own object of such a block is what
    throws. *)
Example stringify_raw_block_throws :
  Js.serialize (Js.Array [raw_object block_with_gas]) = Js.STypeError
  /\ Js.JSON_stringify (S := unit) (Js.Array [raw_object block_with_gas]) tt
     = (Js.Throw Js.bigint_type_error, tt).
Proof. split; reflexivity. Qed.

(** C7. [saveStatus] always succeeds; the [hot_blocks] text it persists is
    the serialization of objects that have exactly the fields [height] and
    [hash], one per block of the chain and in its order. The text is a
    function of the [(height, hash)] pairs alone: nothing a producer
    attached to a block, a wide integer included, reaches the serializer. *)
Theorem saveStatus_persists_height_and_hash_only
    (state : CD.DatabaseState) (w : CD.World) :
  let pairs := height_and_hash <$> CD.top state in
  Forall (fun v => exists h hs,
            v = Js.Object [("height", Js.Number h); ("hash", Js.Str hs)])
         (CD.sanitize <$> CD.top state)
  /\ Js.serialize (Js.Array (CD.sanitize <$> CD.top state)) = Js.SText (pairs_text pairs)
  /\ exists row,
       CD.saveStatus state w
       = (Js.Ok tt,
          CD.on_server (Server.set_status (fun rows => (rows ++ [row])%list)) w)
       /\ Server.sr_hot_blocks row = pairs_text pairs
       /\ Server.sr_height row = CD.st_height state
       /\ Server.sr_hash row = CD.st_hash state.
Proof.
  intros pairs. split; [|split].
  - apply Forall_fmap, Forall_forall. intros b _. simpl. unfold CD.sanitize. eauto.
  - apply serialize_sanitized_chain.
  - unfold CD.saveStatus, Js.JSON_stringify.
    rewrite serialize_sanitized_chain. fold pairs.
    eexists. split; [reflexivity|]. done.
Qed.

(* ===================================================================== *)
(** * Ingest buffer: retry of a chunk insert                              *)
(* ===================================================================== *)

Lemma isRetryable_transient (e : Js.Error) :
  CD.isRetryable e = true <-> transient e.
Proof.
  unfold CD.isRetryable, transient, CD.retryableCodes.
  rewrite orb_true_iff. split.
  - intros [Hc | Hm].
    + destruct (Js.code e) as [c|]; [|done].
      apply bool_decide_eq_true in Hc. rewrite !elem_of_cons, elem_of_nil in Hc.
      destruct Hc as [->|[->|[->|[->|[]]]]]; auto 10.
    + destruct (Js.message e) as [m|]; [|done]. do 4 right. eauto.
  - intros [H | [H | [H | [H | (m & H & Hm)]]]];
      try (left; rewrite H; apply bool_decide_eq_true; set_solver).
    right. by rewrite H.
Qed.

Lemma insertChunk_three_attempts (table : string) (chunk : list Server.Row)
    (w : CD.World) :
  CD.insertChunk table chunk w = three_attempts table chunk w.
Proof.
  unfold CD.insertChunk, three_attempts, attempt_then.
  unfold Js.for_break, Js.try_catch, Js.bind, Js.ret, Js.throw, CD.sleep, Js.modify.
  destruct (CD.client_insert table chunk w) as [[[]|e1] w1]; [done|].
  destruct (CD.isRetryable e1); simpl; [|done].
  destruct (CD.client_insert table chunk (CD.add_slept _ w1)) as [[[]|e2] w2]; [done|].
  destruct (CD.isRetryable e2); simpl; [|done].
  destruct (CD.client_insert table chunk (CD.add_slept _ w2)) as [[[]|e3] w3]; [done|].
  rewrite andb_false_r. done.
Qed.

(** An insert whose transport fails does not reach the server. *)
Lemma client_insert_fails (table : string) (chunk : list Server.Row)
    (e : Js.Error) (rest : list (option Js.Error)) (w : CD.World) :
  CD.wire w = Some e :: rest ->
  CD.client_insert table chunk w = (Js.Throw e, CD.set_wire rest w).
Proof.
  intros Hw. unfold CD.client_insert, Js.bind, Js.gets. rewrite Hw. done.
Qed.

Lemma client_insert_footprint (table : string) (chunk : list Server.Row)
    (w : CD.World) :
  let w' := (CD.client_insert table chunk w).2 in
  CD.slept w' = CD.slept w /\ CD.this w' = CD.this w
  /\ (length (CD.wire w) <= S (length (CD.wire w')))%nat.
Proof.
  unfold CD.client_insert, Js.bind, Js.gets, Js.modify, Js.throw, CD.client, Js.zoom.
  destruct (CD.wire w) as [|[e|] rest] eqn:Hw; simpl.
  - destruct (Server.insert table chunk (CD.server w)) as [r s]. simpl.
    rewrite Hw. repeat split; simpl; lia.
  - repeat split; simpl; lia.
  - destruct (Server.insert table chunk (CD.server w)) as [r s]. simpl.
    repeat split; simpl; lia.
Qed.

Lemma three_attempts_footprint (table : string) (chunk : list Server.Row)
    (w : CD.World) :
  let w' := (three_attempts table chunk w).2 in
  (length (CD.wire w) <= 3 + length (CD.wire w'))%nat
  /\ exists ds, CD.slept w' = (CD.slept w ++ ds)%list
                /\ (ds = [] \/ ds = [500] \/ ds = [500; 1000]).
Proof.
  unfold three_attempts, attempt_then.
  pose proof (client_insert_footprint table chunk w) as F1.
  destruct (CD.client_insert table chunk w) as [[[]|e1] w1]; simpl in F1;
    destruct F1 as (S1 & _ & L1).
  { simpl. split; [lia|]. exists []. rewrite app_nil_r. auto. }
  destruct (CD.isRetryable e1).
  2:{ simpl. split; [lia|]. exists []. rewrite app_nil_r. auto. }
  pose proof (client_insert_footprint table chunk (CD.add_slept 500 w1)) as F2.
  destruct (CD.client_insert table chunk (CD.add_slept 500 w1)) as [[[]|e2] w2];
    simpl in F2; destruct F2 as (S2 & _ & L2); rewrite S1 in S2.
  { simpl. split; [lia|]. exists [500]. auto. }
  destruct (CD.isRetryable e2).
  2:{ simpl. split; [lia|]. exists [500]. auto. }
  pose proof (client_insert_footprint table chunk (CD.add_slept 1000 w2)) as F3.
  destruct (CD.client_insert table chunk (CD.add_slept 1000 w2)) as [r3 w3];
    simpl in F3; destruct F3 as (S3 & _ & L3); rewrite S2 in S3.
  simpl. split; [lia|]. exists [500; 1000]. rewrite S3, <- app_assoc. auto.
Qed.

(** C8. The insert of a chunk is three attempts at most, 500 ms and then
    1000 ms apart, each further attempt made only after a transient
    failure (connection reset, broken pipe, connect timeout, connection
    refused, or a message with "socket hang up"); a failure that is not
    transient is thrown at once, and so is whatever the third attempt
    throws. *)
Theorem insertChunk_retry_policy (table : string) (chunk : list Server.Row)
    (w : CD.World) :
  (forall e, CD.isRetryable e = true <-> transient e)
  /\ CD.insertChunk table chunk w = three_attempts table chunk w
  /\ (let w' := (CD.insertChunk table chunk w).2 in
      (length (CD.wire w) <= 3 + length (CD.wire w'))%nat
      /\ exists ds, CD.slept w' = (CD.slept w ++ ds)%list
                    /\ (ds = [] \/ ds = [500] \/ ds = [500; 1000]))
  /\ (forall w1, CD.client_insert table chunk w = (Js.Ok tt, w1) ->
        CD.insertChunk table chunk w = (Js.Ok tt, w1))
  /\ (forall e rest, CD.wire w = Some e :: rest -> ~ transient e ->
        CD.insertChunk table chunk w = (Js.Throw e, CD.set_wire rest w))
  /\ (forall e1 e2 rest,
        CD.wire w = Some e1 :: Some e2 :: rest -> transient e1 -> ~ transient e2 ->
        CD.insertChunk table chunk w
        = (Js.Throw e2,
           CD.mkWorld (CD.server w) (CD.this w) rest (CD.slept w ++ [500])%list))
  /\ (forall e1 e2 e3 rest,
        CD.wire w = Some e1 :: Some e2 :: Some e3 :: rest ->
        transient e1 -> transient e2 ->
        CD.insertChunk table chunk w
        = (Js.Throw e3,
           CD.mkWorld (CD.server w) (CD.this w) rest (CD.slept w ++ [500; 1000])%list)).
Proof.
  split; [apply isRetryable_transient|].
  split; [apply insertChunk_three_attempts|].
  rewrite insertChunk_three_attempts.
  split; [apply three_attempts_footprint|].
  unfold three_attempts, attempt_then.
  split; [by intros w1 ->|]. split; [|split].
  - intros e rest Hw Hnt.
    rewrite (client_insert_fails _ _ e rest w Hw).
    destruct (CD.isRetryable e) eqn:Hr; [|done].
    by apply isRetryable_transient in Hr.
  - intros e1 e2 rest Hw Ht1 Hnt2.
    rewrite (client_insert_fails _ _ e1 (Some e2 :: rest) w Hw).
    apply isRetryable_transient in Ht1. rewrite Ht1.
    rewrite (client_insert_fails _ _ e2 rest) by done.
    destruct (CD.isRetryable e2) eqn:Hr; [|done].
    by apply isRetryable_transient in Hr.
  - intros e1 e2 e3 rest Hw Ht1 Ht2.
    rewrite (client_insert_fails _ _ e1 (Some e2 :: Some e3 :: rest) w Hw).
    apply isRetryable_transient in Ht1, Ht2. rewrite Ht1.
    rewrite (client_insert_fails _ _ e2 (Some e3 :: rest)) by done.
    rewrite Ht2.
    rewrite (client_insert_fails _ _ e3 rest) by done.
    unfold CD.set_wire, CD.add_slept. simpl. by rewrite <- app_assoc.
Qed.

(* ===================================================================== *)
(** * Frame rules of the effect monad                                     *)
(* ===================================================================== *)

Section Frames.

Context {S X : Type} (view : S -> X).

Lemma preserves_ret {A} (a : A) : preserves view (Js.ret a).
Proof. by intros s. Qed.

Lemma preserves_throw {A} (e : Js.Error) : preserves view (Js.throw (A := A) e).
Proof. by intros s. Qed.

Lemma preserves_answer {A} (r : Js.Result A) : preserves view (Js.answer r).
Proof. by intros s. Qed.

Lemma preserves_gets {A} (f : S -> A) : preserves view (Js.gets f).
Proof. by intros s. Qed.

Lemma preserves_modify (f : S -> S) :
  (forall s, view (f s) = view s) -> preserves view (Js.modify f).
Proof. intros Hf s. apply Hf. Qed.

Lemma preserves_bind {A B} (m : Js.M S A) (k : A -> Js.M S B) :
  preserves view m -> (forall a, preserves view (k a)) ->
  preserves view (Js.bind m k).
Proof.
  intros Hm Hk s. unfold Js.bind. specialize (Hm s).
  destruct (m s) as [[a|e] s']; simpl in *; [|done].
  by rewrite Hk.
Qed.

Lemma preserves_try_catch {A} (m : Js.M S A) (h : Js.Error -> Js.M S A) :
  preserves view m -> (forall e, preserves view (h e)) ->
  preserves view (Js.try_catch m h).
Proof.
  intros Hm Hh s. unfold Js.try_catch. specialize (Hm s).
  destruct (m s) as [[a|e] s']; simpl in *; [done|].
  by rewrite Hh.
Qed.

Lemma preserves_for_of {A} (xs : list A) (body : A -> Js.M S unit) :
  (forall x, preserves view (body x)) -> preserves view (Js.for_of xs body).
Proof.
  intros Hb. induction xs as [|x xs IH]; simpl.
  - apply preserves_ret.
  - apply preserves_bind; [apply Hb|]. intros _. apply IH.
Qed.

Lemma preserves_for_of_acc {A B} (xs : list A) (acc : B)
    (body : B -> A -> Js.M S B) :
  (forall b x, preserves view (body b x)) ->
  preserves view (Js.for_of_acc xs acc body).
Proof.
  intros Hb. revert acc. induction xs as [|x xs IH]; intros acc; simpl.
  - apply preserves_ret.
  - apply preserves_bind; [apply Hb|]. intros acc'. apply IH.
Qed.

Lemma preserves_if {A} (c : bool) (m1 m2 : Js.M S A) :
  preserves view m1 -> preserves view m2 ->
  preserves view (if c then m1 else m2).
Proof. by destruct c. Qed.

End Frames.

Create HintDb frame.
#[local] Hint Resolve preserves_ret preserves_throw preserves_answer preserves_gets
  preserves_bind preserves_try_catch preserves_for_of preserves_for_of_acc
  preserves_if : frame.

(** Statements on a data table read or write the data tables only. *)
Lemma scan_reads (name : string) (s : Server.t) : (Server.scan name s).2 = s.
Proof. unfold Server.scan. by destruct (Server.tables s !! name) as [[?|?]|]. Qed.

Lemma preserves_scan {X} (view : Server.t -> X) (name : string) :
  preserves view (Server.scan name).
Proof. intros s. by rewrite scan_reads. Qed.

#[local] Hint Resolve preserves_scan : frame.

(** A statement sent through the client preserves what it preserves on the
    server, for a view of the world that looks at the server through
    [view] and at the rest directly. *)
Lemma preserves_client {X Y A} (view : Server.t -> X) (rest : CD.World -> Y)
    (m : Js.M Server.t A) :
  (forall f w, rest (CD.on_server f w) = rest w) ->
  preserves view m ->
  preserves (fun w => (view (CD.server w), rest w)) (CD.client m).
Proof.
  intros Hrest Hm w. unfold CD.client, Js.zoom. specialize (Hm (CD.server w)).
  destruct (m (CD.server w)) as [r s']. simpl in *. by rewrite Hm, Hrest.
Qed.

(** A read-only statement sent through the client changes nothing. *)
Lemma client_reads {A} (m : Js.M Server.t A) (w : CD.World) :
  (m (CD.server w)).2 = CD.server w ->
  CD.client m w = ((m (CD.server w)).1, w).
Proof.
  intros Hm. unfold CD.client, Js.zoom.
  destruct (m (CD.server w)) as [r s'] eqn:E. simpl in *. subst s'.
  by destruct w.
Qed.

Lemma select_count_reads (name : string) (s : Server.t) :
  (Server.select_count name s).2 = s.
Proof.
  unfold Server.select_count, Js.bind. pose proof (scan_reads name s) as H.
  by destruct (Server.scan name s) as [[?|?] ?].
Qed.

Lemma select_max_reads (name col : string) (s : Server.t) :
  (Server.select_max name col s).2 = s.
Proof.
  unfold Server.select_max, Js.bind. pose proof (scan_reads name s) as H.
  by destruct (Server.scan name s) as [[?|?] ?].
Qed.

Lemma select_hash_at_reads (name : string) (h : Z) (s : Server.t) :
  (Server.select_hash_at name h s).2 = s.
Proof.
  unfold Server.select_hash_at, Js.bind. pose proof (scan_reads name s) as H.
  by destruct (Server.scan name s) as [[?|?] ?].
Qed.

(* ===================================================================== *)
(** * Migration engine: the veto of [beforeMigration]                     *)
(* ===================================================================== *)

Lemma buildContext_reads (w : CD.World) :
  exists ctx, CD.buildContext w = (Js.Ok ctx, w).
Proof.
  unfold CD.buildContext, Js.bind, Js.gets, Js.ret.
  destruct (CD.migrateableTables (CD.this w)) as [|first rest]; [eauto|].
  unfold Js.try_catch. rewrite client_reads by apply select_count_reads.
  destruct (Server.select_count _ _).1; eauto.
Qed.

(** C9. When [beforeMigration] answers false, [performMigration] returns
    with the whole state as it was: no row is moved and
    [blocksSinceLastMigration] keeps its value. A run that returns after
    anything else than a veto has set the counter to 0; so the counter is
    reset only by runs that were not vetoed. *)
Theorem performMigration_veto_keeps_counter
    (hooks : option CD.MigrationHooks) (w : CD.World) :
  exists context,
    CD.buildContext w = (Js.Ok context, w)
    /\ (forall before,
          hooks ≫= CD.beforeMigration = Some before ->
          before context = Js.Ok false ->
          CD.performMigration hooks w = (Js.Ok tt, w))
    /\ (forall w',
          CD.performMigration hooks w = (Js.Ok tt, w') ->
          (exists before,
             hooks ≫= CD.beforeMigration = Some before
             /\ before context = Js.Ok false /\ w' = w)
          \/ ((hooks ≫= CD.beforeMigration = None
               \/ exists before,
                    hooks ≫= CD.beforeMigration = Some before
                    /\ before context = Js.Ok true)
              /\ CD.blocksSinceLastMigration (CD.this w') = 0)).
Proof.
  destruct (buildContext_reads w) as [context Hctx].
  exists context. split; [done|].
  unfold CD.performMigration, Js.bind. rewrite Hctx. split.
  - intros before -> Hveto.
    change (Js.answer (before context) w) with (before context, w).
    by rewrite Hveto.
  - intros w'. destruct (hooks ≫= CD.beforeMigration) as [before|].
    + change (Js.answer (before context) w) with (before context, w).
      destruct (before context) as [[|]|e] eqn:Hb; simpl.
      * destruct (match hooks ≫= CD.customMigration with
                  | Some custom => custom
                  | None => CD.migrateHotToCold
                  end w) as [[result|e] w1]; [|done].
        destruct (match hooks ≫= CD.afterMigration with
                  | Some after => Js.answer (after result)
                  | None => Js.ret ()
                  end w1) as [[[]|e] w2]; [|done].
        intros [= <-]. right. split; [|done]. right. eauto.
      * intros [= <-]. left. eauto.
      * done.
    + simpl.
      destruct (match hooks ≫= CD.customMigration with
                | Some custom => custom
                | None => CD.migrateHotToCold
                end w) as [[result|e] w1]; [|done].
      destruct (match hooks ≫= CD.afterMigration with
                | Some after => Js.answer (after result)
                | None => Js.ret ()
                end w1) as [[[]|e] w2]; [|done].
      intros [= <-]. right. split; [|done]. by left.
Qed.

(* ===================================================================== *)
(** * Totality rules of the effect monad                                  *)
(* ===================================================================== *)

Section Totality.

Context {S : Type}.

Lemma returns_ret {A} (a : A) : returns (S := S) (Js.ret a).
Proof. intros s. by exists a. Qed.

Lemma returns_gets {A} (f : S -> A) : returns (Js.gets f).
Proof. intros s. by exists (f s). Qed.

Lemma returns_modify (f : S -> S) : returns (Js.modify f).
Proof. intros s. by exists tt. Qed.

Lemma returns_bind {A B} (m : Js.M S A) (k : A -> Js.M S B) :
  returns m -> (forall a, returns (k a)) -> returns (Js.bind m k).
Proof.
  intros Hm Hk s. unfold Js.bind. destruct (Hm s) as [a Ha].
  destruct (m s) as [[a'|e] s']; simpl in Ha; [|done]. apply Hk.
Qed.

Lemma returns_try_catch {A} (m : Js.M S A) (h : Js.Error -> Js.M S A) :
  (forall e, returns (h e)) -> returns (Js.try_catch m h).
Proof.
  intros Hh s. unfold Js.try_catch.
  destruct (m s) as [[a|e] s']; [by exists a|]. apply Hh.
Qed.

Lemma returns_for_of_acc {A B} (xs : list A) (acc : B)
    (body : B -> A -> Js.M S B) :
  (forall b x, returns (body b x)) -> returns (Js.for_of_acc xs acc body).
Proof.
  intros Hb. revert acc. induction xs as [|x xs IH]; intros acc; simpl.
  - apply returns_ret.
  - apply returns_bind; [apply Hb|]. intros acc'. apply IH.
Qed.

Lemma returns_for_of {A} (xs : list A) (body : A -> Js.M S unit) :
  (forall x, returns (body x)) -> returns (Js.for_of xs body).
Proof.
  intros Hb. induction xs as [|x xs IH]; simpl.
  - apply returns_ret.
  - apply returns_bind; [apply Hb|]. intros _. apply IH.
Qed.

Lemma returns_if {A} (c : bool) (m1 m2 : Js.M S A) :
  returns m1 -> returns m2 -> returns (if c then m1 else m2).
Proof. by destruct c. Qed.

End Totality.

Create HintDb total.
#[local] Hint Resolve returns_ret returns_gets returns_modify returns_bind
  returns_try_catch returns_for_of_acc returns_for_of returns_if : total.

(* ===================================================================== *)
(** * Migration engine: the cutoff                                        *)
(* ===================================================================== *)

Lemma foldl_max_spec (x : Z) (rest : list Z) :
  foldl Z.max x rest ∈ x :: rest /\ forall h, h ∈ x :: rest -> h <= foldl Z.max x rest.
Proof.
  revert x. induction rest as [|y rest IH]; intros x; simpl.
  - split; [left|]. intros h Hh. apply list_elem_of_singleton in Hh. lia.
  - destruct (IH (Z.max x y)) as [Hin Hub]. split.
    + apply elem_of_cons in Hin as [Heq | Hin].
      * rewrite Heq. destruct (Z.max_spec x y) as [[_ ->]|[_ ->]].
        -- right. left.
        -- left.
      * right. by right.
    + assert (Hxy : Z.max x y <= foldl Z.max (Z.max x y) rest) by (apply Hub; left).
      intros h Hh. apply elem_of_cons in Hh as [-> | Hh]; [lia|].
      apply elem_of_cons in Hh as [-> | Hh]; [lia|].
      apply Hub. by right.
Qed.

(** The answer of [max] on a column that has a value. *)
Lemma max_of_nonempty (nul : bool) (l : list Z) (m : Z) :
  m ∈ l -> (forall h, h ∈ l -> h <= m) -> Server.max_of nul l = Some m.
Proof.
  intros Hin Hub. destruct l as [|x rest]; [by apply elem_of_nil in Hin|].
  simpl. f_equal. destruct (foldl_max_spec x rest) as [Hin' Hub'].
  specialize (Hub _ Hin'). specialize (Hub' _ Hin). lia.
Qed.

(** The answer of [max] on a column with no positive value. *)
Lemma max_of_nonpositive (nul : bool) (l : list Z) :
  (forall h, h ∈ l -> h <= 0) ->
  Server.max_of nul l = None \/ exists m, Server.max_of nul l = Some m /\ m <= 0.
Proof.
  intros Hub. destruct l as [|x rest]; simpl.
  - destruct nul; [by left|]. right. exists 0. done.
  - right. eexists. split; [done|]. apply Hub, foldl_max_spec.
Qed.

Lemma is_unknown_table_unknown (name : string) :
  CD.is_unknown_table (Server.unknown_table name) = true.
Proof. unfold CD.is_unknown_table. simpl. apply orb_true_r. Qed.

Lemma readMaxHeight_no_table (w : CD.World) :
  CD.migrateableTables (CD.this w) = [] ->
  CD.readMaxHeight w = (Js.Ok (inl (CD.no_migration (-1))), w).
Proof.
  intros Htabs. unfold CD.readMaxHeight, Js.bind, Js.gets, Js.try_catch.
  by rewrite Htabs.
Qed.

Lemma readMaxHeight_missing (w : CD.World) (first : string) (others : list string) :
  CD.migrateableTables (CD.this w) = first :: others ->
  Server.tables (CD.server w) !! CD.hot_table (CD.this w) first = None ->
  CD.readMaxHeight w = (Js.Ok (inl (CD.no_migration (-1))), w).
Proof.
  intros Htabs Hmiss. unfold CD.readMaxHeight, Js.bind, Js.gets, Js.try_catch.
  rewrite Htabs. rewrite client_reads by apply select_max_reads.
  unfold Server.select_max, Js.bind, Server.scan. rewrite Hmiss. simpl.
  by rewrite is_unknown_table_unknown.
Qed.

Lemma readMaxHeight_rows (w : CD.World) (first : string) (others : list string)
    (rows : list Server.Row) :
  CD.migrateableTables (CD.this w) = first :: others ->
  Server.tables (CD.server w) !! CD.hot_table (CD.this w) first = Some (Server.Rows rows) ->
  CD.readMaxHeight w =
  (Js.Ok
     match Server.max_of (Server.null_for_empty (CD.server w))
             (Server.column_int (CD.heightColumnName (CD.this w)) <$> rows) with
     | None => inl (CD.no_migration (-1))
     | Some maxHeight =>
         if bool_decide (maxHeight = 0) || bool_decide (maxHeight <= 0)
         then inl (CD.no_migration (-1))
         else inr maxHeight
     end, w).
Proof.
  intros Htabs Hrows. unfold CD.readMaxHeight, Js.bind, Js.gets, Js.try_catch.
  rewrite Htabs. rewrite client_reads by apply select_max_reads.
  unfold Server.select_max, Js.bind, Server.scan, Js.gets, Js.ret. rewrite Hrows. simpl.
  destruct (Server.max_of _ _) as [m|]; [|done].
  by destruct (bool_decide (m = 0) || bool_decide (m <= 0)).
Qed.

Lemma preserves_this_client {A} (m : Js.M Server.t A) :
  preserves CD.this (CD.client m).
Proof. intros w. unfold CD.client, Js.zoom. by destruct (m (CD.server w)). Qed.

Lemma returns_migrateTable (d : CD.t) (cutoff : Z) (acc : Z * list (string * Z))
    (table : string) :
  returns (CD.migrateTable d cutoff acc table).
Proof.
  unfold CD.migrateTable. auto with total.
Qed.

Lemma returns_hashInTable (name : string) (h : Z) : returns (CD.hashInTable name h).
Proof. unfold CD.hashInTable. auto with total. Qed.

Lemma preserves_this_hashInTable (name : string) (h : Z) :
  preserves CD.this (CD.hashInTable name h).
Proof.
  unfold CD.hashInTable. apply preserves_try_catch; [|auto with frame].
  apply preserves_bind; [apply preserves_this_client|].
  intros [|? ?]; auto with frame.
Qed.

Lemma returns_getBlockHashForHeight (h : Z) : returns (CD.getBlockHashForHeight h).
Proof.
  unfold CD.getBlockHashForHeight. apply returns_bind; [apply returns_gets|]. intros d.
  destruct (List.find _ _); [apply returns_ret|].
  destruct (_ !! h) as [[|c rest]|]; try apply returns_ret;
    (destruct (CD.migrateableTables d); [apply returns_ret|];
     apply returns_bind; [apply returns_hashInTable|];
     intros [found|]; [apply returns_ret|apply returns_hashInTable]).
Qed.

Lemma preserves_this_getBlockHashForHeight (h : Z) :
  preserves CD.this (CD.getBlockHashForHeight h).
Proof.
  unfold CD.getBlockHashForHeight. apply preserves_bind; [apply preserves_gets|]. intros d.
  destruct (List.find _ _); [apply preserves_ret|].
  destruct (_ !! h) as [[|c rest]|]; try apply preserves_ret;
    (destruct (CD.migrateableTables d); [apply preserves_ret|];
     apply preserves_bind; [apply preserves_this_hashInTable|];
     intros [found|]; [apply preserves_ret|apply preserves_this_hashInTable]).
Qed.

Lemma preserves_this_migrateTable (d : CD.t) (cutoff : Z)
    (acc : Z * list (string * Z)) (table : string) :
  preserves CD.this (CD.migrateTable d cutoff acc table).
Proof.
  unfold CD.migrateTable. apply preserves_try_catch.
  - apply preserves_bind; [apply preserves_this_client|]. intros n.
    destruct (bool_decide (n = 0)); [apply preserves_ret|].
    apply preserves_bind; [apply preserves_this_client|]. intros _.
    apply preserves_bind; [apply preserves_this_client|]. intros _.
    apply preserves_ret.
  - intros e. destruct (CD.is_unknown_table e); apply preserves_ret.
Qed.

(** Past the two early exits the migration runs to its end: it returns
    with the cutoff it was given and records it. *)
Lemma migrateUpTo_runs (d : CD.t) (cutoff : Z) (w : CD.World) :
  exists result w',
    CD.migrateUpTo d cutoff w = (Js.Ok result, w')
    /\ CD.cutoffHeight result = cutoff
    /\ CD.lastMigrationHeight (CD.this w') = cutoff.
Proof.
  unfold CD.migrateUpTo. unfold Js.bind at 1.
  pose proof (returns_for_of_acc (CD.migrateableTables d) (0, [])
                (CD.migrateTable d cutoff) (returns_migrateTable d cutoff) w)
    as [totals Htot].
  destruct (Js.for_of_acc _ _ _ w) as [[totals'|e] w1]; simpl in Htot; [|done].
  unfold Js.bind at 1, Js.modify at 1. unfold Js.bind at 1.
  set (w2 := CD.on_this (CD.set_lastMigrationHeight cutoff) w1).
  pose proof (returns_getBlockHashForHeight cutoff w2) as [found Hfound].
  pose proof (preserves_this_getBlockHashForHeight cutoff w2) as Hthis3.
  destruct (CD.getBlockHashForHeight cutoff w2) as [[found'|e] w3];
    simpl in Hfound, Hthis3; [|done].
  unfold Js.bind at 1.
  destruct found' as [[|c rest]|]; simpl.
  - exists (CD.mkMigrationResult totals'.1 cutoff totals'.2), w3.
    split; [done|]. split; [done|]. by rewrite Hthis3.
  - eexists _, _. split; [reflexivity|]. split; [done|]. simpl. by rewrite Hthis3.
  - exists (CD.mkMigrationResult totals'.1 cutoff totals'.2), w3.
    split; [done|]. split; [done|]. by rewrite Hthis3.
Qed.

(** [migrateHotToCold] at chain tip, by what step 1 yields. *)
Lemma migrateHotToCold_at_tip (w : CD.World) :
  CD.isAtChainTip (CD.this w) = true ->
  CD.migrateHotToCold w =
  match CD.readMaxHeight w with
  | (Js.Ok (inl result), w1) => (Js.Ok result, w1)
  | (Js.Ok (inr maxHeight), w1) =>
      let cutoffHeight := maxHeight - CD.hotBlocksDepth (CD.this w) in
      if bool_decide (cutoffHeight <= CD.lastMigrationHeight (CD.this w))
      then (Js.Ok (CD.no_migration cutoffHeight), w1)
      else CD.migrateUpTo (CD.this w) cutoffHeight w1
  | (Js.Throw e, w1) => (Js.Throw e, w1)
  end.
Proof.
  intros Htip. unfold CD.migrateHotToCold, Js.bind, Js.gets. rewrite Htip. cbn [negb].
  destruct (CD.readMaxHeight w) as [[[result|maxHeight]|e] w1]; try done.
  simpl. by case_bool_decide.
Qed.

(** C2, as the claim states it, fails: a representative hot table that is
    neither missing nor empty, but whose largest height is 0, makes the
    call a no-op with cutoff [-1], not [0 - hotBlocksDepth]. *)
Lemma migration_of_genesis_rows_is_noop :
  CD.isAtChainTip (CD.this genesis_world) = true
  /\ Server.tables (CD.server genesis_world) !! "ethereum_hot_transfers"
     = Some (Server.Rows [[("height", Js.Number 0)]])
  /\ CD.migrateHotToCold genesis_world = (Js.Ok (CD.no_migration (-1)), genesis_world)
  /\ CD.cutoffHeight (CD.no_migration (-1))
     <> 0 - CD.hotBlocksDepth (CD.this genesis_world).
Proof. repeat split; by vm_compute. Qed.

(** C2, amended. At chain tip: when no table was discovered, when the
    representative hot table is missing, or when it answers with no
    positive height (an empty table among these), the call changes
    nothing and returns [{migrated: 0, cutoff: -1}]. When the largest
    height of its height column is positive, the cutoff is that height
    minus [hotBlocksDepth]; a cutoff not above [lastMigrationHeight]
    changes nothing and migrates nothing, any other cutoff is the one the
    call returns and records. *)
Theorem migrateHotToCold_cutoff (w : CD.World) :
  CD.isAtChainTip (CD.this w) = true ->
  let d := CD.this w in
  let noop := (Js.Ok (CD.no_migration (-1)), w) in
  (CD.migrateableTables d = [] -> CD.migrateHotToCold w = noop)
  /\ forall first others,
       CD.migrateableTables d = first :: others ->
       let representative := CD.hot_table d first in
       (Server.tables (CD.server w) !! representative = None ->
        CD.migrateHotToCold w = noop)
       /\ forall rows,
            Server.tables (CD.server w) !! representative = Some (Server.Rows rows) ->
            let heights := Server.column_int (CD.heightColumnName d) <$> rows in
            ((forall h, h ∈ heights -> h <= 0) -> CD.migrateHotToCold w = noop)
            /\ forall maxHeight,
                 maxHeight ∈ heights -> (forall h, h ∈ heights -> h <= maxHeight) ->
                 0 < maxHeight ->
                 let cutoff := maxHeight - CD.hotBlocksDepth d in
                 (cutoff <= CD.lastMigrationHeight d ->
                  CD.migrateHotToCold w = (Js.Ok (CD.no_migration cutoff), w))
                 /\ (CD.lastMigrationHeight d < cutoff ->
                     exists result w',
                       CD.migrateHotToCold w = (Js.Ok result, w')
                       /\ CD.cutoffHeight result = cutoff
                       /\ CD.lastMigrationHeight (CD.this w') = cutoff).
Proof.
  intros Htip d noop. rewrite (migrateHotToCold_at_tip w Htip). split.
  - intros Hnone. by rewrite readMaxHeight_no_table.
  - intros first others Htabs representative. split.
    + intros Hmiss. by rewrite (readMaxHeight_missing w first others).
    + intros rows Hrows heights.
      rewrite (readMaxHeight_rows w first others rows Htabs Hrows).
      fold d heights. split.
      * intros Hnonpos.
        destruct (max_of_nonpositive (Server.null_for_empty (CD.server w)) heights Hnonpos)
          as [-> | (m & -> & Hm)]; [done|].
        replace (bool_decide (m = 0) || bool_decide (m <= 0)) with true; [done|].
        symmetry. apply orb_true_iff. right. by apply bool_decide_eq_true.
      * intros maxHeight Hin Hub Hpos cutoff.
        rewrite (max_of_nonempty _ heights maxHeight Hin Hub).
        rewrite !bool_decide_eq_false_2 by lia. simpl. fold cutoff. split.
        -- intros Hle. by rewrite bool_decide_eq_true_2.
        -- intros Hlt. rewrite bool_decide_eq_false_2 by lia.
           apply migrateUpTo_runs.
Qed.

(* ===================================================================== *)
(** * Stale-restart reconciler                                            *)
(* ===================================================================== *)

Lemma getLatestColdBlockHeight_reads (w : CD.World) :
  exists h, CD.getLatestColdBlockHeight w = (Js.Ok h, w).
Proof.
  unfold CD.getLatestColdBlockHeight, Js.bind at 1, Js.gets.
  generalize (-1). generalize (CD.this w) at 2 as d. intros d.
  induction (CD.migrateableTables (CD.this w)) as [|table tables IH]; intros acc; simpl.
  - by exists acc.
  - unfold Js.bind at 1, Js.try_catch, Js.bind at 1.
    rewrite client_reads by apply select_max_reads.
    destruct (Server.select_max _ _ _).1 as [[h|]|e]; simpl; apply IH.
Qed.

Lemma resolveCold_reads (w : CD.World) :
  exists coldHeight coldHash, CD.resolveCold w = (Js.Ok (coldHeight, coldHash), w).
Proof.
  unfold CD.resolveCold, Js.bind at 1, CD.getColdStatus, Js.bind, Js.gets.
  destruct (Server.latest _ _ _) as [row|]; simpl; [eauto|].
  destruct (getLatestColdBlockHeight_reads w) as [h ->]. eauto.
Qed.

Lemma emptied_one_spec (name n : string) (tables : gmap string Server.TableState) :
  emptied_one name tables !! n =
  match tables !! n with
  | Some (Server.Rows (_ :: _)) =>
      if bool_decide (n = name) then Some (Server.Rows []) else tables !! n
  | other => other
  end.
Proof.
  unfold emptied_one. destruct (decide (n = name)) as [->|Hne].
  - rewrite bool_decide_eq_true_2 by done.
    destruct (tables !! name) as [[[|r rs]|e]|] eqn:E; rewrite ?E; try done.
    by rewrite lookup_insert_eq.
  - rewrite bool_decide_eq_false_2 by done.
    destruct (tables !! name) as [[[|r rs]|e]|] eqn:E;
      try (by destruct (tables !! n) as [[[|? ?]|?]|]).
    rewrite lookup_insert_ne by done.
    by destruct (tables !! n) as [[[|? ?]|?]|].
Qed.

(** What the registry of truncations leaves: a table that answered with
    rows and is in the list is empty, and every other table is as it
    was. *)
Lemma emptied_spec (names : list string) (tables : gmap string Server.TableState)
    (n : string) :
  emptied names tables !! n =
  match tables !! n with
  | Some (Server.Rows rows) =>
      if bool_decide (n ∈ names) then Some (Server.Rows []) else Some (Server.Rows rows)
  | other => other
  end.
Proof.
  unfold emptied. revert tables. induction names as [|name names IH]; intros tables; simpl.
  - by destruct (tables !! n) as [[?|?]|].
  - rewrite IH, emptied_one_spec.
    destruct (tables !! n) as [[[|r rs]|e]|] eqn:E; try done.
    + by destruct (bool_decide (n ∈ names)), (bool_decide (n ∈ name :: names)).
    + destruct (decide (n = name)) as [->|Hne].
      * rewrite bool_decide_eq_true_2 by done.
        rewrite (bool_decide_eq_true_2 (name ∈ name :: names)) by left.
        by destruct (bool_decide (name ∈ names)).
      * rewrite bool_decide_eq_false_2 by done.
        destruct (decide (n ∈ names)) as [Hin|Hnin].
        -- rewrite !bool_decide_eq_true_2; [done|by right|done].
        -- rewrite !bool_decide_eq_false_2; [done| |done].
           intros Hin. apply elem_of_cons in Hin as [?|?]; done.
Qed.

Lemma clearHotTable_effect (d : CD.t) (table : string) (w : CD.World) :
  CD.clearHotTable d table w =
  (Js.Ok tt, CD.on_server (Server.set_tables (emptied_one (CD.hot_table d table))) w).
Proof.
  destruct w as [[tb vb st cs nf] d0 wi sl].
  unfold CD.clearHotTable, Js.try_catch, Js.bind, CD.client, Js.zoom,
    Server.select_count, Server.truncate, Server.scan, Server.store,
    Js.bind, Js.ret, Js.modify, CD.on_server, Server.set_tables, emptied_one.
  simpl.
  destruct (tb !! CD.hot_table d table) as [[[|r rs]|e]|] eqn:E; simpl; rewrite ?E; simpl;
    try done.
  - by destruct (CD.is_unknown_table e).
  - by rewrite is_unknown_table_unknown.
Qed.

Lemma clearAllHotTables_effect (w : CD.World) :
  CD.clearAllHotTables w =
  (Js.Ok tt,
   CD.on_server
     (Server.set_tables
        (emptied (CD.hot_table (CD.this w) <$> CD.migrateableTables (CD.this w)))) w).
Proof.
  unfold CD.clearAllHotTables, Js.bind at 1, Js.gets.
  generalize (CD.this w) at 2 3 as d. intros d.
  generalize (CD.migrateableTables (CD.this w)) as names. intros names.
  revert w. induction names as [|name names IH]; intros w; simpl.
  - by destruct w as [[tb vb st cs nf] d0 wi sl].
  - unfold Js.bind at 1. rewrite clearHotTable_effect, IH.
    by destruct w as [[tb vb st cs nf] d0 wi sl].
Qed.

Lemma manager_clear_effect (w : CD.World) :
  CD.manager VBM.clear w =
  (Js.Ok tt,
   CD.mkWorld
     (Server.set_valid_blocks
        (filter (fun r => ~ Server.vb_processor_id r
                            = VBM.processorId (CD.validBlocksManager (CD.this w))))
        (CD.server w))
     (CD.set_validBlocksManager
        (VBM.mk (VBM.processorId (CD.validBlocksManager (CD.this w)))
                (VBM.finalityDepth (CD.validBlocksManager (CD.this w))) ∅)
        (CD.this w))
     (CD.wire w) (CD.slept w)).
Proof. reflexivity. Qed.

Lemma saveStatus_rollback (coldHeight : Z) (coldHash : string) (w : CD.World) :
  CD.saveStatus (CD.mkDatabaseState coldHeight coldHash [] (Some coldHeight)) w =
  (Js.Ok tt,
   CD.on_server (Server.set_status (fun rows =>
     (rows ++ [Server.mkStatusRow (CD.processorId (CD.this w)) coldHeight coldHash
                 EmptyString "[]" (CD.finalizedHeight (CD.this w))])%list)) w).
Proof. reflexivity. Qed.

Lemma stale_test (state : CD.DatabaseState) (coldHeight : Z) :
  negb (bool_decide (0 < length (CD.top state))%nat)
  && negb (bool_decide (CD.st_height state > coldHeight) && bool_decide (coldHeight >= 0))
  = true
  <-> ~ stale state coldHeight.
Proof.
  unfold stale. rewrite andb_true_iff, !negb_true_iff, andb_false_iff,
    !bool_decide_eq_false.
  destruct (CD.top state) as [|b chain]; simpl; split.
  - intros [_ H] [?|[? ?]]; [done|]. destruct H; done.
  - intros H. split; [lia|].
    destruct (decide (CD.st_height state > coldHeight)); [|by left].
    destruct (decide (coldHeight >= 0)); [|by right].
    exfalso. apply H. by right.
  - intros [H _]. exfalso. apply H. lia.
  - intros H. exfalso. apply H. by left.
Qed.

(** C1, as the claim states it, fails: after a catch-up only run nothing is
    hot and no cold data is found ([cold.height = -1]); the live height
    9999 is above it, and yet the reconciler leaves everything as it is. *)
Lemma restart_after_catchup_is_left_alone :
  CD.resolveCold world_after_catchup = (Js.Ok (-1, EmptyString), world_after_catchup)
  /\ CD.detectAndRollbackStaleHotBlocks state_after_catchup world_after_catchup
     = (Js.Ok None, world_after_catchup)
  /\ ~ (CD.top state_after_catchup = [] /\ CD.st_height state_after_catchup <= -1).
Proof.
  split; [by vm_compute|]. split; [by vm_compute|].
  intros [_ H]. simpl in H. lia.
Qed.

Lemma detectAndRollback_cases (state : CD.DatabaseState) (w : CD.World)
    (coldHeight : Z) (coldHash : string) :
  CD.resolveCold w = (Js.Ok (coldHeight, coldHash), w) ->
  CD.detectAndRollbackStaleHotBlocks state w =
  if negb (bool_decide (0 < length (CD.top state))%nat)
     && negb (bool_decide (CD.st_height state > coldHeight)
              && bool_decide (coldHeight >= 0))
  then (Js.Ok None, w)
  else (Js.Ok (Some (CD.mkDatabaseState coldHeight coldHash [] (Some coldHeight))),
        rolled_back coldHeight coldHash w).
Proof.
  intros Hcold. unfold CD.detectAndRollbackStaleHotBlocks, Js.bind at 1.
  rewrite Hcold. destruct (negb _ && negb _); [done|].
  unfold rolled_back, Js.bind.
  rewrite manager_clear_effect. cbn [fst snd].
  rewrite clearAllHotTables_effect. cbn [fst snd].
  rewrite saveStatus_rollback. reflexivity.
Qed.

(** C1, amended. With [cold] the cold checkpoint (or, when there is none,
    the largest height found in the cold tables with an empty hash): the
    reconciler leaves all state unchanged exactly when no hot block was
    left and the live height is not above the cold height or the cold
    height is negative. In every other case it empties the registry, in
    memory and on the server for this processor, leaves empty every hot
    table of a hot-supported table that answers with rows, appends a live
    checkpoint with [cold.height], [cold.hash] and an empty [hot_blocks],
    and returns [{height: cold.height, hash: cold.hash, top: [],
    finalizedHeight: cold.height}]. *)
Theorem reconciler_rolls_back_to_cold (state : CD.DatabaseState) (w : CD.World) :
  exists coldHeight coldHash,
    CD.resolveCold w = (Js.Ok (coldHeight, coldHash), w)
    /\ (~ stale state coldHeight ->
        CD.detectAndRollbackStaleHotBlocks state w = (Js.Ok None, w))
    /\ (stale state coldHeight ->
        exists w',
          CD.detectAndRollbackStaleHotBlocks state w
          = (Js.Ok (Some (CD.mkDatabaseState coldHeight coldHash [] (Some coldHeight))), w')
          /\ VBM.validBlocks (CD.validBlocksManager (CD.this w')) = ∅
          /\ (forall r, r ∈ Server.valid_blocks (CD.server w') ->
                Server.vb_processor_id r
                <> VBM.processorId (CD.validBlocksManager (CD.this w)))
          /\ (forall table rows,
                table ∈ CD.migrateableTables (CD.this w) ->
                Server.tables (CD.server w) !! CD.hot_table (CD.this w) table
                = Some (Server.Rows rows) ->
                Server.tables (CD.server w') !! CD.hot_table (CD.this w) table
                = Some (Server.Rows []))
          /\ exists row,
               Server.status (CD.server w') = (Server.status (CD.server w) ++ [row])%list
               /\ Server.sr_id row = CD.processorId (CD.this w)
               /\ Server.sr_height row = coldHeight
               /\ Server.sr_hash row = coldHash
               /\ Server.sr_hot_blocks row = "[]")
    /\ ((CD.detectAndRollbackStaleHotBlocks state w).2 = w <-> ~ stale state coldHeight).
Proof.
  destruct (resolveCold_reads w) as (coldHeight & coldHash & Hcold).
  exists coldHeight, coldHash. split; [done|].
  rewrite (detectAndRollback_cases state w coldHeight coldHash Hcold).
  pose proof (stale_test state coldHeight) as Htest.
  destruct (negb _ && negb _) eqn:Hb.
  - assert (Hfresh : ~ stale state coldHeight) by (by apply Htest).
    split; [done|]. split; [done|]. done.
  - assert (Hstale : stale state coldHeight).
    { destruct (decide (stale state coldHeight)) as [?|Hn]; [done|].
      apply Htest in Hn. done. }
    split; [done|].
    unfold rolled_back.
    rewrite manager_clear_effect. cbn [fst snd].
    rewrite clearAllHotTables_effect. cbn [fst snd].
    rewrite saveStatus_rollback. cbn [fst snd]. split.
    + intros _. eexists. split; [reflexivity|]. simpl. split; [done|]. split; [|split].
      * intros r Hr. apply list_elem_of_filter in Hr. tauto.
      * intros table rows Hin Hrows. rewrite emptied_spec, Hrows.
        rewrite bool_decide_eq_true_2; [done|].
        apply list_elem_of_fmap. eauto.
      * eexists. split; [reflexivity|]. done.
    + split; [|done]. intros Heq. exfalso.
      apply (f_equal (fun x => length (Server.status (CD.server x)))) in Heq.
      simpl in Heq. rewrite length_app in Heq. simpl in Heq. lia.
Qed.

(* ===================================================================== *)
(** * Ingest coordinator: a hot batch with no block                       *)
(* ===================================================================== *)

Lemma preserves_store {X} (view : Server.t -> X) (name : string) (rs : list Server.Row) :
  (forall f s, view (Server.set_tables f s) = view s) ->
  preserves view (Server.store name rs).
Proof. intros Hv s. apply Hv. Qed.

Lemma preserves_live_client {A} (m : Js.M Server.t A) :
  preserves checkpoint_and_registry m -> preserves live_view (CD.client m).
Proof.
  intros Hm w. unfold CD.client, Js.zoom. specialize (Hm (CD.server w)).
  destruct (m (CD.server w)) as [r s']. unfold live_view, checkpoint_and_registry in *.
  simpl in *. by injection Hm as -> ->.
Qed.

Lemma preserves_insert (name : string) (rows : list Server.Row) :
  preserves checkpoint_and_registry (Server.insert name rows).
Proof.
  unfold Server.insert. auto using preserves_store with frame.
Qed.

Lemma preserves_live_migrateTable (d : CD.t) (cutoff : Z)
    (acc : Z * list (string * Z)) (table : string) :
  preserves live_view (CD.migrateTable d cutoff acc table).
Proof.
  unfold CD.migrateTable. apply preserves_try_catch.
  - apply preserves_bind.
    { apply preserves_live_client. unfold Server.select_count_le.
      apply preserves_bind; [apply preserves_scan|]. intros; apply preserves_ret. }
    intros n. destruct (bool_decide (n = 0)); [apply preserves_ret|].
    apply preserves_bind.
    { apply preserves_live_client. unfold Server.insert_select_le.
      apply preserves_bind; [apply preserves_scan|]. intros; apply preserves_insert. }
    intros _. apply preserves_bind; [|intros; apply preserves_ret].
    apply preserves_live_client. unfold Server.delete_le.
    apply preserves_bind; [apply preserves_scan|]. intros. by apply preserves_store.
  - intros e. destruct (CD.is_unknown_table e); apply preserves_ret.
Qed.

Lemma preserves_live_read {A} (m : Js.M Server.t A) :
  (forall s, (m s).2 = s) -> preserves live_view (CD.client m).
Proof. intros Hm w. by rewrite client_reads. Qed.

Lemma preserves_live_hashInTable (name : string) (h : Z) :
  preserves live_view (CD.hashInTable name h).
Proof.
  unfold CD.hashInTable. apply preserves_try_catch; [|intros; apply preserves_ret].
  apply preserves_bind.
  - apply preserves_live_read. intros ?. apply select_hash_at_reads.
  - intros [|? ?]; apply preserves_ret.
Qed.

Lemma preserves_live_getBlockHashForHeight (h : Z) :
  preserves live_view (CD.getBlockHashForHeight h).
Proof.
  unfold CD.getBlockHashForHeight. apply preserves_bind; [apply preserves_gets|]. intros d.
  destruct (List.find _ _); [apply preserves_ret|].
  destruct (_ !! h) as [[|c rest]|]; try apply preserves_ret;
    (destruct (CD.migrateableTables d); [apply preserves_ret|];
     apply preserves_bind; [apply preserves_live_hashInTable|];
     intros [found|]; [apply preserves_ret|apply preserves_live_hashInTable]).
Qed.

Lemma preserves_live_readMaxHeight : preserves live_view CD.readMaxHeight.
Proof.
  unfold CD.readMaxHeight. apply preserves_bind; [apply preserves_gets|]. intros d.
  apply preserves_try_catch.
  - destruct (CD.migrateableTables d); [apply preserves_ret|].
    apply preserves_bind.
    + apply preserves_live_read. intros ?. apply select_max_reads.
    + intros [m|]; [|apply preserves_ret].
      destruct (_ || _); apply preserves_ret.
  - intros e. destruct (CD.is_unknown_table e); [apply preserves_ret|apply preserves_throw].
Qed.

Lemma preserves_live_migrateUpTo (d : CD.t) (cutoff : Z) :
  preserves live_view (CD.migrateUpTo d cutoff).
Proof.
  unfold CD.migrateUpTo.
  apply preserves_bind.
  { apply preserves_for_of_acc. intros. apply preserves_live_migrateTable. }
  intros totals. apply preserves_bind; [by apply preserves_modify|]. intros _.
  apply preserves_bind; [apply preserves_live_getBlockHashForHeight|].
  intros found. apply preserves_bind; [|intros; apply preserves_ret].
  destruct found as [[|c rest]|]; try apply preserves_ret.
  unfold CD.updateColdStatus. apply preserves_bind; [apply preserves_gets|].
  intros pid. by apply preserves_modify.
Qed.

(** The migration engine writes the data tables, the cold checkpoint and
    [lastMigrationHeight], nothing else. *)
Lemma preserves_live_migrateHotToCold : preserves live_view CD.migrateHotToCold.
Proof.
  unfold CD.migrateHotToCold. apply preserves_bind; [apply preserves_gets|]. intros d.
  destruct (negb (CD.isAtChainTip d)); [apply preserves_ret|].
  apply preserves_bind; [apply preserves_live_readMaxHeight|].
  intros [result|maxHeight]; [apply preserves_ret|].
  simpl. case_bool_decide; [apply preserves_ret|apply preserves_live_migrateUpTo].
Qed.

Section EmptyHotBatch.

Variable hooks : option CD.MigrationHooks.

(** The user's own migration, when there is one, is assumed to leave the
    live checkpoint, the registry and the hot chain alone. *)
Hypothesis custom_frame :
  forall custom, hooks ≫= CD.customMigration = Some custom ->
                 preserves live_view custom.

Lemma preserves_live_performMigration :
  preserves live_view (CD.performMigration hooks).
Proof using custom_frame.
  unfold CD.performMigration. apply preserves_bind.
  { intros w. destruct (buildContext_reads w) as [ctx ->]. done. }
  intros context. apply preserves_bind.
  { destruct (hooks ≫= CD.beforeMigration); [apply preserves_answer|apply preserves_ret]. }
  intros shouldContinue. destruct (negb shouldContinue); [apply preserves_ret|].
  apply preserves_bind.
  { destruct (hooks ≫= CD.customMigration) as [custom|] eqn:Hc.
    - by apply custom_frame.
    - apply preserves_live_migrateHotToCold. }
  intros result. apply preserves_bind.
  { destruct (hooks ≫= CD.afterMigration); [apply preserves_answer|apply preserves_ret]. }
  intros _. by apply preserves_modify.
Qed.

Lemma preserves_live_autoMigration (previous : Z) (blocks : list CD.BlockRef) :
  preserves live_view (CD.autoMigration hooks previous blocks).
Proof using custom_frame.
  unfold CD.autoMigration. apply preserves_bind; [apply preserves_gets|]. intros d.
  destruct (CD.autoMigrate d && CD.isAtChainTip d); [|apply preserves_ret].
  apply preserves_bind; [by apply preserves_modify|]. intros _.
  apply preserves_bind; [apply preserves_gets|]. intros d'.
  simpl. destruct (if CD.migrationOnFinality d' then _ else _);
    [apply preserves_live_performMigration|apply preserves_ret].
Qed.

Lemma transactHot_no_block (info : CD.HotTxInfo)
    (cb : CD.BlockRef -> Js.M ClickhouseStore.t unit) (w : CD.World) :
  CD.newBlocks info = [] ->
  CD.transactHot hooks info cb w =
  CD.autoMigration hooks (CD.finalizedHeight (CD.this w)) []
    (CD.on_this (settled info) w).
Proof.
  intros Hnone. unfold CD.transactHot. rewrite Hnone.
  unfold Js.bind at 1, Js.gets at 1. unfold Js.bind at 1.
  assert (Hno : forall d, CD.detectReorg d [] = false).
  { intros d. unfold CD.detectReorg. by destruct (last (CD.hotBlocks d)). }
  destruct w as [srv d wi sl]. unfold settled, CD.on_this.
  cbn [CD.this CD.server CD.wire CD.slept].
  unfold Js.bind, Js.modify, Js.gets, Js.for_of, Js.ret.
  cbn [CD.this CD.server CD.wire CD.slept CD.on_this fst snd].
  destruct (bool_decide (CD.height (CD.finalizedHead info) > CD.finalizedHeight d));
    cbn [CD.this CD.server CD.wire CD.slept]; rewrite Hno; reflexivity.
Qed.

Lemma settled_hotBlocks (info : CD.HotTxInfo) (d : CD.t) :
  CD.hotBlocks (settled info d) `sublist_of` CD.hotBlocks d
  /\ CD.validBlocksManager (settled info d) = CD.validBlocksManager d.
Proof.
  unfold settled. case_bool_decide; case_bool_decide; simpl; split; try done;
    unfold Js.slice_from;
    first [ apply sublist_filter
          | apply sublist_drop
          | etrans; [apply sublist_drop|apply sublist_filter] ].
Qed.

(** C10. A hot batch that brings no block writes no live checkpoint,
    inserts nothing into the registry, on the server or in memory, and
    appends nothing to the hot chain, which can only shrink; this holds
    whether the call returns or throws, a migration it triggers
    included. *)
Theorem transactHot_empty_batch_writes_no_checkpoint (info : CD.HotTxInfo)
    (cb : CD.BlockRef -> Js.M ClickhouseStore.t unit) (w : CD.World) :
  CD.newBlocks info = [] ->
  let w' := (CD.transactHot hooks info cb w).2 in
  Server.status (CD.server w') = Server.status (CD.server w)
  /\ Server.valid_blocks (CD.server w') = Server.valid_blocks (CD.server w)
  /\ CD.validBlocksManager (CD.this w') = CD.validBlocksManager (CD.this w)
  /\ CD.hotBlocks (CD.this w') = CD.hotBlocks (settled info (CD.this w))
  /\ CD.hotBlocks (CD.this w') `sublist_of` CD.hotBlocks (CD.this w).
Proof using custom_frame.
  intros Hnone w'. subst w'. rewrite (transactHot_no_block info cb w Hnone).
  pose proof (preserves_live_autoMigration (CD.finalizedHeight (CD.this w)) []
                (CD.on_this (settled info) w)) as Hlive.
  unfold live_view in Hlive. simpl in Hlive.
  injection Hlive as Hstatus Hrows Hmanager Hchain.
  destruct (settled_hotBlocks info (CD.this w)) as [Hsub Hsame].
  rewrite Hstatus, Hrows, Hmanager, Hchain. done.
Qed.

End EmptyHotBatch.

(* ===================================================================== *)
(** * The embedding at work on concrete inputs                            *)
(* ===================================================================== *)

(** The examples of the comment of [getTableName]. *)
Example getTableName_examples :
  CD.getTableName adapter_at_tip "Token" = "ethereum_hot_tokens"
  /\ CD.getTableName adapter_at_tip "V3Swap" = "ethereum_hot_v3_swaps"
  /\ CD.getTableName adapter_at_tip "V2Burn" = "ethereum_hot_v2_burns"
  /\ CD.getTableName adapter_at_tip "HTMLParser" = "ethereum_hot_html_parsers"
  /\ CD.getTableName (CD.set_isAtChainTip false adapter_at_tip) "Token"
     = "ethereum_cold_tokens".
Proof. repeat split; by vm_compute. Qed.

(** A hot batch of two blocks at tip, the first one carrying a wide
    integer: the rows land in the hot table with the entity's wide integer
    as text, both blocks enter the registry and the hot chain, and the
    live checkpoint holds the five pairs. *)
Example transactHot_two_blocks :
  let run := CD.transactHot None next_info one_transfer tip_world in
  run.1 = Js.Ok tt
  /\ Server.tables (CD.server run.2) !! "ethereum_hot_transfers"
     = Some (Server.Rows
               [transfer_row 95; transfer_row 100;
                [("height", Js.Number 103); ("value", Js.Str "5")];
                [("height", Js.Number 104); ("value", Js.Str "5")]])
  /\ VBM.validBlocks (CD.validBlocksManager (CD.this run.2))
     = {[ 100 := "0xa"; 101 := "0xb"; 102 := "0xc"; 103 := "0xd"; 104 := "0xe" ]}
  /\ (Server.sr_hot_blocks <$> Server.status (CD.server run.2))
     = [pairs_text [(100, "0xa"); (101, "0xb"); (102, "0xc"); (103, "0xd"); (104, "0xe")]]
  /\ CD.blocksSinceLastMigration (CD.this run.2) = 2.
Proof. repeat split; by vm_compute. Qed.

(** The cutoff rule at [tip_world]: the largest height is 100, the depth
    10, nothing was migrated before; the call returns and records cutoff
    90. *)
Lemma migrateHotToCold_cutoff_at_tip_world :
  CD.isAtChainTip (CD.this tip_world) = true
  /\ exists result w',
       CD.migrateHotToCold tip_world = (Js.Ok result, w')
       /\ CD.cutoffHeight result = 90
       /\ CD.lastMigrationHeight (CD.this w') = 90.
Proof.
  split; [reflexivity|].
  destruct (migrateHotToCold_cutoff tip_world eq_refl) as [_ Htables].
  destruct (Htables "transfers" [] eq_refl) as [_ Hrows].
  assert (Hlookup :
    Server.tables (CD.server tip_world) !! CD.hot_table (CD.this tip_world) "transfers"
    = Some (Server.Rows [transfer_row 95; transfer_row 100])) by (vm_compute; reflexivity).
  destruct (Hrows _ Hlookup) as [_ Hmax].
  apply (Hmax 100).
  - right. left.
  - intros h Hh. simpl in Hh. rewrite !elem_of_cons, elem_of_nil in Hh.
    destruct Hh as [->|[->|[]]]; vm_compute; discriminate.
  - reflexivity.
  - reflexivity.
Defined.

(** The frame of an empty batch at a world where a migration is due and
    the hooks bring their own migration. *)
Lemma transactHot_empty_batch_at_tip_world :
  let w := CD.on_this (CD.set_blocksSinceLastMigration (fun _ => 30)) tip_world in
  CD.newBlocks idle_info = []
  /\ (forall custom,
        Some observing_hooks ≫= CD.customMigration = Some custom ->
        preserves live_view custom)
  /\ (let w' := (CD.transactHot (Some observing_hooks) idle_info one_transfer w).2 in
      Server.status (CD.server w') = Server.status (CD.server w)
      /\ Server.valid_blocks (CD.server w') = Server.valid_blocks (CD.server w)
      /\ CD.validBlocksManager (CD.this w') = CD.validBlocksManager (CD.this w)
      /\ CD.hotBlocks (CD.this w') = CD.hotBlocks (settled idle_info (CD.this w))
      /\ CD.hotBlocks (CD.this w') `sublist_of` CD.hotBlocks (CD.this w)).
Proof.
  intros w.
  assert (Hframe : forall custom,
            Some observing_hooks ≫= CD.customMigration = Some custom ->
            preserves live_view custom).
  { intros custom Hc. simpl in Hc. injection Hc as <-. intros w0. reflexivity. }
  split; [reflexivity|]. split; [exact Hframe|].
  exact (transactHot_empty_batch_writes_no_checkpoint (Some observing_hooks) Hframe
           idle_info one_transfer w eq_refl).
Defined.

(** The stale restart of the specification's fifth scenario: the
    reconciler returns the cold checkpoint as the state to resume from,
    empties the registry of this processor and the hot table, and saves a
    live checkpoint at height 10000; the row it saves carries the
    finalized height the adapter held on entry. *)
Example stale_restart_scenario :
  let run := CD.detectAndRollbackStaleHotBlocks stale_state stale_world in
  run.1 = Js.Ok (Some (CD.mkDatabaseState 10000 "0xcold" [] (Some 10000)))
  /\ VBM.validBlocks (CD.validBlocksManager (CD.this run.2)) = ∅
  /\ Server.valid_blocks (CD.server run.2)
     = [Server.mkValidBlockRow 10050 "0x50" "other"]
  /\ Server.tables (CD.server run.2) !! "ethereum_hot_transfers" = Some (Server.Rows [])
  /\ Server.tables (CD.server run.2) !! "ethereum_cold_transfers"
     = Some (Server.Rows [transfer_row 10000])
  /\ Server.status (CD.server run.2)
     = [Server.mkStatusRow "default" 10000 "0xcold" EmptyString "[]" 10040].
Proof. repeat split; by vm_compute. Qed.

(** The veto of the specification's sixth scenario: thirty blocks at tip
    have made a migration due, the hook answers false, and the world,
    its counter included, stays as it was. *)
Example veto_scenario :
  let w := CD.on_this (CD.set_blocksSinceLastMigration (fun _ => 30)) tip_world in
  CD.performMigration (Some vetoing_hooks) w = (Js.Ok tt, w)
  /\ CD.blocksSinceLastMigration (CD.this (CD.performMigration None w).2) = 0
  /\ CD.lastMigrationHeight (CD.this (CD.performMigration None w).2) = 90.
Proof. repeat split; by vm_compute. Qed.

(* ===================================================================== *)
(** * Physical table names                                                *)
(* ===================================================================== *)

Lemma append_cancel_l (a b c : string) : a +:+ b = a +:+ c -> b = c.
Proof.
  induction a as [|x a IH]; [done|]. rewrite !append_cons. intros [= H]. by apply IH.
Qed.

Lemma hot_table_inj (d : CD.t) (t1 t2 : string) :
  CD.hot_table d t1 = CD.hot_table d t2 -> t1 = t2.
Proof.
  unfold CD.hot_table. intros H. apply append_cancel_l in H.
  by apply (append_cancel_l "_hot_") in H.
Qed.

Lemma cold_table_inj (d : CD.t) (t1 t2 : string) :
  CD.cold_table d t1 = CD.cold_table d t2 -> t1 = t2.
Proof.
  unfold CD.cold_table. intros H. apply append_cancel_l in H.
  by apply (append_cancel_l "_cold_") in H.
Qed.

Lemma hot_cold_distinct (d : CD.t) (t1 t2 : string) :
  CD.hot_table d t1 <> CD.cold_table d t2.
Proof.
  unfold CD.hot_table, CD.cold_table. intros H. apply append_cancel_l in H.
  rewrite !append_cons in H. discriminate H.
Qed.

(* ===================================================================== *)
(** * Migration engine: what a migration moves                            *)
(* ===================================================================== *)

Lemma migrateTable_effect (d : CD.t) (cutoff : Z) (acc : Z * list (string * Z))
    (table : string) (w : CD.World) :
  let report := reported_one d cutoff (Server.tables (CD.server w)) table in
  CD.migrateTable d cutoff acc table w
  = (Js.Ok (acc.1 + total_rows report, (acc.2 ++ report)%list),
     CD.on_server (Server.set_tables (fun t => moved_one d cutoff t table)) w).
Proof.
  destruct w as [[tb vb st cs nf] d0 wi sl]. destruct acc as [total results].
  cbn zeta.
  unfold CD.migrateTable, Js.try_catch, Js.bind, CD.client, Js.zoom,
    Server.select_count_le, Server.insert_select_le, Server.delete_le, Server.insert,
    Js.bind, Server.scan, Server.store, Js.ret, Js.modify,
    CD.on_server, Server.set_tables, moved_one, reported_one.
  cbn [CD.server CD.this CD.wire CD.slept Server.tables Server.valid_blocks
       Server.status Server.cold_status Server.null_for_empty fst snd].
  pose proof (hot_cold_distinct d table table) as Hne.
  assert (Hsame : (total + total_rows [], (results ++ [])%list) = (total, results)).
  { rewrite app_nil_r. simpl. by rewrite Z.add_0_r. }
  destruct (tb !! CD.hot_table d table) as [[hrows|e]|] eqn:Eh.
  - destruct (filter _ hrows) as [|r moving] eqn:Ef.
    + destruct (tb !! CD.cold_table d table) as [[crows|e]|];
        rewrite ?Ef, Hsame; reflexivity.
    + rewrite bool_decide_eq_false_2 by (simpl; lia).
      cbn [CD.server CD.this CD.wire CD.slept Server.tables Server.valid_blocks
           Server.status Server.cold_status Server.null_for_empty fst snd].
      rewrite Eh.
      destruct (tb !! CD.cold_table d table) as [[crows|e]|] eqn:Ec.
      all: repeat first
          [ rewrite Ec | rewrite Eh | rewrite Ef | rewrite lookup_insert_ne by done
          | progress cbn [CD.server CD.this CD.wire CD.slept Server.tables
                          Server.valid_blocks Server.status Server.cold_status
                          Server.null_for_empty fst snd] ].
      * unfold total_rows. simpl. by rewrite Z.add_0_r.
      * rewrite Hsame. by destruct (CD.is_unknown_table e).
      * rewrite Hsame. by rewrite is_unknown_table_unknown.
  - rewrite Hsame. by destruct (CD.is_unknown_table e).
  - rewrite Hsame. by rewrite is_unknown_table_unknown.
Qed.

Lemma total_rows_app (l1 l2 : list (string * Z)) :
  total_rows (l1 ++ l2) = total_rows l1 + total_rows l2.
Proof.
  unfold total_rows. induction l1 as [|p l1 IH]; simpl; [lia|]. rewrite IH. lia.
Qed.

Lemma migrate_loop_effect (d : CD.t) (cutoff : Z) (names : list string)
    (acc : Z * list (string * Z)) (w : CD.World) :
  let report := reported_all d cutoff names (Server.tables (CD.server w)) in
  Js.for_of_acc names acc (CD.migrateTable d cutoff) w
  = (Js.Ok (acc.1 + total_rows report, (acc.2 ++ report)%list),
     CD.on_server (Server.set_tables (moved_all d cutoff names)) w).
Proof.
  revert acc w. induction names as [|name names IH]; intros acc w.
  - simpl. rewrite app_nil_r. unfold total_rows. simpl. rewrite Z.add_0_r.
    destruct acc. by destruct w as [[tb vb st cs nf] d0 wi sl].
  - cbn [Js.for_of_acc reported_all]. unfold Js.bind at 1.
    rewrite migrateTable_effect. cbn zeta. rewrite IH. cbn zeta.
    rewrite total_rows_app. cbn [fst snd].
    rewrite Z.add_assoc, <- app_assoc.
    by destruct w as [[tb vb st cs nf] d0 wi sl].
Qed.

(** Statements that read are invisible in every view of the world. *)
Lemma preserves_client_read {X A} (view : CD.World -> X) (m : Js.M Server.t A) :
  (forall s, (m s).2 = s) -> preserves view (CD.client m).
Proof. intros Hm w. by rewrite client_reads. Qed.

Lemma getBlockHashForHeight_reads (h : Z) (w : CD.World) :
  exists found, CD.getBlockHashForHeight h w = (Js.Ok found, w).
Proof.
  assert (Hhash : forall name, preserves (fun x : CD.World => x) (CD.hashInTable name h)).
  { intros name. unfold CD.hashInTable.
    apply preserves_try_catch; [|auto with frame].
    apply preserves_bind.
    - apply preserves_client_read. intros ?. apply select_hash_at_reads.
    - intros [|? ?]; auto with frame. }
  assert (Hsame : (CD.getBlockHashForHeight h w).2 = w).
  { revert w. change (preserves (fun x : CD.World => x) (CD.getBlockHashForHeight h)).
    unfold CD.getBlockHashForHeight. apply preserves_bind; [apply preserves_gets|].
    intros d. destruct (List.find _ _); [apply preserves_ret|].
    destruct (_ !! h) as [[|c rest]|]; try apply preserves_ret;
      (destruct (CD.migrateableTables d); [apply preserves_ret|];
       apply preserves_bind; [apply Hhash|];
       intros [found|]; [apply preserves_ret|apply Hhash]). }
  destruct (returns_getBlockHashForHeight h w) as [found Hfound].
  destruct (CD.getBlockHashForHeight h w) as [r w']. simpl in *. subst. eauto.
Qed.

(** The whole effect of steps 3 to 6 of a migration. *)
Lemma migrateUpTo_effect (d : CD.t) (cutoff : Z) (w : CD.World) :
  let report := reported_all d cutoff (CD.migrateableTables d) (Server.tables (CD.server w)) in
  exists found,
    CD.getBlockHashForHeight cutoff (moved_world d cutoff w)
    = (Js.Ok found, moved_world d cutoff w)
    /\ CD.migrateUpTo d cutoff w
       = (Js.Ok (CD.mkMigrationResult (total_rows report) cutoff report),
          checkpointed cutoff found (moved_world d cutoff w)).
Proof.
  intros report. unfold CD.migrateUpTo. unfold Js.bind at 1.
  rewrite migrate_loop_effect. cbn zeta. fold report.
  unfold Js.bind at 1, Js.modify at 1. unfold Js.bind at 1.
  change (CD.on_this (CD.set_lastMigrationHeight cutoff)
            (CD.on_server (Server.set_tables
               (moved_all d cutoff (CD.migrateableTables d))) w))
    with (moved_world d cutoff w).
  destruct (getBlockHashForHeight_reads cutoff (moved_world d cutoff w)) as [found Hfound].
  exists found. split; [done|]. rewrite Hfound.
  destruct found as [[|c rest]|]; reflexivity.
Qed.

Lemma moved_one_cases (d : CD.t) (cutoff : Z) (tables : gmap string Server.TableState)
    (table : string) :
  moved_one d cutoff tables table = tables
  \/ exists hrows crows,
       tables !! CD.hot_table d table = Some (Server.Rows hrows)
       /\ tables !! CD.cold_table d table = Some (Server.Rows crows)
       /\ moved_one d cutoff tables table
          = <[CD.hot_table d table :=
                Server.Rows (filter (fun r => ~ Server.column_int (CD.heightColumnName d) r
                                                <= cutoff) hrows)]>
              (<[CD.cold_table d table :=
                   Server.Rows (crows ++ filter (fun r =>
                     Server.column_int (CD.heightColumnName d) r <= cutoff) hrows)%list]>
                 tables).
Proof.
  unfold moved_one.
  destruct (tables !! CD.hot_table d table) as [[hrows|?]|]; [|by left..].
  destruct (tables !! CD.cold_table d table) as [[crows|?]|]; [|by left..].
  destruct (filter _ hrows) as [|r moving] eqn:Ef; [by left|].
  right. exists hrows, crows. by rewrite Ef.
Qed.

Lemma filter_none_keeps_all {A} (P : A -> Prop) `{!forall x, Decision (P x)} (l : list A) :
  filter P l = [] -> filter (fun x => ~ P x) l = l.
Proof.
  induction l as [|x l IH]; [done|]. rewrite !filter_cons.
  destruct (decide (P x)); [done|]. intros Hnil.
  destruct (decide (~ P x)); [|done]. by rewrite IH.
Qed.

(** One step on the hot table it migrates. *)
Lemma moved_one_own_hot (d : CD.t) (cutoff : Z) (tables : gmap string Server.TableState)
    (table : string) (hrows crows : list Server.Row) :
  tables !! CD.hot_table d table = Some (Server.Rows hrows) ->
  tables !! CD.cold_table d table = Some (Server.Rows crows) ->
  moved_one d cutoff tables table !! CD.hot_table d table
  = Some (Server.Rows (filter (fun r => ~ Server.column_int (CD.heightColumnName d) r
                                          <= cutoff) hrows))
  /\ moved_one d cutoff tables table !! CD.cold_table d table
     = Some (Server.Rows (crows ++ filter (fun r =>
               Server.column_int (CD.heightColumnName d) r <= cutoff) hrows)%list).
Proof.
  intros Hh Hc. unfold moved_one. rewrite Hh, Hc.
  pose proof (hot_cold_distinct d table table) as Hne.
  destruct (filter _ hrows) as [|r moving] eqn:Ef.
  - rewrite Hh, Hc, app_nil_r. rewrite filter_none_keeps_all by done. done.
  - rewrite lookup_insert_eq, lookup_insert_ne, lookup_insert_eq by done. done.
Qed.

(** One step on a table that is neither hot nor cold table of the one it
    migrates. *)
Lemma moved_one_elsewhere (d : CD.t) (cutoff : Z)
    (tables : gmap string Server.TableState) (table n : string) :
  n <> CD.hot_table d table -> n <> CD.cold_table d table ->
  moved_one d cutoff tables table !! n = tables !! n.
Proof.
  intros Hh Hc.
  destruct (moved_one_cases d cutoff tables table) as [-> | (? & ? & _ & _ & ->)];
    [done|]. by rewrite !lookup_insert_ne.
Qed.

(** One step seen from the hot and cold tables of any table [other]: both
    are as before, or both held rows and the rows up to the cutoff went from
    the end of the hot table to the end of the cold one. *)
Lemma moved_one_zone (d : CD.t) (cutoff : Z) (tables : gmap string Server.TableState)
    (table other : string) :
  (moved_one d cutoff tables table !! CD.hot_table d other = tables !! CD.hot_table d other
   /\ moved_one d cutoff tables table !! CD.cold_table d other
      = tables !! CD.cold_table d other)
  \/ exists hrows crows,
       tables !! CD.hot_table d other = Some (Server.Rows hrows)
       /\ tables !! CD.cold_table d other = Some (Server.Rows crows)
       /\ moved_one d cutoff tables table !! CD.hot_table d other
          = Some (Server.Rows (filter (fun r =>
                    ~ Server.column_int (CD.heightColumnName d) r <= cutoff) hrows))
       /\ moved_one d cutoff tables table !! CD.cold_table d other
          = Some (Server.Rows (crows ++ filter (fun r =>
                    Server.column_int (CD.heightColumnName d) r <= cutoff) hrows)%list).
Proof.
  destruct (decide (table = other)) as [->|Hne].
  - destruct (tables !! CD.hot_table d other) as [[hrows|?]|] eqn:Hh;
      [destruct (tables !! CD.cold_table d other) as [[crows|?]|] eqn:Hc|..].
    + right. exists hrows, crows. rewrite <- Hh, <- Hc at 1.
      destruct (moved_one_own_hot d cutoff tables other hrows crows Hh Hc) as [-> ->].
      by rewrite Hh, Hc.
    + left. unfold moved_one. by rewrite Hh, Hc.
    + left. unfold moved_one. by rewrite Hh, Hc.
    + left. unfold moved_one. by rewrite Hh.
    + left. unfold moved_one. by rewrite Hh.
  - left. split; apply moved_one_elsewhere.
    + intros H. by apply hot_table_inj in H.
    + apply hot_cold_distinct.
    + intros H. by apply (hot_cold_distinct d table other).
    + intros H. by apply cold_table_inj in H.
Qed.


Lemma filter_twice_none {A} (P : A -> Prop) `{!forall x, Decision (P x)} (l : list A) :
  filter P (filter (fun x => ~ P x) l) = [].
Proof.
  induction l as [|x l IH]; [done|]. rewrite filter_cons.
  destruct (decide (~ P x)); [|done]. rewrite filter_cons.
  by destruct (decide (P x)).
Qed.

Lemma filter_twice_same {A} (P : A -> Prop) `{!forall x, Decision (P x)} (l : list A) :
  filter P (filter P l) = filter P l.
Proof. by apply list_filter_filter_l. Qed.

(** The whole loop seen from the hot and cold tables of any table. *)
Lemma moved_all_zone (d : CD.t) (cutoff : Z) (names : list string)
    (tables : gmap string Server.TableState) (other : string) :
  (moved_all d cutoff names tables !! CD.hot_table d other = tables !! CD.hot_table d other
   /\ moved_all d cutoff names tables !! CD.cold_table d other
      = tables !! CD.cold_table d other)
  \/ exists hrows crows,
       tables !! CD.hot_table d other = Some (Server.Rows hrows)
       /\ tables !! CD.cold_table d other = Some (Server.Rows crows)
       /\ moved_all d cutoff names tables !! CD.hot_table d other
          = Some (Server.Rows (filter (fun r =>
                    ~ Server.column_int (CD.heightColumnName d) r <= cutoff) hrows))
       /\ moved_all d cutoff names tables !! CD.cold_table d other
          = Some (Server.Rows (crows ++ filter (fun r =>
                    Server.column_int (CD.heightColumnName d) r <= cutoff) hrows)%list).
Proof.
  revert tables. induction names as [|table names IH]; intros tables; [by left|].
  unfold moved_all in *. cbn [foldl].
  destruct (IH (moved_one d cutoff tables table))
    as [[-> ->] | (hrows & crows & Hh & Hc & -> & ->)].
  - apply moved_one_zone.
  - destruct (moved_one_zone d cutoff tables table other)
      as [[Eh Ec] | (hrows0 & crows0 & Hh0 & Hc0 & Eh & Ec)].
    + right. exists hrows, crows. by rewrite <- Eh, <- Ec.
    + right. exists hrows0, crows0. rewrite Eh in Hh. rewrite Ec in Hc.
      injection Hh as <-. injection Hc as <-.
      rewrite filter_twice_same, filter_twice_none, app_nil_r. done.
Qed.

(** A table the loop visits, whose hot and cold tables both hold rows, is
    split at the cutoff. *)
Lemma moved_all_member (d : CD.t) (cutoff : Z) (names : list string)
    (tables : gmap string Server.TableState) (other : string)
    (hrows crows : list Server.Row) :
  other ∈ names ->
  tables !! CD.hot_table d other = Some (Server.Rows hrows) ->
  tables !! CD.cold_table d other = Some (Server.Rows crows) ->
  moved_all d cutoff names tables !! CD.hot_table d other
  = Some (Server.Rows (filter (fun r =>
            ~ Server.column_int (CD.heightColumnName d) r <= cutoff) hrows))
  /\ moved_all d cutoff names tables !! CD.cold_table d other
     = Some (Server.Rows (crows ++ filter (fun r =>
               Server.column_int (CD.heightColumnName d) r <= cutoff) hrows)%list).
Proof.
  revert tables hrows crows.
  induction names as [|table names IH]; intros tables hrows crows Hin Hh Hc;
    [by apply elem_of_nil in Hin|].
  unfold moved_all in *. cbn [foldl].
  destruct (decide (table = other)) as [->|Hne].
  - destruct (moved_one_own_hot d cutoff tables other hrows crows Hh Hc) as [Eh Ec].
    destruct (moved_all_zone d cutoff names (moved_one d cutoff tables other) other)
      as [[E1 E2] | (h1 & c1 & Hh1 & Hc1 & E1 & E2)]; unfold moved_all in *.
    + by rewrite E1, E2.
    + rewrite E1, E2. rewrite Eh in Hh1. rewrite Ec in Hc1.
      injection Hh1 as <-. injection Hc1 as <-.
      by rewrite filter_twice_same, filter_twice_none, app_nil_r.
  - apply elem_of_cons in Hin as [->|Hin]; [done|].
    destruct (moved_one_zone d cutoff tables table other)
      as [[Eh Ec] | (h0 & c0 & Hh0 & Hc0 & Eh & Ec)].
    + apply IH; [done| |]; congruence.
    + rewrite Hh in Hh0. rewrite Hc in Hc0. injection Hh0 as <-. injection Hc0 as <-.
      destruct (IH _ _ _ Hin Eh Ec) as [-> ->].
      by rewrite filter_twice_same, filter_twice_none, app_nil_r.
Qed.

(** Tables that are neither hot nor cold table of a visited table are not
    touched by the loop. *)
Lemma moved_all_elsewhere (d : CD.t) (cutoff : Z) (names : list string)
    (tables : gmap string Server.TableState) (n : string) :
  (forall table, table ∈ names ->
     n <> CD.hot_table d table /\ n <> CD.cold_table d table) ->
  moved_all d cutoff names tables !! n = tables !! n.
Proof.
  revert tables. induction names as [|table names IH]; intros tables Hn; [done|].
  unfold moved_all in *. cbn [foldl]. rewrite IH.
  - apply moved_one_elsewhere; apply Hn; left.
  - intros t Ht. apply Hn. by right.
Qed.

Lemma readMaxHeight_faulty (w : CD.World) (first : string) (others : list string)
    (e : Js.Error) :
  CD.migrateableTables (CD.this w) = first :: others ->
  Server.tables (CD.server w) !! CD.hot_table (CD.this w) first = Some (Server.Faulty e) ->
  CD.readMaxHeight w
  = (if CD.is_unknown_table e then Js.Ok (inl (CD.no_migration (-1))) else Js.Throw e, w).
Proof.
  intros Htabs Hrows. unfold CD.readMaxHeight, Js.bind, Js.gets, Js.try_catch.
  rewrite Htabs. rewrite client_reads by apply select_max_reads.
  unfold Server.select_max, Js.bind, Server.scan, Js.gets, Js.ret. rewrite Hrows. simpl.
  by destruct (CD.is_unknown_table e).
Qed.

(** The three ways a call of [migrateHotToCold] can go: it declines and
    answers an empty report, it throws what the first statement threw, or
    it runs steps 3 to 6 up to a cutoff above the last one. *)
Lemma migrateHotToCold_cases (w : CD.World) :
  (exists cutoff,
     CD.migrateHotToCold w = (Js.Ok (CD.no_migration cutoff), w))
  \/ (exists e, CD.migrateHotToCold w = (Js.Throw e, w))
  \/ (exists first others rows maxHeight,
        CD.isAtChainTip (CD.this w) = true
        /\ CD.migrateableTables (CD.this w) = first :: others
        /\ Server.tables (CD.server w) !! CD.hot_table (CD.this w) first
           = Some (Server.Rows rows)
        /\ Server.max_of (Server.null_for_empty (CD.server w))
             (Server.column_int (CD.heightColumnName (CD.this w)) <$> rows)
           = Some maxHeight
        /\ 0 < maxHeight
        /\ CD.lastMigrationHeight (CD.this w) < maxHeight - CD.hotBlocksDepth (CD.this w)
        /\ CD.migrateHotToCold w
           = CD.migrateUpTo (CD.this w) (maxHeight - CD.hotBlocksDepth (CD.this w)) w).
Proof.
  destruct (CD.isAtChainTip (CD.this w)) eqn:Htip.
  2: { left. exists (-1). unfold CD.migrateHotToCold, Js.bind, Js.gets. by rewrite Htip. }
  rewrite (migrateHotToCold_at_tip w Htip).
  destruct (CD.migrateableTables (CD.this w)) as [|first others] eqn:Htabs.
  { left. exists (-1). by rewrite readMaxHeight_no_table. }
  destruct (Server.tables (CD.server w) !! CD.hot_table (CD.this w) first)
    as [[rows|e]|] eqn:Hrows.
  - rewrite (readMaxHeight_rows w first others rows Htabs Hrows).
    destruct (Server.max_of _ _) as [maxHeight|] eqn:Hmax; [|left; by exists (-1)].
    destruct (bool_decide (maxHeight = 0) || bool_decide (maxHeight <= 0)) eqn:Hpos;
      [left; by exists (-1)|].
    apply orb_false_iff in Hpos as [_ Hpos]. apply bool_decide_eq_false in Hpos.
    cbn zeta.
    destruct (bool_decide (maxHeight - CD.hotBlocksDepth (CD.this w)
                           <= CD.lastMigrationHeight (CD.this w))) eqn:Hcut;
      [left; eauto|].
    apply bool_decide_eq_false in Hcut.
    right. right. exists first, others, rows, maxHeight.
    repeat split; try done; lia.
  - rewrite (readMaxHeight_faulty w first others e Htabs Hrows).
    destruct (CD.is_unknown_table e); [left; by exists (-1)|right; left; by exists e].
  - rewrite (readMaxHeight_missing w first others Htabs Hrows). left. by exists (-1).
Qed.

Lemma checkpointed_tables (cutoff : Z) (found : option string) (w : CD.World) :
  Server.tables (CD.server (checkpointed cutoff found w)) = Server.tables (CD.server w)
  /\ CD.this (checkpointed cutoff found w) = CD.this w
  /\ Server.null_for_empty (CD.server (checkpointed cutoff found w))
     = Server.null_for_empty (CD.server w).
Proof. by destruct found as [[|c rest]|]. Qed.

(** A call that leaves another [lastMigrationHeight] behind is one that
    ran steps 3 to 6. *)
Lemma migrateHotToCold_ran (w w' : CD.World) (r : Js.Result CD.MigrationResult) :
  CD.migrateHotToCold w = (r, w') ->
  CD.lastMigrationHeight (CD.this w') <> CD.lastMigrationHeight (CD.this w) ->
  exists first others rows maxHeight,
    CD.isAtChainTip (CD.this w) = true
    /\ CD.migrateableTables (CD.this w) = first :: others
    /\ Server.tables (CD.server w) !! CD.hot_table (CD.this w) first
       = Some (Server.Rows rows)
    /\ Server.max_of (Server.null_for_empty (CD.server w))
         (Server.column_int (CD.heightColumnName (CD.this w)) <$> rows)
       = Some maxHeight
    /\ 0 < maxHeight
    /\ CD.lastMigrationHeight (CD.this w) < maxHeight - CD.hotBlocksDepth (CD.this w)
    /\ CD.migrateHotToCold w
       = CD.migrateUpTo (CD.this w) (maxHeight - CD.hotBlocksDepth (CD.this w)) w.
Proof.
  intros Hrun Hnew.
  destruct (migrateHotToCold_cases w) as [[c Hc] | [[e He] | Hran]]; [| |done].
  - rewrite Hc in Hrun. injection Hrun as _ <-. done.
  - rewrite He in Hrun. injection Hrun as _ <-. done.
Qed.

(* ===================================================================== *)
(** * Migration engine: where the rows are after a call                   *)
(* ===================================================================== *)

(** X1. A call that moves the cutoff splits every managed table whose hot
    and cold tables answer exactly at the cutoff it reports: the hot table
    keeps its rows above the cutoff, in order, and the rows at or below it
    are appended to the cold table, in order; the cutoff is what
    [lastMigrationHeight] then holds. *)
Theorem migrateHotToCold_splits_at_cutoff (w w' : CD.World)
    (result : CD.MigrationResult) (table : string) :
  CD.migrateHotToCold w = (Js.Ok result, w') ->
  CD.lastMigrationHeight (CD.this w') <> CD.lastMigrationHeight (CD.this w) ->
  table ∈ CD.migrateableTables (CD.this w) ->
  answers w (CD.hot_table (CD.this w) table) ->
  answers w (CD.cold_table (CD.this w) table) ->
  hot_rows w' table
  = filter (fun r => ~ row_height w r <= CD.cutoffHeight result) (hot_rows w table)
  /\ cold_rows w' table
     = (cold_rows w table
        ++ filter (fun r => row_height w r <= CD.cutoffHeight result) (hot_rows w table))%list
  /\ CD.lastMigrationHeight (CD.this w') = CD.cutoffHeight result.
Proof.
  intros Hrun Hnew Hin [hrows Hh] [crows Hc].
  destruct (migrateHotToCold_ran w w' _ Hrun Hnew)
    as (first & others & rows & m & _ & _ & _ & _ & _ & _ & Heq).
  rewrite Heq in Hrun.
  destruct (migrateUpTo_effect (CD.this w) (m - CD.hotBlocksDepth (CD.this w)) w)
    as (found & _ & Heff).
  rewrite Heff in Hrun. injection Hrun as <- <-.
  destruct (checkpointed_tables (m - CD.hotBlocksDepth (CD.this w)) found
              (moved_world (CD.this w) (m - CD.hotBlocksDepth (CD.this w)) w))
    as (Etab & Ethis & _).
  unfold hot_rows, cold_rows, rows_at, row_height. rewrite Etab, Ethis.
  cbn [CD.cutoffHeight].
  destruct (moved_all_member (CD.this w) (m - CD.hotBlocksDepth (CD.this w))
              (CD.migrateableTables (CD.this w)) (Server.tables (CD.server w))
              table hrows crows Hin Hh Hc) as [Eh Ec].
  change (CD.hot_table (CD.this (moved_world (CD.this w)
            (m - CD.hotBlocksDepth (CD.this w)) w)) table)
    with (CD.hot_table (CD.this w) table).
  change (CD.cold_table (CD.this (moved_world (CD.this w)
            (m - CD.hotBlocksDepth (CD.this w)) w)) table)
    with (CD.cold_table (CD.this w) table).
  change (Server.tables (CD.server (moved_world (CD.this w)
            (m - CD.hotBlocksDepth (CD.this w)) w)))
    with (moved_all (CD.this w) (m - CD.hotBlocksDepth (CD.this w))
            (CD.migrateableTables (CD.this w)) (Server.tables (CD.server w))).
  rewrite Eh, Ec, Hh, Hc. done.
Qed.


(** The outcome of any call: nothing changed, or the loop ran up to a
    cutoff above the last one and the report is what the loop has seen. *)
Lemma migrateHotToCold_outcome (w : CD.World) :
  (exists r, CD.migrateHotToCold w = (r, w)
             /\ forall result, r = Js.Ok result -> exists c, result = CD.no_migration c)
  \/ exists cutoff found first others rows maxHeight,
       let d := CD.this w in
       let report := reported_all d cutoff (CD.migrateableTables d)
                       (Server.tables (CD.server w)) in
       CD.isAtChainTip d = true
       /\ CD.migrateableTables d = first :: others
       /\ Server.tables (CD.server w) !! CD.hot_table d first = Some (Server.Rows rows)
       /\ Server.max_of (Server.null_for_empty (CD.server w))
            (Server.column_int (CD.heightColumnName d) <$> rows) = Some maxHeight
       /\ cutoff = maxHeight - CD.hotBlocksDepth d
       /\ CD.lastMigrationHeight d < cutoff
       /\ CD.getBlockHashForHeight cutoff (moved_world d cutoff w)
          = (Js.Ok found, moved_world d cutoff w)
       /\ CD.migrateHotToCold w
          = (Js.Ok (CD.mkMigrationResult (total_rows report) cutoff report),
             checkpointed cutoff found (moved_world d cutoff w)).
Proof.
  destruct (migrateHotToCold_cases w)
    as [[c Hc] | [[e He] | (first & others & rows & m & Htip & Htabs & Hrows & Hmax
                            & Hpos & Hcut & Heq)]].
  - left. eexists. split; [exact Hc|]. intros result [= <-]. by exists c.
  - left. eexists. split; [exact He|]. intros result [=].
  - right.
    destruct (migrateUpTo_effect (CD.this w) (m - CD.hotBlocksDepth (CD.this w)) w)
      as (found & Hfound & Heff).
    exists (m - CD.hotBlocksDepth (CD.this w)), found, first, others, rows, m.
    cbn zeta. rewrite Heq. done.
Qed.



(** X3. A call of [migrateHotToCold] leaves every table alone that is
    neither the hot nor the cold table of a managed table, and neither
    writes the live checkpoint nor the registry table. *)
Theorem migrateHotToCold_touches_managed_tables_only (w : CD.World) (name : string) :
  (forall table, table ∈ CD.migrateableTables (CD.this w) ->
     name <> CD.hot_table (CD.this w) table /\ name <> CD.cold_table (CD.this w) table) ->
  let w' := (CD.migrateHotToCold w).2 in
  Server.tables (CD.server w') !! name = Server.tables (CD.server w) !! name
  /\ Server.status (CD.server w') = Server.status (CD.server w)
  /\ Server.valid_blocks (CD.server w') = Server.valid_blocks (CD.server w).
Proof.
  intros Hname.
  destruct (migrateHotToCold_outcome w)
    as [(r & -> & _) | (c & found & first & others & rows & m & Hout)]; [done|].
  cbn zeta in Hout. destruct Hout as (_ & _ & _ & _ & _ & _ & _ & ->).
  cbn [snd].
  destruct (checkpointed_tables c found (moved_world (CD.this w) c w)) as (-> & _ & _).
  split; [by apply moved_all_elsewhere|].
  by destruct found as [[|ch rest]|].
Qed.


Lemma max_of_subset (nul : bool) (l' l : list Z) (m' m : Z) :
  (forall x, x ∈ l' -> x ∈ l) ->
  Server.max_of nul l = Some m -> Server.max_of nul l' = Some m' -> 0 < m' -> m' <= m.
Proof.
  intros Hsub Hm Hm' Hpos. destruct l' as [|x rest]; simpl in Hm'.
  { destruct nul; [done|]. injection Hm' as <-. lia. }
  injection Hm' as <-.
  destruct (foldl_max_spec x rest) as [Hin _]. apply Hsub in Hin.
  destruct l as [|y others]; [by apply elem_of_nil in Hin|].
  simpl in Hm. injection Hm as <-. by apply foldl_max_spec.
Qed.

(** X4. A call of [migrateHotToCold] right after one that returned finds
    nothing to do: it answers an empty report and changes nothing. *)
Theorem migrateHotToCold_again_is_noop (w w' : CD.World) (result : CD.MigrationResult) :
  CD.migrateHotToCold w = (Js.Ok result, w') ->
  exists cutoff, CD.migrateHotToCold w' = (Js.Ok (CD.no_migration cutoff), w').
Proof.
  intros Hrun.
  destruct (migrateHotToCold_outcome w)
    as [(r & Hsame & Hnone) | (c & found & first & others & rows & m & Hout)].
  { rewrite Hsame in Hrun. injection Hrun as -> <-.
    destruct (Hnone result eq_refl) as [c ->]. by exists c. }
  cbn zeta in Hout. destruct Hout as (Htip & Htabs & Hrows & Hmax & Hc & _ & _ & Heq).
  rewrite Heq in Hrun. injection Hrun as _ <-.
  set (d := CD.this w) in *. set (w1 := moved_world d c w).
  destruct (checkpointed_tables c found w1) as (Etab & Ethis & Enul).
  assert (Htip' : CD.isAtChainTip (CD.this (checkpointed c found w1)) = true)
    by (by rewrite Ethis).
  assert (Htabs' : CD.migrateableTables (CD.this (checkpointed c found w1))
                   = first :: others) by (by rewrite Ethis).
  assert (Hrows' : exists rows',
    Server.tables (CD.server (checkpointed c found w1))
      !! CD.hot_table (CD.this (checkpointed c found w1)) first = Some (Server.Rows rows')
    /\ forall r, r ∈ rows' -> r ∈ rows).
  { rewrite Etab, Ethis.
    change (CD.hot_table (CD.this w1) first) with (CD.hot_table d first).
    change (Server.tables (CD.server w1))
      with (moved_all d c (CD.migrateableTables d) (Server.tables (CD.server w))).
    destruct (moved_all_zone d c (CD.migrateableTables d) (Server.tables (CD.server w))
                first) as [[-> _] | (hrows & crows & Hh & _ & -> & _)].
    - by exists rows.
    - rewrite Hrows in Hh. injection Hh as <-. eexists. split; [done|].
      intros r Hr. by apply list_elem_of_filter in Hr as [_ Hr]. }
  destruct Hrows' as (rows' & Hrows' & Hsub).
  rewrite (migrateHotToCold_at_tip _ Htip').
  rewrite (readMaxHeight_rows _ first others rows' Htabs' Hrows').
  rewrite Enul, Ethis.
  destruct (Server.max_of (Server.null_for_empty (CD.server w1))
              (Server.column_int (CD.heightColumnName (CD.this w1)) <$> rows'))
    as [m'|] eqn:Hmax'; [|eexists; reflexivity].
  destruct (bool_decide (m' = 0) || bool_decide (m' <= 0)) eqn:Hpos; [eexists; reflexivity|].
  apply orb_false_iff in Hpos as [_ Hpos]. apply bool_decide_eq_false in Hpos.
  cbn zeta. rewrite bool_decide_eq_true_2; [eexists; reflexivity|].
  change (CD.hotBlocksDepth (CD.this w1)) with (CD.hotBlocksDepth d).
  change (CD.lastMigrationHeight (CD.this w1)) with c.
  assert (m' <= m); [|lia].
  eapply (max_of_subset _ _ _ m' m); [|exact Hmax|exact Hmax'|lia].
  intros x Hx. apply list_elem_of_fmap in Hx as (r & -> & Hr).
  apply list_elem_of_fmap. exists r. split; [done|by apply Hsub].
Qed.

Lemma getBlockHashForHeight_known (h : Z) (w : CD.World) (c : ascii) (rest : string) :
  known_hash (CD.this w) h = Some (String c rest) ->
  CD.getBlockHashForHeight h w = (Js.Ok (Some (String c rest)), w).
Proof.
  unfold known_hash, CD.getBlockHashForHeight, Js.bind, Js.gets.
  destruct (List.find _ _) as [hotBlock|]; [by intros [= ->]|].
  by intros ->.
Qed.

Lemma latest_snoc (rows : list Server.ColdStatusRow) (pid : string) (h : Z)
    (hs : string) :
  Server.latest Server.cs_id pid (rows ++ [Server.mkColdStatusRow pid h hs])
  = Some (Server.mkColdStatusRow pid h hs).
Proof.
  unfold Server.latest. rewrite filter_app, filter_cons_True by done.
  rewrite filter_nil. apply last_snoc.
Qed.

(** X5. When a call moves the cutoff and the adapter holds a non-empty
    hash for the cutoff height, in the hot chain or else in the registry,
    the cold checkpoint read back afterwards is that height and hash. *)
Theorem migrateHotToCold_checkpoints_cutoff (w w' : CD.World)
    (result : CD.MigrationResult) (c : ascii) (rest : string) :
  CD.migrateHotToCold w = (Js.Ok result, w') ->
  CD.lastMigrationHeight (CD.this w') <> CD.lastMigrationHeight (CD.this w) ->
  known_hash (CD.this w) (CD.cutoffHeight result) = Some (String c rest) ->
  CD.getColdStatus w' = (Js.Ok (Some (CD.cutoffHeight result, String c rest)), w').
Proof.
  intros Hrun Hnew Hknown.
  destruct (migrateHotToCold_outcome w)
    as [(r & Hsame & _) | (cutoff & found & first & others & rows & m & Hout)].
  { rewrite Hsame in Hrun. injection Hrun as _ <-. done. }
  cbn zeta in Hout. destruct Hout as (_ & _ & _ & _ & _ & _ & Hfound & Heq).
  rewrite Heq in Hrun. injection Hrun as <- <-. cbn [CD.cutoffHeight] in *.
  rewrite (getBlockHashForHeight_known cutoff _ c rest) in Hfound by exact Hknown.
  injection Hfound as <-.
  unfold CD.getColdStatus, Js.bind, Js.gets, checkpointed.
  cbn [CD.server CD.this CD.on_server Server.cold_status Server.set_cold_status].
  rewrite latest_snoc. reflexivity.
Qed.








(** The sample runs below are on [aged_world]: the largest height in the
    hot table is 100 and the depth is 10, so the call moves the cutoff from
    -1 to 90 and the rows at 80 and 85 change zone. *)
Lemma migrateHotToCold_aged_world :
  CD.migrateHotToCold aged_world
  = (Js.Ok (report_of aged_world), (CD.migrateHotToCold aged_world).2).
Proof. vm_compute. reflexivity. Qed.

Example aged_world_run :
  let w' := (CD.migrateHotToCold aged_world).2 in
  report_of aged_world = CD.mkMigrationResult 2 90 [("transfers", 2)]
  /\ hot_rows w' "transfers" = [transfer_row 95; transfer_row 100]
  /\ cold_rows w' "transfers" = [transfer_row 70; transfer_row 80; transfer_row 85]
  /\ Server.cold_status (CD.server w') = [Server.mkColdStatusRow "default" 90 "0x90"].
Proof. vm_compute. repeat split. Qed.

Lemma migrateHotToCold_splits_aged_world :
  let w' := (CD.migrateHotToCold aged_world).2 in
  CD.migrateHotToCold aged_world = (Js.Ok (report_of aged_world), w')
  /\ CD.lastMigrationHeight (CD.this w') <> CD.lastMigrationHeight (CD.this aged_world)
  /\ "transfers" ∈ CD.migrateableTables (CD.this aged_world)
  /\ answers aged_world (CD.hot_table (CD.this aged_world) "transfers")
  /\ answers aged_world (CD.cold_table (CD.this aged_world) "transfers")
  /\ hot_rows w' "transfers"
     = filter (fun r => ~ row_height aged_world r <= CD.cutoffHeight (report_of aged_world))
         (hot_rows aged_world "transfers")
  /\ cold_rows w' "transfers"
     = (cold_rows aged_world "transfers"
        ++ filter (fun r => row_height aged_world r <= CD.cutoffHeight (report_of aged_world))
             (hot_rows aged_world "transfers"))%list
  /\ CD.lastMigrationHeight (CD.this w') = CD.cutoffHeight (report_of aged_world).
Proof.
  assert (Hnew : CD.lastMigrationHeight (CD.this (CD.migrateHotToCold aged_world).2)
                 <> CD.lastMigrationHeight (CD.this aged_world))
    by (vm_compute; discriminate).
  assert (Hin : "transfers" ∈ CD.migrateableTables (CD.this aged_world))
    by (apply list_elem_of_singleton; reflexivity).
  assert (Hh : answers aged_world (CD.hot_table (CD.this aged_world) "transfers"))
    by (eexists; vm_compute; reflexivity).
  assert (Hc : answers aged_world (CD.cold_table (CD.this aged_world) "transfers"))
    by (eexists; vm_compute; reflexivity).
  split; [exact migrateHotToCold_aged_world|]. split; [exact Hnew|].
  split; [exact Hin|]. split; [exact Hh|]. split; [exact Hc|].
  exact (migrateHotToCold_splits_at_cutoff aged_world _ _ "transfers"
           migrateHotToCold_aged_world Hnew Hin Hh Hc).
Defined.

Lemma migrateHotToCold_leaves_regular_table_of_aged_world :
  let w' := (CD.migrateHotToCold aged_world).2 in
  (forall table, table ∈ CD.migrateableTables (CD.this aged_world) ->
     "ethereum_transfers" <> CD.hot_table (CD.this aged_world) table
     /\ "ethereum_transfers" <> CD.cold_table (CD.this aged_world) table)
  /\ Server.tables (CD.server w') !! "ethereum_transfers"
     = Server.tables (CD.server aged_world) !! "ethereum_transfers"
  /\ Server.status (CD.server w') = Server.status (CD.server aged_world)
  /\ Server.valid_blocks (CD.server w') = Server.valid_blocks (CD.server aged_world).
Proof.
  assert (Hname : forall table, table ∈ CD.migrateableTables (CD.this aged_world) ->
     "ethereum_transfers" <> CD.hot_table (CD.this aged_world) table
     /\ "ethereum_transfers" <> CD.cold_table (CD.this aged_world) table).
  { intros table Hin. apply list_elem_of_singleton in Hin. rewrite Hin.
    split; vm_compute; discriminate. }
  split; [exact Hname|].
  exact (migrateHotToCold_touches_managed_tables_only aged_world "ethereum_transfers" Hname).
Defined.

Lemma migrateHotToCold_again_on_aged_world :
  let w' := (CD.migrateHotToCold aged_world).2 in
  CD.migrateHotToCold aged_world = (Js.Ok (report_of aged_world), w')
  /\ exists cutoff, CD.migrateHotToCold w' = (Js.Ok (CD.no_migration cutoff), w').
Proof.
  split; [exact migrateHotToCold_aged_world|].
  exact (migrateHotToCold_again_is_noop aged_world _ _ migrateHotToCold_aged_world).
Defined.

Lemma migrateHotToCold_checkpoints_aged_world :
  let w' := (CD.migrateHotToCold aged_world).2 in
  CD.migrateHotToCold aged_world = (Js.Ok (report_of aged_world), w')
  /\ CD.lastMigrationHeight (CD.this w') <> CD.lastMigrationHeight (CD.this aged_world)
  /\ known_hash (CD.this aged_world) (CD.cutoffHeight (report_of aged_world)) = Some "0x90"
  /\ CD.getColdStatus w'
     = (Js.Ok (Some (CD.cutoffHeight (report_of aged_world), "0x90")), w').
Proof.
  assert (Hnew : CD.lastMigrationHeight (CD.this (CD.migrateHotToCold aged_world).2)
                 <> CD.lastMigrationHeight (CD.this aged_world))
    by (vm_compute; discriminate).
  assert (Hknown : known_hash (CD.this aged_world) (CD.cutoffHeight (report_of aged_world))
                   = Some "0x90") by (vm_compute; reflexivity).
  split; [exact migrateHotToCold_aged_world|]. split; [exact Hnew|].
  split; [exact Hknown|].
  exact (migrateHotToCold_checkpoints_cutoff aged_world _ _ "0"%char "x90"
           migrateHotToCold_aged_world Hnew Hknown).
Defined.



(* ===================================================================== *)
(** * Stale-restart reconciler: what a rollback keeps, and convergence    *)
(* ===================================================================== *)

Lemma select_max_agrees (name col : string) (s1 s2 : Server.t) :
  Server.tables s1 !! name = Server.tables s2 !! name ->
  Server.null_for_empty s1 = Server.null_for_empty s2 ->
  (Server.select_max name col s1).1 = (Server.select_max name col s2).1.
Proof.
  intros Htab Hnul. unfold Server.select_max, Js.bind, Server.scan, Js.gets, Js.ret.
  rewrite Htab. destruct (Server.tables s2 !! name) as [[rows|e]|]; simpl; [|done..].
  by rewrite Hnul.
Qed.

Lemma getLatestColdBlockHeight_effect (w : CD.World) :
  CD.getLatestColdBlockHeight w
  = (Js.Ok (foldl (cold_scan (CD.this w) (CD.server w)) (-1)
              (CD.migrateableTables (CD.this w))), w).
Proof.
  unfold CD.getLatestColdBlockHeight, Js.bind at 1, Js.gets.
  generalize (-1). generalize (CD.migrateableTables (CD.this w)) as names.
  induction names as [|table names IH]; intros acc; simpl; [done|].
  unfold Js.bind at 1, Js.try_catch, Js.bind at 1.
  rewrite client_reads by apply select_max_reads. unfold cold_scan at 2.
  destruct (Server.select_max _ _ _).1 as [[h|]|e]; simpl; apply IH.
Qed.

(** The height found in the cold tables depends on the cold tables only. *)
Lemma getLatestColdBlockHeight_agrees (w1 w2 : CD.World) :
  CD.migrateableTables (CD.this w1) = CD.migrateableTables (CD.this w2) ->
  CD.network (CD.this w1) = CD.network (CD.this w2) ->
  (forall table,
     Server.tables (CD.server w1) !! CD.cold_table (CD.this w1) table
     = Server.tables (CD.server w2) !! CD.cold_table (CD.this w1) table) ->
  Server.null_for_empty (CD.server w1) = Server.null_for_empty (CD.server w2) ->
  (CD.getLatestColdBlockHeight w1).1 = (CD.getLatestColdBlockHeight w2).1.
Proof.
  intros Htabs Hnet Hcold Hnul. rewrite !getLatestColdBlockHeight_effect.
  cbn [fst]. rewrite <- Htabs. clear Htabs. f_equal. generalize (-1).
  generalize (CD.migrateableTables (CD.this w1)) as names.
  induction names as [|table names IH]; intros acc; [done|].
  cbn [foldl]. rewrite IH. f_equal. unfold cold_scan.
  replace (CD.cold_table (CD.this w2) table) with (CD.cold_table (CD.this w1) table)
    by (unfold CD.cold_table; by rewrite Hnet).
  by rewrite (select_max_agrees _ "height" (CD.server w1) (CD.server w2)).
Qed.

Lemma resolveCold_agrees (w1 w2 : CD.World) :
  Server.cold_status (CD.server w1) = Server.cold_status (CD.server w2) ->
  CD.processorId (CD.this w1) = CD.processorId (CD.this w2) ->
  CD.migrateableTables (CD.this w1) = CD.migrateableTables (CD.this w2) ->
  CD.network (CD.this w1) = CD.network (CD.this w2) ->
  (forall table,
     Server.tables (CD.server w1) !! CD.cold_table (CD.this w1) table
     = Server.tables (CD.server w2) !! CD.cold_table (CD.this w1) table) ->
  Server.null_for_empty (CD.server w1) = Server.null_for_empty (CD.server w2) ->
  (CD.resolveCold w1).1 = (CD.resolveCold w2).1.
Proof.
  intros Hcs Hpid Htabs Hnet Hcold Hnul.
  pose proof (getLatestColdBlockHeight_agrees w1 w2 Htabs Hnet Hcold Hnul) as Hscan.
  unfold CD.resolveCold, Js.bind at 1 3, CD.getColdStatus, Js.bind, Js.gets.
  rewrite Hcs, Hpid. destruct (Server.latest _ _ _) as [row|]; simpl; [done|].
  destruct (getLatestColdBlockHeight_reads w1) as [h1 E1].
  destruct (getLatestColdBlockHeight_reads w2) as [h2 E2].
  rewrite E1, E2 in *. simpl in *. congruence.
Qed.

(** The world a rollback leads to, field by field. *)
Lemma rolled_back_fields (coldHeight : Z) (coldHash : string) (w : CD.World) :
  let w' := rolled_back coldHeight coldHash w in
  Server.tables (CD.server w')
  = emptied (CD.hot_table (CD.this w) <$> CD.migrateableTables (CD.this w))
      (Server.tables (CD.server w))
  /\ Server.cold_status (CD.server w') = Server.cold_status (CD.server w)
  /\ Server.null_for_empty (CD.server w') = Server.null_for_empty (CD.server w)
  /\ CD.processorId (CD.this w') = CD.processorId (CD.this w)
  /\ CD.migrateableTables (CD.this w') = CD.migrateableTables (CD.this w)
  /\ CD.network (CD.this w') = CD.network (CD.this w).
Proof.
  unfold rolled_back. rewrite manager_clear_effect. cbn [fst snd].
  rewrite clearAllHotTables_effect. cbn [fst snd].
  rewrite saveStatus_rollback. cbn [fst snd]. by destruct w as [[tb vb st cs nf] d0 wi sl].
Qed.

Lemma emptied_elsewhere (names : list string) (tables : gmap string Server.TableState)
    (n : string) :
  n ∉ names -> emptied names tables !! n = tables !! n.
Proof.
  intros Hn. rewrite emptied_spec. rewrite bool_decide_eq_false_2 by done.
  by destruct (tables !! n) as [[?|?]|].
Qed.

Lemma cold_not_among_hot (d : CD.t) (names : list string) (table : string) :
  CD.cold_table d table ∉ CD.hot_table d <$> names.
Proof.
  intros Hin. apply list_elem_of_fmap in Hin as (other & Heq & _).
  symmetry in Heq. by apply hot_cold_distinct in Heq.
Qed.

(** The outcome of the reconciler: nothing, or the rollback to what step 1
    has resolved. *)
Lemma detectAndRollback_outcome (state : CD.DatabaseState) (w : CD.World) :
  CD.detectAndRollbackStaleHotBlocks state w = (Js.Ok None, w)
  \/ exists coldHeight coldHash,
       CD.resolveCold w = (Js.Ok (coldHeight, coldHash), w)
       /\ CD.detectAndRollbackStaleHotBlocks state w
          = (Js.Ok (Some (CD.mkDatabaseState coldHeight coldHash [] (Some coldHeight))),
             rolled_back coldHeight coldHash w).
Proof.
  destruct (resolveCold_reads w) as (coldHeight & coldHash & Hcold).
  rewrite (detectAndRollback_cases state w coldHeight coldHash Hcold).
  destruct (negb _ && negb _); [by left|]. right. by exists coldHeight, coldHash.
Qed.

(** X7. The reconciler converges: handed the state it has just rolled back
    to, in the world it has left, it finds nothing stale and changes
    nothing. *)
Theorem reconciler_converges (state newState : CD.DatabaseState) (w w' : CD.World) :
  CD.detectAndRollbackStaleHotBlocks state w = (Js.Ok (Some newState), w') ->
  CD.detectAndRollbackStaleHotBlocks newState w' = (Js.Ok None, w').
Proof.
  intros Hrun.
  destruct (detectAndRollback_outcome state w)
    as [Hnone | (coldHeight & coldHash & Hcold & Hroll)].
  { rewrite Hnone in Hrun. discriminate Hrun. }
  rewrite Hroll in Hrun. injection Hrun as <- <-.
  destruct (rolled_back_fields coldHeight coldHash w)
    as (Htab & Hcs & Hnul & Hpid & Htabs & Hnet).
  cbn zeta in *.
  assert (Hcold' : CD.resolveCold (rolled_back coldHeight coldHash w)
                   = (Js.Ok (coldHeight, coldHash), rolled_back coldHeight coldHash w)).
  { destruct (resolveCold_reads (rolled_back coldHeight coldHash w))
      as (h' & hs' & Hres).
    assert (Hsame : (CD.resolveCold (rolled_back coldHeight coldHash w)).1
                    = (CD.resolveCold w).1).
    { apply resolveCold_agrees; try done. intros table. rewrite Htab.
      replace (CD.cold_table (CD.this (rolled_back coldHeight coldHash w)) table)
        with (CD.cold_table (CD.this w) table)
        by (unfold CD.cold_table; by rewrite Hnet).
      apply emptied_elsewhere, cold_not_among_hot. }
    rewrite Hres, Hcold in Hsame. simpl in Hsame. by rewrite Hres, Hsame. }
  rewrite (detectAndRollback_cases _ _ coldHeight coldHash Hcold').
  cbn [CD.top CD.st_height length].
  rewrite (bool_decide_eq_false_2 (0 < 0)%nat) by lia.
  rewrite (bool_decide_eq_false_2 (coldHeight > coldHeight)) by lia.
  reflexivity.
Qed.

(** X8. The reconciler, whatever it decides, leaves alone every table
    that is not the hot table of a managed table, and the cold
    checkpoint: a rollback deletes hot rows only. *)
Theorem reconciler_keeps_cold_zone (state : CD.DatabaseState) (w : CD.World)
    (name : string) :
  (forall table, table ∈ CD.migrateableTables (CD.this w) ->
     name <> CD.hot_table (CD.this w) table) ->
  let w' := (CD.detectAndRollbackStaleHotBlocks state w).2 in
  Server.tables (CD.server w') !! name = Server.tables (CD.server w) !! name
  /\ Server.cold_status (CD.server w') = Server.cold_status (CD.server w).
Proof.
  intros Hname.
  destruct (detectAndRollback_outcome state w)
    as [-> | (coldHeight & coldHash & _ & ->)]; [done|].
  cbn [snd].
  destruct (rolled_back_fields coldHeight coldHash w) as (-> & -> & _).
  split; [|done]. apply emptied_elsewhere.
  intros Hin. apply list_elem_of_fmap in Hin as (table & -> & Hin).
  by apply (Hname table).
Qed.


(* ===================================================================== *)
(** * Valid-blocks registry: the cache and the table                      *)
(* ===================================================================== *)

Lemma pruneOldBlocks_effect (currentHeight : Z) (e : VBM.Env) :
  let pid := VBM.processorId (VBM.self e) in
  let threshold := currentHeight - VBM.finalityDepth (VBM.self e) in
  let cache := VBM.validBlocks (VBM.self e) in
  VBM.pruneOldBlocks currentHeight e
  = (Js.Ok tt,
     VBM.mkEnv
       (VBM.mk pid (VBM.finalityDepth (VBM.self e))
          (filter (fun kv => ~ kv.1 < threshold) cache))
       (if bool_decide (0 < size (filter (fun kv : Z * string => (kv.1 < threshold)%Z) cache))%nat
        then Server.set_valid_blocks
               (filter (fun r => ~ (Server.vb_processor_id r = pid
                                    /\ Server.vb_height r < threshold))) (VBM.db e)
        else VBM.db e)).
Proof.
  destruct e as [[pid depth cache] db].
  unfold VBM.pruneOldBlocks, Js.bind, Js.gets, Js.modify, Js.ret. simpl.
  by case_bool_decide.
Qed.

Lemma addBlock_effect (h : Z) (hs : string) (e : VBM.Env) :
  VBM.addBlock h hs e
  = VBM.pruneOldBlocks h
      (VBM.mkEnv
         (VBM.mk (VBM.processorId (VBM.self e)) (VBM.finalityDepth (VBM.self e))
            (<[h := hs]> (VBM.validBlocks (VBM.self e))))
         (Server.set_valid_blocks (fun rows =>
            (rows ++ [Server.mkValidBlockRow h hs (VBM.processorId (VBM.self e))])%list)
            (VBM.db e))).
Proof. reflexivity. Qed.

Lemma addBlocks_effect (b : VBM.BlockRef) (rest : list VBM.BlockRef) (e : VBM.Env) :
  VBM.addBlocks (b :: rest) e
  = VBM.pruneOldBlocks (VBM.max_height (b :: rest))
      (VBM.mkEnv
         (VBM.mk (VBM.processorId (VBM.self e)) (VBM.finalityDepth (VBM.self e))
            (foldl (fun m x => <[VBM.height x := VBM.hash x]> m)
                   (VBM.validBlocks (VBM.self e)) (b :: rest)))
         (Server.set_valid_blocks (fun rows =>
            (rows ++ (VBM.row_of (VBM.processorId (VBM.self e)) <$> b :: rest))%list)
            (VBM.db e))).
Proof. reflexivity. Qed.

Lemma handleReorg_effect (reorgHeight : Z) (newBlocks : list VBM.BlockRef) (e : VBM.Env) :
  let e1 :=
    VBM.mkEnv
      (VBM.mk (VBM.processorId (VBM.self e)) (VBM.finalityDepth (VBM.self e))
         (filter (fun kv => ~ kv.1 >= reorgHeight) (VBM.validBlocks (VBM.self e))))
      (Server.set_valid_blocks
         (filter (fun r => ~ (Server.vb_processor_id r = VBM.processorId (VBM.self e)
                              /\ Server.vb_height r >= reorgHeight))) (VBM.db e)) in
  VBM.handleReorg reorgHeight newBlocks e
  = match newBlocks with
    | [] => (Js.Ok tt, e1)
    | _ :: _ => VBM.addBlocks newBlocks e1
    end.
Proof. by destruct newBlocks. Qed.

Lemma clear_effect (e : VBM.Env) :
  VBM.clear e
  = (Js.Ok tt,
     VBM.mkEnv
       (VBM.mk (VBM.processorId (VBM.self e)) (VBM.finalityDepth (VBM.self e)) ∅)
       (Server.set_valid_blocks
          (filter (fun r => ~ Server.vb_processor_id r = VBM.processorId (VBM.self e)))
          (VBM.db e))).
Proof. reflexivity. Qed.

Lemma initialize_effect (e : VBM.Env) :
  VBM.initialize e
  = (Js.Ok tt,
     VBM.mkEnv
       (VBM.mk (VBM.processorId (VBM.self e)) (VBM.finalityDepth (VBM.self e))
          (loaded (VBM.processorId (VBM.self e)) (Server.valid_blocks (VBM.db e))))
       (VBM.db e)).
Proof. reflexivity. Qed.

Lemma loaded_snoc (pid : string) (rows : list Server.ValidBlockRow)
    (r : Server.ValidBlockRow) :
  loaded pid (rows ++ [r])
  = if decide (Server.vb_processor_id r = pid)
    then <[Server.vb_height r := Server.vb_hash r]> (loaded pid rows)
    else loaded pid rows.
Proof.
  unfold loaded. rewrite filter_app, foldl_app, filter_cons.
  by destruct (decide (Server.vb_processor_id r = pid)).
Qed.

Lemma loaded_own (pid : string) (rows : list Server.ValidBlockRow)
    (blocks : list VBM.BlockRef) :
  loaded pid (rows ++ (VBM.row_of pid <$> blocks))
  = foldl (fun m x => <[VBM.height x := VBM.hash x]> m) (loaded pid rows) blocks.
Proof.
  revert rows. induction blocks as [|b blocks IH]; intros rows; simpl.
  - by rewrite app_nil_r.
  - rewrite (cons_middle _ rows), app_assoc, IH, loaded_snoc. simpl.
    by rewrite decide_True.
Qed.

(** Deleting this processor's rows by a test on the height is filtering
    the cache by the same test on the key. *)
Lemma loaded_filter_keys (pid : string) (Q : Z -> Prop)
    (P : Server.ValidBlockRow -> Prop) `{!forall r, Decision (P r)}
    (R : Z * string -> Prop) `{!forall kv, Decision (R kv)}
    (rows : list Server.ValidBlockRow) :
  (forall r, P r <-> ~ (Server.vb_processor_id r = pid /\ Q (Server.vb_height r))) ->
  (forall kv, R kv <-> ~ Q kv.1) ->
  loaded pid (filter P rows) = filter R (loaded pid rows).
Proof.
  intros HP HR. induction rows as [|r rows IH] using rev_ind;
    [unfold loaded; simpl; by rewrite map_filter_empty|].
  rewrite filter_app, filter_cons, filter_nil, loaded_snoc.
  destruct (decide (P r)) as [Hkeep|Hdrop].
  - rewrite loaded_snoc, IH. destruct (decide (Server.vb_processor_id r = pid)); [|done].
    rewrite map_filter_insert_True; [done|]. apply HR. simpl. apply HP in Hkeep. tauto.
  - rewrite app_nil_r, IH.
    destruct (decide (Server.vb_processor_id r = pid)) as [Hpid|Hpid].
    + rewrite map_filter_insert_not; [done|]. intros y Hy. apply HR in Hy. simpl in Hy.
      apply Hdrop, HP. tauto.
    + exfalso. apply Hdrop, HP. tauto.
Qed.

Lemma loaded_none (pid : string) (rows : list Server.ValidBlockRow) :
  loaded pid (filter (fun r => ~ Server.vb_processor_id r = pid) rows) = ∅.
Proof.
  unfold loaded. induction rows as [|r rows IH]; [done|].
  rewrite filter_cons. destruct (decide (~ Server.vb_processor_id r = pid)); [|done].
  by rewrite filter_cons_False.
Qed.

Lemma in_sync_loaded (e : VBM.Env) :
  in_sync e
  <-> VBM.validBlocks (VBM.self e)
      = loaded (VBM.processorId (VBM.self e)) (Server.valid_blocks (VBM.db e)).
Proof. unfold in_sync. rewrite initialize_effect. simpl. split; congruence. Qed.

Lemma in_sync_pruneOldBlocks (currentHeight : Z) (e : VBM.Env) :
  in_sync e -> in_sync (VBM.pruneOldBlocks currentHeight e).2.
Proof.
  rewrite !in_sync_loaded, pruneOldBlocks_effect. cbn zeta. cbn [snd VBM.self VBM.db
    VBM.validBlocks VBM.processorId]. intros Hsync.
  case_bool_decide as Hpruned.
  - cbn [Server.valid_blocks Server.set_valid_blocks].
    rewrite Hsync. symmetry.
    by apply (loaded_filter_keys _
                (fun h => h < currentHeight - VBM.finalityDepth (VBM.self e))).
  - rewrite <- Hsync. apply map_filter_id. intros i x Hix. simpl. intros Hlow.
    apply Hpruned. apply Nat.neq_0_lt_0. intros Hsize.
    apply map_size_empty_iff in Hsize.
    assert (Hin : filter (fun kv : Z * string =>
                    kv.1 < currentHeight - VBM.finalityDepth (VBM.self e))
                    (VBM.validBlocks (VBM.self e)) !! i = Some x)
      by (by apply map_lookup_filter_Some).
    rewrite Hsize in Hin. by rewrite lookup_empty in Hin.
Qed.

Lemma in_sync_addBlocks (blocks : list VBM.BlockRef) (e : VBM.Env) :
  in_sync e -> in_sync (VBM.addBlocks blocks e).2.
Proof.
  intros Hsync. destruct blocks as [|b rest]; [done|].
  rewrite addBlocks_effect. apply in_sync_pruneOldBlocks.
  apply in_sync_loaded in Hsync. apply in_sync_loaded.
  cbn [VBM.self VBM.db VBM.validBlocks VBM.processorId Server.valid_blocks
       Server.set_valid_blocks].
  by rewrite loaded_own, Hsync.
Qed.

(** X9. The cache of the manager mirrors the registry table: [initialize]
    brings it in step with the table, and [addBlock], [addBlocks],
    [handleReorg] and [clear] keep it in step, so that loading the cache
    again after any of them would change nothing. *)
Theorem registry_cache_mirrors_table (e : VBM.Env) :
  in_sync (VBM.initialize e).2
  /\ (in_sync e ->
      (forall h hs, in_sync (VBM.addBlock h hs e).2)
      /\ (forall blocks, in_sync (VBM.addBlocks blocks e).2)
      /\ (forall reorgHeight newBlocks, in_sync (VBM.handleReorg reorgHeight newBlocks e).2)
      /\ in_sync (VBM.clear e).2).
Proof.
  split; [by apply in_sync_loaded|]. intros Hsync.
  pose proof Hsync as Hcache. apply in_sync_loaded in Hcache.
  split; [|split; [|split]].
  - intros h hs. rewrite addBlock_effect. apply in_sync_pruneOldBlocks, in_sync_loaded.
    cbn [VBM.self VBM.db VBM.validBlocks VBM.processorId Server.valid_blocks
         Server.set_valid_blocks].
    rewrite loaded_snoc. simpl. by rewrite decide_True, Hcache.
  - intros blocks. by apply in_sync_addBlocks.
  - intros k newBlocks. rewrite handleReorg_effect. cbn zeta.
    match goal with |- in_sync (match newBlocks with [] => (_, ?e1) | _ => _ end).2 =>
      assert (Hsync1 : in_sync e1) end.
    { apply in_sync_loaded.
      cbn [VBM.self VBM.db VBM.validBlocks VBM.processorId Server.valid_blocks
           Server.set_valid_blocks].
      rewrite Hcache. symmetry. by apply (loaded_filter_keys _ (fun h => h >= k)). }
    destruct newBlocks as [|b rest]; [done|]. by apply in_sync_addBlocks.
  - rewrite clear_effect. apply in_sync_loaded.
    cbn [snd VBM.self VBM.db VBM.validBlocks VBM.processorId Server.valid_blocks
         Server.set_valid_blocks].
    by rewrite loaded_none.
Qed.


Lemma foldl_insert_lookup (base : gmap Z string) (blocks : list VBM.BlockRef)
    (h : Z) (hs : string) :
  foldl (fun m x => <[VBM.height x := VBM.hash x]> m) base blocks !! h = Some hs ->
  (exists b, b ∈ blocks /\ VBM.height b = h /\ VBM.hash b = hs) \/ base !! h = Some hs.
Proof.
  revert base. induction blocks as [|b blocks IH]; intros base; simpl; [by right|].
  intros Hfound. destruct (IH _ Hfound) as [(x & Hin & Hx) | Hbase].
  - left. exists x. split; [by right|done].
  - destruct (decide (VBM.height b = h)) as [Heq|Hne].
    + rewrite Heq, lookup_insert_eq in Hbase. injection Hbase as <-.
      left. exists b. split; [left|done].
    + rewrite lookup_insert_ne in Hbase by done. by right.
Qed.

(** X10. After [handleReorg(reorgHeight, newBlocks)] nothing of the
    abandoned fork is left: an entry of the cache, and a row of this
    processor in the table, either comes from [newBlocks] or lies below
    [reorgHeight] and was there before. *)
Theorem handleReorg_forgets_fork (e : VBM.Env) (reorgHeight : Z)
    (newBlocks : list VBM.BlockRef) :
  let e' := (VBM.handleReorg reorgHeight newBlocks e).2 in
  let pid := VBM.processorId (VBM.self e) in
  (forall h hs,
     VBM.validBlocks (VBM.self e') !! h = Some hs ->
     (exists b, b ∈ newBlocks /\ VBM.height b = h /\ VBM.hash b = hs)
     \/ (h < reorgHeight /\ VBM.validBlocks (VBM.self e) !! h = Some hs))
  /\ (forall r,
       r ∈ Server.valid_blocks (VBM.db e') ->
       Server.vb_processor_id r = pid ->
       (exists b, b ∈ newBlocks /\ r = VBM.row_of pid b)
       \/ (Server.vb_height r < reorgHeight /\ r ∈ Server.valid_blocks (VBM.db e))).
Proof.
  cbn zeta. rewrite handleReorg_effect. cbn zeta.
  destruct newBlocks as [|b rest].
  - cbn [snd VBM.self VBM.db VBM.validBlocks Server.valid_blocks Server.set_valid_blocks].
    split.
    + intros h hs Hh. apply map_lookup_filter_Some in Hh as [Hh Hlow]. simpl in Hlow.
      right. split; [lia|done].
    + intros r Hr Hpid. apply list_elem_of_filter in Hr as [Hlow Hr].
      right. split; [|done].
      destruct (decide (Server.vb_height r < reorgHeight)); [done|].
      exfalso. apply Hlow. split; [done|lia].
  - rewrite addBlocks_effect, pruneOldBlocks_effect. cbn zeta.
    cbn [snd VBM.self VBM.db VBM.validBlocks VBM.processorId VBM.finalityDepth].
    split.
    + intros h hs Hh. apply map_lookup_filter_Some in Hh as [Hh _].
      apply foldl_insert_lookup in Hh as [Hnew | Hold]; [by left|].
      apply map_lookup_filter_Some in Hold as [Hold Hlow]. simpl in Hlow.
      right. split; [lia|done].
    + intros r Hr Hpid.
      assert (Hin : r ∈ (filter (fun r0 => ~ (Server.vb_processor_id r0
                                              = VBM.processorId (VBM.self e)
                                              /\ Server.vb_height r0 >= reorgHeight))
                           (Server.valid_blocks (VBM.db e))
                         ++ (VBM.row_of (VBM.processorId (VBM.self e)) <$> b :: rest))%list).
      { destruct (bool_decide _) in Hr; [|exact Hr].
        cbn [Server.valid_blocks Server.set_valid_blocks] in Hr.
        by apply list_elem_of_filter in Hr as [_ Hr]. }
      apply elem_of_app in Hin as [Hold | Hnew].
      * apply list_elem_of_filter in Hold as [Hlow Hold]. right. split; [|done].
        destruct (decide (Server.vb_height r < reorgHeight)); [done|].
        exfalso. apply Hlow. split; [done|lia].
      * apply list_elem_of_fmap in Hnew as (x & -> & Hx). left. by exists x.
Qed.

Lemma foldl_min_spec (x : Z) (rest : list Z) :
  foldl Z.min x rest ∈ x :: rest /\ forall h, h ∈ x :: rest -> foldl Z.min x rest <= h.
Proof.
  revert x. induction rest as [|y rest IH]; intros x; simpl.
  - split; [left|]. intros h Hh. apply list_elem_of_singleton in Hh. lia.
  - destruct (IH (Z.min x y)) as [Hin Hlb]. split.
    + apply elem_of_cons in Hin as [Heq | Hin].
      * rewrite Heq. destruct (Z.min_spec x y) as [[_ ->]|[_ ->]].
        -- left.
        -- right. left.
      * right. by right.
    + assert (Hxy : foldl Z.min (Z.min x y) rest <= Z.min x y) by (apply Hlb; left).
      intros h Hh. apply elem_of_cons in Hh as [-> | Hh]; [lia|].
      apply elem_of_cons in Hh as [-> | Hh]; [lia|].
      apply Hlb. by right.
Qed.

(** The two ends of a cache that is not empty are keys of it and bound
    every key. *)
Lemma getLowestBlock_spec (m : VBM.t) (h : Z) (hs : string) :
  VBM.validBlocks m !! h = Some hs ->
  is_Some (VBM.validBlocks m !! VBM.getLowestBlock m) /\ VBM.getLowestBlock m <= h.
Proof.
  intros Hh. unfold VBM.getLowestBlock.
  assert (Hin : h ∈ (map_to_list (VBM.validBlocks m)).*1).
  { apply list_elem_of_fmap. exists (h, hs). split; [done|]. by apply elem_of_map_to_list. }
  destruct ((map_to_list (VBM.validBlocks m)).*1) as [|k keys] eqn:Hkeys;
    [by apply elem_of_nil in Hin|].
  destruct (foldl_min_spec k keys) as [Hmem Hlb]. split; [|by apply Hlb].
  rewrite <- Hkeys in Hmem. apply list_elem_of_fmap in Hmem as ([k' v] & Hk & Hkv).
  simpl in Hk. rewrite Hk. exists v. by apply elem_of_map_to_list.
Qed.

Lemma getHighestBlock_spec (m : VBM.t) (h : Z) (hs : string) :
  VBM.validBlocks m !! h = Some hs ->
  is_Some (VBM.validBlocks m !! VBM.getHighestBlock m) /\ h <= VBM.getHighestBlock m.
Proof.
  intros Hh. unfold VBM.getHighestBlock.
  assert (Hin : h ∈ (map_to_list (VBM.validBlocks m)).*1).
  { apply list_elem_of_fmap. exists (h, hs). split; [done|]. by apply elem_of_map_to_list. }
  destruct ((map_to_list (VBM.validBlocks m)).*1) as [|k keys] eqn:Hkeys;
    [by apply elem_of_nil in Hin|].
  destruct (foldl_max_spec k keys) as [Hmem Hub]. split; [|by apply Hub].
  rewrite <- Hkeys in Hmem. apply list_elem_of_fmap in Hmem as ([k' v] & Hk & Hkv).
  simpl in Hk. rewrite Hk. exists v. by apply elem_of_map_to_list.
Qed.

(** X11. With a finality depth that is not negative, the block handed to
    [addBlock] is valid afterwards, and the ends of the registry enclose
    it: [h - finalityDepth <= getLowestBlock <= h <= getHighestBlock]. *)
Theorem addBlock_window (e : VBM.Env) (h : Z) (hs : string) :
  0 <= VBM.finalityDepth (VBM.self e) ->
  let m := VBM.self (VBM.addBlock h hs e).2 in
  VBM.isValidBlock m h hs = true
  /\ h - VBM.finalityDepth (VBM.self e) <= VBM.getLowestBlock m
  /\ VBM.getLowestBlock m <= h
  /\ h <= VBM.getHighestBlock m.
Proof.
  intros Hdepth. cbn zeta. destruct (addBlock_self h hs e) as [_ Hself].
  assert (Hh : VBM.validBlocks (VBM.self (VBM.addBlock h hs e).2) !! h = Some hs).
  { rewrite Hself. simpl. apply map_lookup_filter_Some.
    rewrite lookup_insert_eq. split; [done|]. simpl. lia. }
  destruct (getLowestBlock_spec _ h hs Hh) as [[v Hlow] Hle].
  destruct (getHighestBlock_spec _ h hs Hh) as [_ Hge].
  split; [unfold VBM.isValidBlock; by apply bool_decide_eq_true|].
  split; [|done].
  set (low := VBM.getLowestBlock _) in *.
  rewrite Hself in Hlow. cbn [VBM.validBlocks] in Hlow.
  apply map_lookup_filter_Some in Hlow as [_ Hlow]. simpl in Hlow. lia.
Qed.


(** X12. [initialize] loads, for every height, the hash of the latest row
    this processor has in the table at that height, and nothing where it
    has none; rows of other processors are not loaded. *)
Theorem initialize_loads_latest_rows (e : VBM.Env) (h : Z) :
  VBM.validBlocks (VBM.self (VBM.initialize e).2) !! h
  = Server.vb_hash
      <$> last (filter (fun r => Server.vb_processor_id r = VBM.processorId (VBM.self e)
                                 /\ Server.vb_height r = h)
                  (Server.valid_blocks (VBM.db e))).
Proof.
  rewrite initialize_effect. cbn [snd VBM.self VBM.validBlocks].
  generalize (VBM.processorId (VBM.self e)) as pid.
  generalize (Server.valid_blocks (VBM.db e)) as rows. intros rows pid.
  induction rows as [|r rows IH] using rev_ind; [done|].
  rewrite loaded_snoc, filter_app, filter_cons, filter_nil.
  destruct (decide (Server.vb_processor_id r = pid)) as [Hpid|Hpid].
  - destruct (decide (Server.vb_height r = h)) as [Hh|Hh].
    + rewrite decide_True by done. rewrite last_snoc, Hh. simpl. apply lookup_insert_eq.
    + rewrite decide_False by tauto. rewrite app_nil_r, lookup_insert_ne by done. apply IH.
  - rewrite decide_False by tauto. rewrite app_nil_r. apply IH.
Qed.

Lemma others_after_delete (pid : string) (P : Server.ValidBlockRow -> Prop)
    `{!forall r, Decision (P r)} (rows : list Server.ValidBlockRow) :
  (forall r, Server.vb_processor_id r <> pid -> P r) ->
  filter (fun r => Server.vb_processor_id r <> pid) (filter P rows)
  = filter (fun r => Server.vb_processor_id r <> pid) rows.
Proof.
  intros HP. rewrite list_filter_filter. apply list_filter_iff.
  intros r. split; [tauto|]. intros Hr. split; [done|by apply HP].
Qed.

Lemma others_after_insert (pid : string) (rows : list Server.ValidBlockRow)
    (blocks : list VBM.BlockRef) :
  filter (fun r => Server.vb_processor_id r <> pid)
         (rows ++ (VBM.row_of pid <$> blocks))%list
  = filter (fun r => Server.vb_processor_id r <> pid) rows.
Proof.
  rewrite filter_app. induction blocks as [|b blocks IH]; simpl; [by rewrite app_nil_r|].
  rewrite filter_cons_False; [done|]. simpl. tauto.
Qed.

Lemma rows_of_others_pruneOldBlocks (currentHeight : Z) (e : VBM.Env) :
  rows_of_others (VBM.pruneOldBlocks currentHeight e).2 = rows_of_others e.
Proof.
  rewrite pruneOldBlocks_effect. cbn zeta. unfold rows_of_others.
  cbn [snd VBM.self VBM.db VBM.processorId].
  destruct (bool_decide _); [|done].
  cbn [Server.valid_blocks Server.set_valid_blocks].
  apply others_after_delete. intros r Hr. tauto.
Qed.

Lemma rows_of_others_addBlocks (blocks : list VBM.BlockRef) (e : VBM.Env) :
  rows_of_others (VBM.addBlocks blocks e).2 = rows_of_others e.
Proof.
  destruct blocks as [|b rest]; [done|].
  rewrite addBlocks_effect, rows_of_others_pruneOldBlocks. unfold rows_of_others.
  cbn [VBM.self VBM.db VBM.processorId Server.valid_blocks Server.set_valid_blocks].
  apply others_after_insert.
Qed.

(** X13. Managers of different processors share the registry table
    without touching each other's rows: no method adds, deletes or changes
    a row of another processor. *)
Theorem registry_leaves_other_processors_alone (e : VBM.Env) :
  rows_of_others (VBM.initialize e).2 = rows_of_others e
  /\ (forall h hs, rows_of_others (VBM.addBlock h hs e).2 = rows_of_others e)
  /\ (forall blocks, rows_of_others (VBM.addBlocks blocks e).2 = rows_of_others e)
  /\ (forall reorgHeight newBlocks,
        rows_of_others (VBM.handleReorg reorgHeight newBlocks e).2 = rows_of_others e)
  /\ rows_of_others (VBM.clear e).2 = rows_of_others e.
Proof.
  split; [done|]. split; [|split; [|split]].
  - intros h hs. rewrite addBlock_effect, rows_of_others_pruneOldBlocks.
    unfold rows_of_others.
    cbn [VBM.self VBM.db VBM.processorId Server.valid_blocks Server.set_valid_blocks].
    apply (others_after_insert _ _ [VBM.mkBlockRef h hs]).
  - intros blocks. apply rows_of_others_addBlocks.
  - intros k newBlocks. rewrite handleReorg_effect. cbn zeta.
    match goal with |- rows_of_others (match newBlocks with [] => (_, ?e1) | _ => _ end).2 = _ =>
      assert (Hfirst : rows_of_others e1 = rows_of_others e) end.
    { unfold rows_of_others.
      cbn [VBM.self VBM.db VBM.processorId Server.valid_blocks Server.set_valid_blocks].
      apply others_after_delete. intros r Hr. tauto. }
    destruct newBlocks as [|b rest]; [done|]. by rewrite rows_of_others_addBlocks.
  - rewrite clear_effect. unfold rows_of_others.
    cbn [snd VBM.self VBM.db VBM.processorId Server.valid_blocks Server.set_valid_blocks].
    apply others_after_delete. intros r Hr. tauto.
Qed.


(** Sample runs of the reconciler at [stale_world], and of the registry
    on [shared_registry]. *)
Lemma reconciler_converges_at_stale_world :
  let w' := (CD.detectAndRollbackStaleHotBlocks stale_state stale_world).2 in
  CD.detectAndRollbackStaleHotBlocks stale_state stale_world = (Js.Ok (Some cold_state), w')
  /\ CD.detectAndRollbackStaleHotBlocks cold_state w' = (Js.Ok None, w').
Proof.
  assert (Hrun : CD.detectAndRollbackStaleHotBlocks stale_state stale_world
                 = (Js.Ok (Some cold_state),
                    (CD.detectAndRollbackStaleHotBlocks stale_state stale_world).2))
    by (vm_compute; reflexivity).
  split; [exact Hrun|].
  exact (reconciler_converges stale_state cold_state stale_world _ Hrun).
Defined.

Lemma reconciler_keeps_cold_table_of_stale_world :
  let w' := (CD.detectAndRollbackStaleHotBlocks stale_state stale_world).2 in
  (forall table, table ∈ CD.migrateableTables (CD.this stale_world) ->
     "ethereum_cold_transfers" <> CD.hot_table (CD.this stale_world) table)
  /\ Server.tables (CD.server w') !! "ethereum_cold_transfers"
     = Server.tables (CD.server stale_world) !! "ethereum_cold_transfers"
  /\ Server.cold_status (CD.server w') = Server.cold_status (CD.server stale_world).
Proof.
  assert (Hname : forall table, table ∈ CD.migrateableTables (CD.this stale_world) ->
     "ethereum_cold_transfers" <> CD.hot_table (CD.this stale_world) table).
  { intros table Hin. apply list_elem_of_singleton in Hin. rewrite Hin.
    vm_compute. discriminate. }
  split; [exact Hname|].
  exact (reconciler_keeps_cold_zone stale_state stale_world "ethereum_cold_transfers" Hname).
Defined.

Lemma registry_cache_mirrors_shared_table :
  let e := (VBM.initialize shared_registry).2 in
  in_sync e
  /\ (forall h hs, in_sync (VBM.addBlock h hs e).2)
  /\ (forall blocks, in_sync (VBM.addBlocks blocks e).2)
  /\ (forall reorgHeight newBlocks, in_sync (VBM.handleReorg reorgHeight newBlocks e).2)
  /\ in_sync (VBM.clear e).2.
Proof.
  intros e.
  pose proof (proj1 (registry_cache_mirrors_table shared_registry)) as Hsync.
  split; [exact Hsync|].
  exact (proj2 (registry_cache_mirrors_table e) Hsync).
Defined.

Lemma addBlock_window_on_shared_registry :
  let e := (VBM.initialize shared_registry).2 in
  let m := VBM.self (VBM.addBlock 107 "0x107" e).2 in
  0 <= VBM.finalityDepth (VBM.self e)
  /\ VBM.isValidBlock m 107 "0x107" = true
  /\ 107 - VBM.finalityDepth (VBM.self e) <= VBM.getLowestBlock m
  /\ VBM.getLowestBlock m <= 107
  /\ 107 <= VBM.getHighestBlock m.
Proof.
  intros e.
  assert (Hdepth : 0 <= VBM.finalityDepth (VBM.self e)) by (vm_compute; discriminate).
  split; [exact Hdepth|].
  exact (addBlock_window e 107 "0x107" Hdepth).
Defined.

Example shared_registry_run :
  let e := (VBM.initialize shared_registry).2 in
  let e' := (VBM.addBlock 107 "0x107" e).2 in
  VBM.validBlocks (VBM.self e) = {[ 95 := "0x95"; 96 := "0x96b" ]}
  /\ VBM.validBlocks (VBM.self e') = {[ 107 := "0x107" ]}
  /\ Server.valid_blocks (VBM.db e')
     = [Server.mkValidBlockRow 96 "0x96" "other";
        Server.mkValidBlockRow 107 "0x107" "default"]
  /\ VBM.getLowestBlock (VBM.self e) = 95
  /\ VBM.getHighestBlock (VBM.self e) = 96.
Proof. vm_compute. repeat split. Qed.


(* ===================================================================== *)
(** * Ingest buffer: what a flush stores                                  *)
(* ===================================================================== *)

Lemma BATCH_SIZE_pos : 0 < CD.BATCH_SIZE.
Proof. reflexivity. Qed.

(** With nothing wrong on the wire the first attempt stores the chunk. *)
Lemma insertChunk_healthy (table : string) (chunk rows : list Server.Row) (w : CD.World) :
  CD.wire w = [] ->
  Server.tables (CD.server w) !! table = Some (Server.Rows rows) ->
  CD.insertChunk table chunk w
  = (Js.Ok tt,
     CD.on_server (Server.set_tables (insert table (Server.Rows (rows ++ chunk)%list))) w).
Proof.
  intros Hwire Hrows. destruct w as [[tb vb st cs nf] d wi sl]. simpl in *. subst wi.
  unfold CD.insertChunk. cbn [Js.for_break].
  unfold Js.bind at 1, Js.try_catch, Js.bind at 1, CD.client_insert, Js.bind at 1, Js.gets.
  cbn [CD.wire]. unfold CD.client, Js.zoom, Server.insert, Js.bind, Server.scan,
    Server.store, Js.modify, Js.ret.
  cbn [CD.server Server.tables]. rewrite Hrows. reflexivity.
Qed.

(** The chunk loop over a table that answers, from the chunk at [a] on,
    for any chunk size. *)
Section ChunkLoop.
Variable size : Z.
Hypothesis size_pos : 0 < size.

Lemma insert_chunks_from (table : string) (l rows : list Server.Row) (m a : nat)
    (w : CD.World) :
  CD.wire w = [] ->
  Server.tables (CD.server w) !! table
  = Some (Server.Rows (rows ++ take (a * Z.to_nat size) l)%list) ->
  Js.for_of ((fun k => Z.of_nat k * size) <$> seq a m)
    (fun i => CD.insertChunk table (Js.slice i (i + size) l)) w
  = (Js.Ok tt,
     CD.on_server (Server.set_tables
       (insert table (Server.Rows (rows ++ take ((a + m) * Z.to_nat size) l)%list)))
       w).
Proof.
  revert a w. induction m as [|m IH]; intros a w Hwire Hrows.
  - cbn [seq fmap list_fmap Js.for_of]. rewrite Nat.add_0_r. unfold Js.ret. f_equal.
    destruct w as [[tb vb st cs nf] d wi sl]. unfold CD.on_server, Server.set_tables.
    cbn [CD.server CD.this CD.wire CD.slept Server.tables Server.valid_blocks
         Server.status Server.cold_status Server.null_for_empty] in *.
    by rewrite insert_id.
  - cbn [seq fmap list_fmap Js.for_of]. unfold Js.bind at 1.
    rewrite (insertChunk_healthy table _ _ w Hwire Hrows).
    rewrite IH.
    + f_equal. destruct w as [[tb vb st cs nf] d wi sl].
      unfold CD.on_server, Server.set_tables.
      cbn [CD.server CD.this CD.wire CD.slept Server.tables Server.valid_blocks
           Server.status Server.cold_status Server.null_for_empty].
      rewrite insert_insert_eq.
      replace (S a + m)%nat with (a + S m)%nat by lia. reflexivity.
    + by destruct w.
    + destruct w as [[tb vb st cs nf] d wi sl].
      cbn [CD.on_server CD.server Server.set_tables Server.tables].
      rewrite lookup_insert_eq.
      do 2 f_equal. rewrite <- app_assoc. f_equal. unfold Js.slice.
      replace (Z.to_nat (Z.of_nat a * size + size - Z.of_nat a * size))
        with (Z.to_nat size) by lia.
      replace (Z.to_nat (Z.of_nat a * size)) with (a * Z.to_nat size)%nat by nia.
      rewrite take_take_drop. f_equal. lia.
Qed.

Lemma insert_chunks_all (table : string) (l rows : list Server.Row) (w : CD.World) :
  CD.wire w = [] ->
  Server.tables (CD.server w) !! table = Some (Server.Rows rows) ->
  Js.for_of ((fun k => Z.of_nat k * size)
               <$> seq 0 (Z.to_nat ((Z.of_nat (length l) + size - 1) / size)))
    (fun i => CD.insertChunk table (Js.slice i (i + size) l)) w
  = (Js.Ok tt,
     CD.on_server (Server.set_tables (insert table (Server.Rows (rows ++ l)%list))) w).
Proof.
  intros Hwire Hrows.
  rewrite (insert_chunks_from table l rows _ 0 w Hwire).
  - rewrite take_ge; [done|].
    set (n := Z.of_nat (length l)).
    assert (Hdiv : n <= (n + size - 1) / size * size).
    { pose proof (Z.div_mod (n + size - 1) size) as Hdm.
      pose proof (Z.mod_pos_bound (n + size - 1) size size_pos). lia. }
    assert (0 <= (n + size - 1) / size) by (apply Z.div_pos; lia).
    nia.
  - rewrite Nat.mul_0_l. cbn [take]. by rewrite app_nil_r.
Qed.

End ChunkLoop.

(** The chunks of the loop, one after the other, are the rows handed
    in. *)
Lemma insert_chunks_healthy (table : string) (l rows : list Server.Row) (w : CD.World) :
  CD.wire w = [] ->
  Server.tables (CD.server w) !! table = Some (Server.Rows rows) ->
  Js.for_of (CD.chunk_starts (Z.of_nat (length l)))
    (fun i => CD.insertChunk table (Js.slice i (i + CD.BATCH_SIZE) l)) w
  = (Js.Ok tt,
     CD.on_server (Server.set_tables (insert table (Server.Rows (rows ++ l)%list))) w).
Proof. exact (insert_chunks_all CD.BATCH_SIZE BATCH_SIZE_pos table l rows w). Qed.


(** One task of [Promise.all] on a table that answers. *)
Lemma flush_group_healthy (group : string * list ClickhouseStore.Entity)
    (rows : list Server.Row) (w : CD.World) :
  CD.wire w = [] ->
  Server.tables (CD.server w) !! group.1 = Some (Server.Rows rows) ->
  (let '(table, entities) := group in
   match entities with
   | [] => Js.ret tt
   | _ =>
       Js.for_of (CD.chunk_starts (Z.of_nat (length (CD.serializeEntity <$> entities))))
         (fun i => CD.insertChunk table
                     (Js.slice i (i + CD.BATCH_SIZE) (CD.serializeEntity <$> entities)))
   end) w
  = (Js.Ok tt, CD.on_server (Server.set_tables (fun t => stored_group t group)) w).
Proof.
  intros Hwire Hrows. destruct group as [table entities]. simpl in Hrows.
  destruct entities as [|entity entities].
  - unfold Js.ret, stored_group. f_equal. destruct w as [[tb vb st cs nf] d wi sl].
    unfold CD.on_server, Server.set_tables. simpl in *. rewrite Hrows.
    by rewrite app_nil_r, insert_id.
  - rewrite (insert_chunks_healthy table _ rows w Hwire Hrows).
    f_equal. destruct w as [[tb vb st cs nf] d wi sl].
    unfold CD.on_server, Server.set_tables, stored_group. simpl in *. by rewrite Hrows.
Qed.

Lemma stored_group_lookup (tables : gmap string Server.TableState)
    (group : string * list ClickhouseStore.Entity) (name : string) :
  stored_group tables group !! name
  = match tables !! name with
    | Some (Server.Rows rows) =>
        Some (Server.Rows
                (rows ++ (CD.serializeEntity
                            <$> if decide (group.1 = name) then group.2 else []))%list)
    | other => other
    end.
Proof.
  unfold stored_group. destruct (decide (group.1 = name)) as [<-|Hne].
  - destruct (tables !! group.1) as [[rows|e]|] eqn:Hrows; rewrite ?Hrows; try done.
    by rewrite lookup_insert_eq.
  - destruct (tables !! group.1) as [[rows|e]|] eqn:Hrows;
      [rewrite lookup_insert_ne by done|..];
      destruct (tables !! name) as [[rows'|e']|]; simpl; by rewrite ?app_nil_r.
Qed.

Lemma stored_groups_lookup (groups : list (string * list ClickhouseStore.Entity))
    (tables : gmap string Server.TableState) (name : string) :
  foldl stored_group tables groups !! name
  = match tables !! name with
    | Some (Server.Rows rows) =>
        Some (Server.Rows (rows ++ (CD.serializeEntity <$> gather name groups))%list)
    | other => other
    end.
Proof.
  revert tables. induction groups as [|group groups IH]; intros tables.
  - unfold gather. simpl. destruct (tables !! name) as [[rows|e]|]; by rewrite ?app_nil_r.
  - cbn [foldl]. rewrite IH, stored_group_lookup. unfold gather. cbn [fmap list_fmap concat].
    destruct (tables !! name) as [[rows|e]|]; try done.
    by rewrite fmap_app, app_assoc.
Qed.

(** The loop over the groups, when every group's table answers. *)
Lemma flush_groups_healthy (groups : list (string * list ClickhouseStore.Entity))
    (w : CD.World) :
  CD.wire w = [] ->
  (forall group, group ∈ groups -> answers w group.1) ->
  Js.for_of groups (fun group =>
    let '(table, entities) := group in
    match entities with
    | [] => Js.ret tt
    | _ =>
        Js.for_of (CD.chunk_starts (Z.of_nat (length (CD.serializeEntity <$> entities))))
          (fun i => CD.insertChunk table
                      (Js.slice i (i + CD.BATCH_SIZE) (CD.serializeEntity <$> entities)))
    end) w
  = (Js.Ok tt,
     CD.on_server (Server.set_tables (fun t => foldl stored_group t groups)) w).
Proof.
  revert w. induction groups as [|group groups IH]; intros w Hwire Hanswer.
  - simpl. unfold Js.ret. f_equal. by destruct w as [[tb vb st cs nf] d wi sl].
  - cbn [Js.for_of]. unfold Js.bind at 1.
    destruct (Hanswer group) as [rows Hrows]; [left|].
    rewrite (flush_group_healthy group rows w Hwire Hrows). rewrite IH.
    + reflexivity.
    + by destruct w.
    + intros g Hg. destruct (Hanswer g) as [rows' Hrows']; [by right|].
      unfold answers. destruct w as [[tb vb st cs nf] d wi sl]. simpl in *.
      rewrite stored_group_lookup, Hrows'. eauto.
Qed.

Lemma gather_absent (name : string) (groups : list (string * list ClickhouseStore.Entity)) :
  name ∉ groups.*1 -> gather name groups = [].
Proof.
  unfold gather. induction groups as [|g groups IH]; [done|]. simpl. intros Hname.
  apply not_elem_of_cons in Hname as [Hne Hname].
  rewrite decide_False by done. by apply IH.
Qed.

Lemma gather_app (name : string) (g1 g2 : list (string * list ClickhouseStore.Entity)) :
  gather name (g1 ++ g2) = (gather name g1 ++ gather name g2)%list.
Proof. unfold gather. by rewrite fmap_app, concat_app. Qed.

(** Pushing an entity to its group adds it at the end of what is gathered
    under its table, and nowhere else. *)
Lemma group_push_spec (table name : string) (entity : ClickhouseStore.Entity)
    (groups : list (string * list ClickhouseStore.Entity)) :
  NoDup groups.*1 ->
  NoDup (CD.group_push table entity groups).*1
  /\ gather name (CD.group_push table entity groups)
     = (gather name groups ++ if decide (table = name) then [entity] else [])%list
  /\ forall key, key ∈ (CD.group_push table entity groups).*1
                 <-> key ∈ groups.*1 \/ key = table.
Proof.
  intros Hnodup. unfold CD.group_push. case_bool_decide as Hin.
  - set (push := fun g : string * list ClickhouseStore.Entity =>
                   if bool_decide (g.1 = table) then (g.1, (g.2 ++ [entity])%list) else g).
    assert (Hkeys : (push <$> groups).*1 = groups.*1).
    { rewrite <- list_fmap_compose. apply list_fmap_ext. intros i g _. unfold push. simpl.
      by destruct (bool_decide (g.1 = table)). }
    rewrite Hkeys. split; [done|]. split.
    + clear Hkeys. induction groups as [|g groups IH]; [by apply elem_of_nil in Hin|].
      apply NoDup_cons in Hnodup as [Hfresh Hnodup]. simpl in Hfresh.
      unfold gather. cbn [fmap list_fmap concat]. fold (gather name (push <$> groups)).
      fold (gather name groups).
      destruct (decide (g.1 = table)) as [Hg|Hg].
      * assert (Hsame : push <$> groups = groups).
        { rewrite <- (list_fmap_id groups) at 2. apply list_fmap_ext. intros i x Hx.
          unfold push. rewrite bool_decide_eq_false_2; [done|]. intros Hxt.
          apply Hfresh. rewrite Hg, <- Hxt. apply list_elem_of_fmap. exists x.
          split; [done|]. by eapply list_elem_of_lookup_2. }
        assert (Hpush : push g = (g.1, (g.2 ++ [entity])%list))
          by (unfold push; by rewrite (bool_decide_eq_true_2 (g.1 = table))).
        rewrite Hsame, Hpush. cbn [fst snd]. rewrite Hg. destruct (decide (table = name)) as [Hname|Hname].
        -- rewrite (gather_absent name groups) by (by rewrite <- Hname, <- Hg).
           by rewrite !app_nil_r.
        -- by rewrite app_nil_r.
      * assert (Hpush : push g = g)
          by (unfold push; by rewrite (bool_decide_eq_false_2 (g.1 = table))).
        rewrite Hpush, IH; [by rewrite app_assoc|done|].
        simpl in Hin. apply elem_of_cons in Hin as [Hin|Hin]; [by symmetry in Hin|done].
    + intros key. split; [by left|]. intros [Hk| ->]; done.
  - rewrite fmap_app. simpl. split; [|split].
    + apply NoDup_app. split; [done|]. split; [|apply NoDup_singleton].
      intros key Hkey Hk. apply list_elem_of_singleton in Hk. by subst.
    + rewrite gather_app. f_equal. unfold gather. simpl.
      destruct (decide (table = name)); by rewrite ?app_nil_r.
    + intros key. rewrite elem_of_app, list_elem_of_singleton. tauto.
Qed.

(** [byTable] gathers under every table name the entities bound for it,
    in the order of the buffer, and has one group for each name. *)
Lemma byTable_spec (d : CD.t) (inserts : list ClickhouseStore.Entity) (name : string) :
  NoDup (CD.byTable d inserts).*1
  /\ gather name (CD.byTable d inserts) = bound_for d name inserts
  /\ forall key, key ∈ (CD.byTable d inserts).*1
                 <-> exists entity, entity ∈ inserts
                       /\ CD.getTableName d (ClickhouseStore.className entity) = key.
Proof.
  unfold CD.byTable, bound_for.
  induction inserts as [|entity inserts IH] using rev_ind.
  - simpl. split; [apply NoDup_nil_2|]. split; [done|]. intros key. split.
    + intros Hk. by apply elem_of_nil in Hk.
    + intros (e & He & _). by apply elem_of_nil in He.
  - rewrite foldl_snoc. destruct IH as (Hnodup & Hgather & Hkeys).
    destruct (group_push_spec (CD.getTableName d (ClickhouseStore.className entity)) name
                entity _ Hnodup) as (Hnodup' & Hgather' & Hkeys').
    split; [done|]. split.
    + rewrite Hgather', Hgather, filter_app, filter_cons, filter_nil.
      by destruct (decide (CD.getTableName d (ClickhouseStore.className entity) = name)).
    + intros key. rewrite Hkeys', Hkeys. split.
      * intros [(e & He & Hname) | ->].
        -- exists e. split; [|done]. apply elem_of_app. by left.
        -- exists entity. split; [|done]. apply elem_of_app. right. left.
      * intros (e & He & Hname). apply elem_of_app in He as [He|He].
        -- left. by exists e.
        -- apply list_elem_of_singleton in He. subst e. by right.
Qed.


(** X14. With nothing wrong on the wire and every table the buffer is
    bound for answering, [flushStore] returns, and every table then holds
    what it held followed by the serialized entities bound for it, in the
    order of the buffer; nothing else in the world has changed, and the
    buffer handed back is empty. *)
Theorem flushStore_stores_buffer (store : ClickhouseStore.t) (w : CD.World) :
  CD.wire w = [] ->
  (forall entity, entity ∈ ClickhouseStore.getInserts store ->
     answers w (CD.getTableName (CD.this w) (ClickhouseStore.className entity))) ->
  exists tables',
    CD.flushStore store w
    = (Js.Ok (match ClickhouseStore.getInserts store with
              | [] => store
              | _ :: _ => ClickhouseStore.new
              end),
       CD.on_server (Server.set_tables (fun _ => tables')) w)
    /\ forall name,
         tables' !! name
         = match Server.tables (CD.server w) !! name with
           | Some (Server.Rows rows) =>
               Some (Server.Rows
                       (rows ++ (CD.serializeEntity
                                   <$> bound_for (CD.this w) name
                                         (ClickhouseStore.getInserts store)))%list)
           | other => other
           end.
Proof.
  intros Hwire Hanswer. unfold CD.flushStore.
  destruct (ClickhouseStore.getInserts store) as [|entity inserts] eqn:Hins.
  - exists (Server.tables (CD.server w)). split.
    + unfold Js.ret. f_equal. by destruct w as [[tb vb st cs nf] d wi sl].
    + intros name. unfold bound_for. simpl.
      destruct (Server.tables (CD.server w) !! name) as [[rows|e]|];
        by rewrite ?app_nil_r.
  - set (groups := CD.byTable (CD.this w) (entity :: inserts)).
    exists (foldl stored_group (Server.tables (CD.server w)) groups). split.
    + unfold Js.bind at 1, Js.gets. unfold Js.bind at 1. fold groups.
      rewrite (flush_groups_healthy groups w Hwire).
      * unfold Js.ret, ClickhouseStore.clearBuffers. f_equal.
      * intros group Hgroup.
        destruct (byTable_spec (CD.this w) (entity :: inserts) group.1) as (_ & _ & Hkeys).
        destruct (proj1 (Hkeys group.1)) as (e & He & Hname).
        { apply list_elem_of_fmap. by exists group. }
        rewrite <- Hname. by apply Hanswer.
    + intros name. rewrite stored_groups_lookup. unfold groups.
      destruct (byTable_spec (CD.this w) (entity :: inserts) name) as (_ & -> & _).
      done.
Qed.

Lemma flushStore_stores_mixed_store :
  CD.wire catchup_world = []
  /\ (forall entity, entity ∈ ClickhouseStore.getInserts mixed_store ->
        answers catchup_world
          (CD.getTableName (CD.this catchup_world) (ClickhouseStore.className entity)))
  /\ exists tables',
       CD.flushStore mixed_store catchup_world
       = (Js.Ok (match ClickhouseStore.getInserts mixed_store with
                 | [] => mixed_store
                 | _ :: _ => ClickhouseStore.new
                 end),
          CD.on_server (Server.set_tables (fun _ => tables')) catchup_world)
       /\ forall name,
            tables' !! name
            = match Server.tables (CD.server catchup_world) !! name with
              | Some (Server.Rows rows) =>
                  Some (Server.Rows
                          (rows ++ (CD.serializeEntity
                                      <$> bound_for (CD.this catchup_world) name
                                            (ClickhouseStore.getInserts mixed_store)))%list)
              | other => other
              end.
Proof.
  assert (Hanswer : forall entity, entity ∈ ClickhouseStore.getInserts mixed_store ->
     answers catchup_world
       (CD.getTableName (CD.this catchup_world) (ClickhouseStore.className entity))).
  { intros entity Hin. simpl in Hin.
    rewrite !elem_of_cons, elem_of_nil in Hin.
    destruct Hin as [->|[->|[->|[]]]]; eexists; vm_compute; reflexivity. }
  split; [reflexivity|]. split; [exact Hanswer|].
  exact (flushStore_stores_buffer mixed_store catchup_world eq_refl Hanswer).
Defined.

Example mixed_store_run :
  let w' := (CD.flushStore mixed_store catchup_world).2 in
  Server.tables (CD.server w') !! "ethereum_cold_transfers"
  = Some (Server.Rows
            [transfer_row 5;
             [("height", Js.Number 7); ("value", Js.Str "5")];
             [("height", Js.Number 8); ("value", Js.Str "6")]])
  /\ Server.tables (CD.server w') !! "ethereum_cold_v3_swaps"
     = Some (Server.Rows [[("height", Js.Number 7)]]).
Proof. vm_compute. split; reflexivity. Qed.


(* ===================================================================== *)
(** * Ingest coordinator: checkpoints follow the data                     *)
(* ===================================================================== *)

Lemma saveStatus_effect (state : CD.DatabaseState) (w : CD.World) :
  CD.saveStatus state w
  = (Js.Ok tt,
     CD.on_server (Server.set_status (fun rows =>
       (rows ++ [status_row (CD.this w) state])%list)) w).
Proof.
  unfold CD.saveStatus, Js.JSON_stringify. by rewrite serialize_sanitized_chain.
Qed.

Lemma preserves_ledger_client_insert (table : string) (values : list Server.Row) :
  preserves ledger (CD.client_insert table values).
Proof.
  intros w. unfold CD.client_insert, Js.bind, Js.gets, Js.modify, Js.throw, CD.client,
    Js.zoom, Server.insert, Js.bind, Server.scan, Server.store, Js.modify.
  destruct w as [[tb vb st cs nf] d wi sl]. simpl.
  destruct wi as [|[e|] rest]; simpl; try done;
    by destruct (tb !! table) as [[rows|e]|].
Qed.

Lemma preserves_ledger_insertChunk (table : string) (chunk : list Server.Row) :
  preserves ledger (CD.insertChunk table chunk).
Proof.
  unfold CD.insertChunk. generalize [1; 2; 3]. intros attempts.
  induction attempts as [|attempt attempts IH]; simpl; [apply preserves_ret|].
  apply preserves_bind.
  - apply preserves_try_catch.
    + apply preserves_bind; [apply preserves_ledger_client_insert|].
      intros _. apply preserves_ret.
    + intros e. destruct (CD.isRetryable e && (attempt <? 3)); [|apply preserves_throw].
      apply preserves_bind; [|intros _; apply preserves_ret].
      apply preserves_modify. by intros [[tb vb st cs nf] d wi sl].
  - intros [|]; [apply preserves_ret|apply IH].
Qed.

(** A flush writes data tables only, whether it returns or throws. *)
Lemma preserves_ledger_flushStore (store : ClickhouseStore.t) :
  preserves ledger (CD.flushStore store).
Proof.
  unfold CD.flushStore. destruct (ClickhouseStore.getInserts store); [apply preserves_ret|].
  apply preserves_bind; [apply preserves_gets|]. intros d.
  apply preserves_bind; [|intros _; apply preserves_ret].
  apply preserves_for_of. intros [table [|entity entities]]; [apply preserves_ret|].
  apply preserves_for_of. intros i. apply preserves_ledger_insertChunk.
Qed.

Lemma with_local_reads {T A} (init : T) (m : Js.M T A) (w : CD.World) :
  (Js.with_local init m w).2 = w.
Proof. unfold Js.with_local. by destruct (m init) as [[?|?] ?]. Qed.



Example transact_runs :
  CD.transact final_info failing_callback catchup_world
  = (Js.Throw syntax_error, catchup_world)
  /\ (let run := CD.transact final_info
                   (ClickhouseStore.insert (ClickhouseStore.getInserts mixed_store))
                   catchup_world in
      run.1 = Js.Ok tt
      /\ Server.status (CD.server run.2)
         = [Server.mkStatusRow "default" 7 "0x7" EmptyString "[]" 7]
      /\ CD.finalizedHeight (CD.this run.2) = 7).
Proof. repeat split; by vm_compute. Qed.


Lemma bind_Ok_inv {S A B} (m : Js.M S A) (k : A -> Js.M S B) (s s' : S) (b : B) :
  Js.bind m k s = (Js.Ok b, s') ->
  exists a s1, m s = (Js.Ok a, s1) /\ k a s1 = (Js.Ok b, s').
Proof.
  unfold Js.bind. destruct (m s) as [[a|e] s1]; [|done]. intros Hk. by exists a, s1.
Qed.

Lemma registry_keeps_status (e : VBM.Env) :
  (forall h hs, Server.status (VBM.db (VBM.addBlock h hs e).2) = Server.status (VBM.db e))
  /\ (forall k blocks,
        Server.status (VBM.db (VBM.handleReorg k blocks e).2) = Server.status (VBM.db e)).
Proof.
  assert (Hprune : forall c e0,
    Server.status (VBM.db (VBM.pruneOldBlocks c e0).2) = Server.status (VBM.db e0)).
  { intros c e0. rewrite pruneOldBlocks_effect. cbn zeta. cbn [snd VBM.db].
    by destruct (bool_decide _). }
  split.
  - intros h hs. by rewrite addBlock_effect, Hprune.
  - intros k blocks. rewrite handleReorg_effect. cbn zeta.
    destruct blocks as [|b rest]; [done|]. by rewrite addBlocks_effect, Hprune.
Qed.

(** A call of the registry changes the registry, in memory and on the
    server. *)
Lemma manager_footprint {A} (m : Js.M VBM.Env A) (w : CD.World) :
  (forall e, Server.status (VBM.db (m e).2) = Server.status (VBM.db e)) ->
  books (CD.manager m w).2 = books w
  /\ CD.hotBlocks (CD.this (CD.manager m w).2) = CD.hotBlocks (CD.this w).
Proof.
  intros Hm. unfold CD.manager, Js.zoom, books.
  specialize (Hm (VBM.mkEnv (CD.validBlocksManager (CD.this w)) (CD.server w))).
  destruct (m _) as [r e']. simpl in *. by rewrite Hm.
Qed.

Lemma flushStore_footprint (store : ClickhouseStore.t) (w : CD.World) :
  books (CD.flushStore store w).2 = books w
  /\ CD.this (CD.flushStore store w).2 = CD.this w.
Proof.
  pose proof (preserves_ledger_flushStore store w) as Hflush. unfold ledger, books in *.
  destruct (CD.flushStore store w) as [r w1]. simpl in *. by injection Hflush as _ -> _ ->.
Qed.

Lemma manager_self {A} (m : Js.M VBM.Env A) (w : CD.World) :
  CD.validBlocksManager (CD.this (CD.manager m w).2)
  = VBM.self (m (VBM.mkEnv (CD.validBlocksManager (CD.this w)) (CD.server w))).2.
Proof. unfold CD.manager, Js.zoom. by destruct (m _) as [r e']. Qed.

(** One pass of the loop of [transactHot], when it gets to its end: the
    block is on the hot chain and in the registry. *)
Lemma hot_block_step_effect (cb : CD.BlockRef -> Js.M ClickhouseStore.t unit)
    (block : CD.BlockRef) (w w' : CD.World) :
  hot_block_step cb block w = (Js.Ok tt, w') ->
  let m := CD.validBlocksManager (CD.this w) in
  books w' = books w
  /\ CD.hotBlocks (CD.this w') = (CD.hotBlocks (CD.this w) ++ [block])%list
  /\ CD.validBlocksManager (CD.this w')
     = if VBM.isValidBlock m (CD.height block) (CD.hash block) then m
       else VBM.mk (VBM.processorId m) (VBM.finalityDepth m)
              (filter (fun kv => ~ kv.1 < CD.height block - VBM.finalityDepth m)
                 (<[CD.height block := CD.hash block]> (VBM.validBlocks m))).
Proof.
  intros Hbody. cbn zeta. unfold hot_block_step in Hbody.
  apply bind_Ok_inv in Hbody as (store & w1 & Hcb & Hbody).
  pose proof (with_local_reads ClickhouseStore.new (cb block) w) as Hw1.
  rewrite Hcb in Hw1. simpl in Hw1. subst w1.
  apply bind_Ok_inv in Hbody as (flushed & w2 & Hflush & Hbody).
  destruct (flushStore_footprint store w) as [Hb2 Ht2]. rewrite Hflush in Hb2, Ht2.
  simpl in Hb2, Ht2.
  apply bind_Ok_inv in Hbody as (known & w2' & [= <- <-] & Hbody).
  apply bind_Ok_inv in Hbody as ([] & w3 & Hadd & [= <-]).
  rewrite <- Ht2.
  destruct (VBM.isValidBlock (CD.validBlocksManager (CD.this w2)) _ _) eqn:Hknown;
    cbn [negb] in Hadd.
  - injection Hadd as <-. destruct w2 as [srv2 d2 wi2 sl2]. unfold books in *.
    cbn [CD.this CD.server CD.on_this] in *. split; [by destruct d2|].
    split; by destruct d2.
  - destruct (manager_footprint (VBM.addBlock (CD.height block) (CD.hash block)) w2)
      as [Hb Hc].
    { intros e. exact (proj1 (registry_keeps_status e) _ _). }
    pose proof (manager_self (VBM.addBlock (CD.height block) (CD.hash block)) w2) as Hm.
    rewrite Hadd in Hb, Hc, Hm. cbn [snd] in Hb, Hc, Hm.
    destruct (addBlock_self (CD.height block) (CD.hash block)
                (VBM.mkEnv (CD.validBlocksManager (CD.this w2)) (CD.server w2)))
      as [_ Hself].
    rewrite Hself in Hm. cbn [VBM.self VBM.processorId VBM.finalityDepth VBM.validBlocks]
      in Hm.
    destruct w3 as [srv3 d3 wi3 sl3]. unfold books in *. cbn [CD.this CD.server CD.on_this
      CD.hotBlocks CD.set_hotBlocks CD.validBlocksManager CD.hotBlocksDepth CD.processorId]
      in *.
    split; [congruence|]. split; [by rewrite Hc|]. rewrite <- Hm. by destruct d3.
Qed.

(** The loop of [transactHot] over the new blocks, when it gets to its
    end: every block is on the hot chain, in order. *)
Lemma hot_loop_appends (cb : CD.BlockRef -> Js.M ClickhouseStore.t unit)
    (blocks : list CD.BlockRef) (w w' : CD.World) :
  Js.for_of blocks (hot_block_step cb) w = (Js.Ok tt, w') ->
  books w' = books w
  /\ CD.hotBlocks (CD.this w') = (CD.hotBlocks (CD.this w) ++ blocks)%list.
Proof.
  revert w. induction blocks as [|block blocks IH]; intros w Hloop.
  - injection Hloop as <-. by rewrite app_nil_r.
  - cbn [Js.for_of] in Hloop.
    apply bind_Ok_inv in Hloop as ([] & w1 & Hbody & Hrest).
    apply IH in Hrest as [Hbooks Hchain]. rewrite Hbooks, Hchain.
    apply hot_block_step_effect in Hbody as (Hb & Hc & _).
    by rewrite Hb, Hc, <- app_assoc.
Qed.

Lemma last_drop_lt {A} (l : list A) (k : nat) :
  (k < length l)%nat -> last (drop k l) = last l.
Proof.
  intros Hk. rewrite !last_lookup, lookup_drop, length_drop. f_equal. lia.
Qed.

(** Cutting to a positive depth keeps the end of the chain and at most
    [depth] blocks. *)
Lemma cut_to_depth_spec (depth : Z) (chain : list CD.BlockRef) :
  0 < depth ->
  Z.of_nat (length (cut_to_depth depth chain)) <= depth
  /\ last (cut_to_depth depth chain) = last chain.
Proof.
  intros Hdepth. unfold cut_to_depth. case_bool_decide as Hlong; [|split; [lia|done]].
  unfold Js.slice_from. replace (- depth <? 0) with true by (symmetry; apply Z.ltb_lt; lia).
  rewrite length_drop. split; [lia|]. apply last_drop_lt. lia.
Qed.

(** The first two steps of [transactHot], finality and reorg, take blocks
    off the hot chain and write no checkpoint. *)
Lemma finality_step_footprint (info : CD.HotTxInfo) (w w1 : CD.World) :
  finality_step info (CD.finalizedHeight (CD.this w)) w = (Js.Ok tt, w1) ->
  books w1 = books w /\ CD.this w1 = after_finality info (CD.this w).
Proof.
  unfold finality_step, after_finality. destruct (bool_decide _); intros [= <-]; done.
Qed.

Lemma reorg_step_footprint (info : CD.HotTxInfo) (reorgDetected : bool) (w w1 : CD.World) :
  reorg_step info reorgDetected w = (Js.Ok tt, w1) ->
  books w1 = books w
  /\ CD.hotBlocks (CD.this w1)
     = if reorgDetected
       then filter (fun b => CD.height b
                             <= CD.findCommonAncestor (CD.this w) (CD.newBlocks info))
                   (CD.hotBlocks (CD.this w))
       else CD.hotBlocks (CD.this w).
Proof.
  unfold reorg_step. destruct reorgDetected; [|by intros [= <-]]. intros Hstep.
  apply bind_Ok_inv in Hstep as (rollbackHeight & w0 & [= <- <-] & Hstep).
  apply bind_Ok_inv in Hstep as ([] & w2 & Hreorg & [= <-]).
  destruct (manager_footprint
              (VBM.handleReorg (CD.findCommonAncestor (CD.this w) (CD.newBlocks info) + 1)
                 (CD.registryRef <$> CD.newBlocks info))
              w) as [Hb Hc].
  { intros e. exact (proj2 (registry_keeps_status e) _ _). }
  rewrite Hreorg in Hb, Hc. simpl in Hb, Hc.
  destruct w2 as [srv2 d2 wi2 sl2]. unfold books in *. simpl in *.
  split; [done|]. by rewrite <- Hc.
Qed.

Lemma kept_chain_sublist (info : CD.HotTxInfo) (d : CD.t) :
  kept_chain info d `sublist_of` CD.hotBlocks d.
Proof.
  assert (Hfinal : CD.hotBlocks (after_finality info d) `sublist_of` CD.hotBlocks d).
  { unfold after_finality. case_bool_decide; [apply sublist_filter|done]. }
  unfold kept_chain. cbn zeta. destruct (CD.detectReorg _ _); [|done].
  etrans; [apply sublist_filter|done].
Qed.

Section HotBatch.

Variable hooks : option CD.MigrationHooks.

(** As for the empty batch, the user's own migration is assumed to leave
    the live checkpoint, the registry and the hot chain alone. *)
Hypothesis custom_frame :
  forall custom, hooks ≫= CD.customMigration = Some custom ->
                 preserves live_view custom.

(** A call of [transactHot] that returns has gone through all of its
    steps: finality, reorg, the loop over the blocks, the cut of the
    chain, the checkpoint and the migration trigger. *)
Lemma transactHot_steps (info : CD.HotTxInfo)
    (cb : CD.BlockRef -> Js.M ClickhouseStore.t unit) (w w' : CD.World) :
  CD.transactHot hooks info cb w = (Js.Ok tt, w') ->
  exists w1 w2 w3,
    finality_step info (CD.finalizedHeight (CD.this w)) w = (Js.Ok tt, w1)
    /\ reorg_step info (CD.detectReorg (CD.this w1) (CD.newBlocks info)) w1 = (Js.Ok tt, w2)
    /\ Js.for_of (CD.newBlocks info) (hot_block_step cb) w2 = (Js.Ok tt, w3)
    /\ CD.hotBlocks (CD.this w')
       = cut_to_depth (CD.hotBlocksDepth (CD.this w3)) (CD.hotBlocks (CD.this w3))
    /\ CD.validBlocksManager (CD.this w') = CD.validBlocksManager (CD.this w3)
    /\ Server.status (CD.server w')
       = match last (CD.newBlocks info) with
         | Some lastBlock =>
             (Server.status (CD.server w3)
              ++ [Server.mkStatusRow (CD.processorId (CD.this w3)) (CD.height lastBlock)
                    (CD.hash lastBlock) (CD.parent_or_empty (CD.hotBlocks (CD.this w')))
                    (pairs_text (height_and_hash <$> CD.hotBlocks (CD.this w')))
                    (CD.finalizedHeight (CD.this w3))])%list
         | None => Server.status (CD.server w3)
         end.
Proof using custom_frame.
  intros Hrun.
  change (CD.transactHot hooks info cb w)
    with ((previous <- Js.gets (fun w => CD.finalizedHeight (CD.this w)) ;;;
           finality_step info previous ;;;
           reorgDetected <- Js.gets (fun w => CD.detectReorg (CD.this w)
                                                (CD.newBlocks info)) ;;;
           reorg_step info reorgDetected ;;;
           Js.for_of (CD.newBlocks info) (hot_block_step cb) ;;;
           Js.modify (CD.on_this (fun d =>
             if bool_decide (Z.of_nat (length (CD.hotBlocks d)) > CD.hotBlocksDepth d)
             then CD.set_hotBlocks (Js.slice_from (- CD.hotBlocksDepth d)) d
             else d)) ;;;
           match last (CD.newBlocks info) with
           | Some lastBlock =>
               d <- Js.gets CD.this ;;;
               CD.saveStatus (CD.mkDatabaseState (CD.height lastBlock) (CD.hash lastBlock)
                                (CD.hotBlocks d) None)
           | None => Js.ret tt
           end ;;;
           CD.autoMigration hooks previous (CD.newBlocks info)) w) in Hrun.
  apply bind_Ok_inv in Hrun as (previous & w0 & [= <- <-] & Hrun).
  apply bind_Ok_inv in Hrun as ([] & w1 & Hfinal & Hrun).
  apply bind_Ok_inv in Hrun as (reorgDetected & w1' & [= <- <-] & Hrun).
  apply bind_Ok_inv in Hrun as ([] & w2 & Hreorg & Hrun).
  apply bind_Ok_inv in Hrun as ([] & w3 & Hloop & Hrun).
  apply bind_Ok_inv in Hrun as ([] & w4 & [= <-] & Hrun).
  apply bind_Ok_inv in Hrun as ([] & w5 & Hsave & Hrun).
  exists w1, w2, w3. split; [done|]. split; [done|]. split; [done|].
  pose proof (preserves_live_autoMigration hooks custom_frame
                (CD.finalizedHeight (CD.this w)) (CD.newBlocks info) w5) as Hlive.
  rewrite Hrun in Hlive. unfold live_view in Hlive. cbn [snd] in Hlive.
  injection Hlive as Hstatus _ Hmanager Hchain.
  rewrite Hstatus, Hmanager, Hchain. clear Hrun Hstatus Hmanager Hchain.
  destruct w3 as [srv3 d3 wi3 sl3].
  assert (Hcut : CD.hotBlocks
            (if bool_decide (Z.of_nat (length (CD.hotBlocks d3)) > CD.hotBlocksDepth d3)
             then CD.set_hotBlocks (Js.slice_from (- CD.hotBlocksDepth d3)) d3 else d3)
          = cut_to_depth (CD.hotBlocksDepth d3) (CD.hotBlocks d3))
    by (unfold cut_to_depth; by case_bool_decide).
  destruct (last (CD.newBlocks info)) as [lastBlock|].
  - apply bind_Ok_inv in Hsave as (d4 & w4' & [= <- <-] & Hsave).
    rewrite saveStatus_effect in Hsave. injection Hsave as <-.
    cbn [CD.server CD.this CD.on_server CD.on_this Server.status Server.set_status].
    rewrite Hcut. split; [done|]. split; [by case_bool_decide|].
    unfold status_row. cbn [CD.st_height CD.st_hash CD.top].
    do 3 f_equal; by case_bool_decide.
  - injection Hsave as <-.
    cbn [CD.server CD.this CD.on_server CD.on_this Server.status Server.set_status].
    rewrite Hcut. split; [done|]. split; [by case_bool_decide|done].
Qed.

(** X16. When [transactHot] returns on a batch that brings blocks, the
    live checkpoint mirrors the memory of the adapter: exactly one row has
    been appended, with the height and hash of the last block of the
    batch and the hot chain as it then is in memory; that chain is what
    finality and the rollback to the common ancestor have left of the old
    one, followed by the whole batch, cut to [hotBlocksDepth]; with a
    positive depth it is no longer than the depth and ends with the last
    block of the batch. *)
Theorem transactHot_checkpoint_mirrors_chain (info : CD.HotTxInfo)
    (cb : CD.BlockRef -> Js.M ClickhouseStore.t unit) (w w' : CD.World)
    (lastBlock : CD.BlockRef) :
  CD.transactHot hooks info cb w = (Js.Ok tt, w') ->
  last (CD.newBlocks info) = Some lastBlock ->
  exists row,
    kept_chain info (CD.this w) `sublist_of` CD.hotBlocks (CD.this w)
    /\ CD.hotBlocks (CD.this w')
       = cut_to_depth (CD.hotBlocksDepth (CD.this w))
           (kept_chain info (CD.this w) ++ CD.newBlocks info)
    /\ Server.status (CD.server w') = (Server.status (CD.server w) ++ [row])%list
    /\ Server.sr_id row = CD.processorId (CD.this w)
    /\ Server.sr_height row = CD.height lastBlock
    /\ Server.sr_hash row = CD.hash lastBlock
    /\ Server.sr_hot_blocks row
       = pairs_text (height_and_hash <$> CD.hotBlocks (CD.this w'))
    /\ (0 < CD.hotBlocksDepth (CD.this w) ->
        Z.of_nat (length (CD.hotBlocks (CD.this w'))) <= CD.hotBlocksDepth (CD.this w)
        /\ last (CD.hotBlocks (CD.this w')) = Some lastBlock).
Proof using custom_frame.
  intros Hrun Hlast.
  apply transactHot_steps in Hrun
    as (w1 & w2 & w3 & Hfinal & Hreorg & Hloop & Hcut & _ & Hstatus).
  apply finality_step_footprint in Hfinal as [Hb1 Hd1].
  apply reorg_step_footprint in Hreorg as [Hb2 Hc2].
  rewrite Hd1 in Hc2. fold (kept_chain info (CD.this w)) in Hc2.
  apply hot_loop_appends in Hloop as [Hb3 Hc3]. rewrite Hc2 in Hc3.
  assert (Hbooks : books w3 = books w) by congruence.
  unfold books in Hbooks. injection Hbooks as Hst Hdepth Hpid.
  rewrite Hlast, Hst, Hpid in Hstatus. rewrite Hdepth, Hc3 in Hcut.
  eexists.
  split; [apply kept_chain_sublist|]. split; [exact Hcut|].
  split; [exact Hstatus|].
  split; [done|]. split; [done|]. split; [done|]. split; [done|].
  intros Hpos. rewrite Hcut.
  destruct (cut_to_depth_spec (CD.hotBlocksDepth (CD.this w))
              (kept_chain info (CD.this w) ++ CD.newBlocks info) Hpos) as [Hlen Hend].
  split; [done|]. by rewrite Hend, last_app, Hlast.
Qed.

End HotBatch.


Lemma transactHot_checkpoint_at_tip_world :
  let w' := (CD.transactHot None next_info one_transfer tip_world).2 in
  (forall custom, None ≫= CD.customMigration = Some custom -> preserves live_view custom)
  /\ CD.transactHot None next_info one_transfer tip_world = (Js.Ok tt, w')
  /\ last (CD.newBlocks next_info) = Some (block 104 "0xe")
  /\ exists row,
       kept_chain next_info (CD.this tip_world) `sublist_of` CD.hotBlocks (CD.this tip_world)
       /\ CD.hotBlocks (CD.this w')
          = cut_to_depth (CD.hotBlocksDepth (CD.this tip_world))
              (kept_chain next_info (CD.this tip_world) ++ CD.newBlocks next_info)
       /\ Server.status (CD.server w') = (Server.status (CD.server tip_world) ++ [row])%list
       /\ Server.sr_id row = CD.processorId (CD.this tip_world)
       /\ Server.sr_height row = CD.height (block 104 "0xe")
       /\ Server.sr_hash row = CD.hash (block 104 "0xe")
       /\ Server.sr_hot_blocks row
          = pairs_text (height_and_hash <$> CD.hotBlocks (CD.this w'))
       /\ (0 < CD.hotBlocksDepth (CD.this tip_world) ->
           Z.of_nat (length (CD.hotBlocks (CD.this w')))
           <= CD.hotBlocksDepth (CD.this tip_world)
           /\ last (CD.hotBlocks (CD.this w')) = Some (block 104 "0xe")).
Proof.
  intros w'.
  assert (Hframe : forall custom,
            None ≫= CD.customMigration = Some custom -> preserves live_view custom)
    by (intros custom Hc; discriminate Hc).
  assert (Hrun : CD.transactHot None next_info one_transfer tip_world = (Js.Ok tt, w'))
    by (vm_compute; reflexivity).
  split; [exact Hframe|]. split; [exact Hrun|]. split; [reflexivity|].
  exact (transactHot_checkpoint_mirrors_chain None Hframe next_info one_transfer
           tip_world w' (block 104 "0xe") Hrun eq_refl).
Defined.

(* ===================================================================== *)
(** * Zone router and entity serialization                                *)
(* ===================================================================== *)

(** X17. The zone router and the migration engine agree on names: every
    class has one table name such that its entities are bound for the hot
    table of that name once [setIsAtChainTip(true)] was called and for the
    cold table of that name once [setIsAtChainTip(false)] was called;
    [setIsAtChainTip] changes nothing but that flag. *)
Theorem zone_router_follows_chain_tip (className : string) :
  exists table, forall (isHead : bool) (w : CD.World),
    let w' := (CD.setIsAtChainTip isHead w).2 in
    CD.getTableName (CD.this w') className
    = (if isHead then CD.hot_table (CD.this w) table else CD.cold_table (CD.this w) table)
    /\ w' = CD.on_this (CD.set_isAtChainTip isHead) w.
Proof.
  eexists. intros isHead w. cbn zeta.
  assert (Hset : (CD.setIsAtChainTip isHead w).2 = CD.on_this (CD.set_isAtChainTip isHead) w).
  { unfold CD.setIsAtChainTip, Js.modify, CD.on_this. cbn [snd]. f_equal.
    case_bool_decide as Hflag; [done|].
    assert (CD.isAtChainTip (CD.this w) = isHead) as <-
      by (destruct (CD.isAtChainTip (CD.this w)), isHead; congruence).
    by destruct (CD.this w). }
  rewrite Hset. split; [|done].
  unfold CD.getTableName, CD.hot_table, CD.cold_table. cbn [CD.this CD.on_this
    CD.isAtChainTip CD.network CD.set_isAtChainTip].
  destruct isHead; reflexivity.
Qed.

Lemma object_body_fails {A} (ser : A -> Js.Ser) (fields : list (string * A))
    (first : bool) :
  Js.object_body ser fields first = None
  <-> exists k x, (k, x) ∈ fields /\ ser x = Js.STypeError.
Proof.
  revert first. induction fields as [|[k x] fields IH]; intros first.
  - split; [done|]. intros (k & x & Hin & _). by apply elem_of_nil in Hin.
  - change (Js.object_body ser ((k, x) :: fields) first)
      with (match ser x with
            | Js.STypeError => None
            | Js.SNothing => Js.object_body ser fields first
            | Js.SText t =>
                (fun r => Js.comma first +:+ Js.quote k +:+ ":" +:+ t +:+ r)
                  <$> Js.object_body ser fields false
            end).
    destruct (ser x) eqn:Hx.
    + split; [|done]. intros _. exists k, x. split; [left|done].
    + rewrite IH. split; intros (k' & x' & Hin & Hx').
      * exists k', x'. split; [by right|done].
      * apply elem_of_cons in Hin as [[= -> ->]|Hin]; [congruence|eauto].
    + rewrite fmap_None, IH. split; intros (k' & x' & Hin & Hx').
      * exists k', x'. split; [by right|done].
      * apply elem_of_cons in Hin as [[= -> ->]|Hin]; [congruence|eauto].
Qed.

(** X18. [serializeEntity] keeps the keys of an entity in their order and
    removes the wide integers at its top level, and only those, as a cause
    for the serializer to fail: the serialized entity cannot be put into
    text exactly when some property that is not itself a wide integer
    cannot, as an array that holds one. *)
Theorem serializeEntity_removes_top_level_bigint (entity : ClickhouseStore.Entity) :
  (CD.serializeEntity entity).*1 = (ClickhouseStore.props entity).*1
  /\ (Js.serialize (Js.Object (CD.serializeEntity entity)) = Js.STypeError
      <-> exists k v, (k, v) ∈ ClickhouseStore.props entity
                      /\ (forall n, v <> Js.BigInt n)
                      /\ Js.serialize v = Js.STypeError).
Proof.
  unfold CD.serializeEntity. generalize (CD.hexFieldsOf entity) as hexFields.
  intros hexFields. split.
  - rewrite <- list_fmap_compose. apply list_fmap_ext. intros i [k v] _.
    unfold CD.serializeField. simpl. destruct v; try done. by case_bool_decide.
  - assert (Hfield : forall k v,
      Js.serialize (CD.serializeField hexFields (k, v)).2 = Js.STypeError
      <-> (forall n, v <> Js.BigInt n) /\ Js.serialize v = Js.STypeError).
    { intros k v. unfold CD.serializeField.
      destruct v; try (split; [intros Hv; split; [done|exact Hv]|by intros [_ Hv]]).
      - split; [done|]. intros [Hn _]. by destruct (Hn n).
      - case_bool_decide; (split; [done|by intros [_ Hv]]). }
    cbn [Js.serialize].
    destruct (Js.object_body Js.serialize (CD.serializeField hexFields
                <$> ClickhouseStore.props entity) true) as [body|] eqn:Hbody.
    + split; [done|]. intros (k & v & Hin & Hv).
      assert (Hnone : Js.object_body Js.serialize
                (CD.serializeField hexFields <$> ClickhouseStore.props entity) true = None).
      { apply object_body_fails.
        exists (CD.serializeField hexFields (k, v)).1, (CD.serializeField hexFields (k, v)).2.
        split; [|by apply Hfield].
        apply list_elem_of_fmap. exists (k, v). split; [|done].
        by destruct (CD.serializeField hexFields (k, v)). }
      congruence.
    + split; [|done]. intros _. apply object_body_fails in Hbody as (k & x & Hin & Hx).
      apply list_elem_of_fmap in Hin as ([k0 v] & Heq & Hin).
      exists k0, v. split; [done|]. apply (Hfield k0). by rewrite <- Heq.
Qed.

Example nested_entity_still_fails :
  Js.serialize (Js.Object (CD.serializeEntity nested_entity)) = Js.STypeError
  /\ CD.serializeEntity nested_entity
     = [("reserve", Js.Str "9"); ("path", Js.Array [Js.BigInt 1])].
Proof. split; reflexivity. Qed.


(* ===================================================================== *)
(** * Ingest coordinator: the hot chain is in the registry                *)
(* ===================================================================== *)

Section RisingChain.

Variables (base depth : Z) (chain : list CD.BlockRef).
Hypothesis chain_rising : rising base chain.
Hypothesis depth_nonneg : 0 <= depth.

Lemma rising_top (i : nat) (b : CD.BlockRef) :
  chain !! i = Some b -> CD.height b <= base + Z.of_nat (length chain) - 1.
Proof using chain_rising.
  intros Hb. rewrite (chain_rising i b Hb). apply lookup_lt_Some in Hb. lia.
Qed.

Lemma window_ok_filter (n : nat) (cache : gmap Z string) (P : Z * string -> Prop)
    `{!forall kv, Decision (P kv)} :
  window_ok base depth chain n cache ->
  (forall i b, (i < n)%nat -> chain !! i = Some b ->
     base + Z.of_nat (length chain) - 1 - depth <= CD.height b ->
     P (CD.height b, CD.hash b)) ->
  window_ok base depth chain n (filter P cache).
Proof.
  intros Hok HP i b Hi Hb Hwin. apply map_lookup_filter_Some. split; [by eapply Hok|].
  by eapply HP.
Qed.

Lemma window_ok_insert_later (n j : nat) (b : CD.BlockRef) (cache : gmap Z string) :
  chain !! j = Some b -> (n <= j)%nat ->
  window_ok base depth chain n cache ->
  window_ok base depth chain n (<[CD.height b := CD.hash b]> cache).
Proof using chain_rising.
  intros Hb Hj Hok i b' Hi Hb' Hwin. rewrite lookup_insert_ne; [by eapply Hok|].
  rewrite (chain_rising j b Hb), (chain_rising i b' Hb'). lia.
Qed.

Lemma window_ok_extend (n : nat) (b : CD.BlockRef) (cache : gmap Z string) :
  chain !! n = Some b ->
  cache !! CD.height b = Some (CD.hash b) ->
  window_ok base depth chain n cache ->
  window_ok base depth chain (S n) cache.
Proof.
  intros Hb Hin Hok i b' Hi Hb' Hwin. destruct (decide (i = n)) as [->|Hne].
  - rewrite Hb in Hb'. by injection Hb' as <-.
  - eapply Hok; [|done..]. lia.
Qed.

(** One pass of the loop on the next block of the chain. *)
Lemma window_ok_hot_block (n : nat) (b : CD.BlockRef) (m : VBM.t) :
  chain !! n = Some b ->
  VBM.finalityDepth m = depth ->
  window_ok base depth chain n (VBM.validBlocks m) ->
  let m' :=
    if VBM.isValidBlock m (CD.height b) (CD.hash b) then m
    else VBM.mk (VBM.processorId m) (VBM.finalityDepth m)
           (filter (fun kv => ~ kv.1 < CD.height b - VBM.finalityDepth m)
              (<[CD.height b := CD.hash b]> (VBM.validBlocks m))) in
  VBM.finalityDepth m' = depth
  /\ window_ok base depth chain (S n) (VBM.validBlocks m').
Proof using chain_rising depth_nonneg.
  intros Hb Hdepth Hok. cbn zeta. unfold VBM.isValidBlock. case_bool_decide as Hknown.
  - split; [done|]. by apply (window_ok_extend n b).
  - split; [done|]. cbn [VBM.validBlocks]. rewrite Hdepth.
    apply (window_ok_filter (S n)).
    + apply (window_ok_extend n b); [done|apply lookup_insert_eq|].
      by apply (window_ok_insert_later n n).
    + intros i b' _ Hb' Hwin. simpl. pose proof (rising_top n b Hb). lia.
Qed.

(** The loop over the rest of the chain. *)
Lemma hot_loop_registers (cb : CD.BlockRef -> Js.M ClickhouseStore.t unit)
    (blocks done : list CD.BlockRef) (w w' : CD.World) :
  chain = (done ++ blocks)%list ->
  Js.for_of blocks (hot_block_step cb) w = (Js.Ok tt, w') ->
  VBM.finalityDepth (CD.validBlocksManager (CD.this w)) = depth ->
  window_ok base depth chain (length done)
    (VBM.validBlocks (CD.validBlocksManager (CD.this w))) ->
  VBM.finalityDepth (CD.validBlocksManager (CD.this w')) = depth
  /\ window_ok base depth chain (length chain)
       (VBM.validBlocks (CD.validBlocksManager (CD.this w'))).
Proof using chain_rising depth_nonneg.
  revert done w. induction blocks as [|block blocks IH]; intros done w Hchain Hloop Hd Hok.
  - injection Hloop as <-. rewrite Hchain, app_nil_r in *. done.
  - cbn [Js.for_of] in Hloop.
    apply bind_Ok_inv in Hloop as ([] & w1 & Hbody & Hrest).
    apply hot_block_step_effect in Hbody as (_ & _ & Hm).
    assert (Hblock : chain !! length done = Some block)
      by (rewrite Hchain; by apply list_lookup_middle).
    destruct (window_ok_hot_block (length done) block _ Hblock Hd Hok) as [Hd1 Hok1].
    rewrite <- Hm in Hd1, Hok1.
    apply (IH (done ++ [block])%list w1); [|done|done|].
    + by rewrite <- app_assoc.
    + rewrite length_app. simpl. by rewrite Nat.add_1_r.
Qed.

Lemma window_ok_inserts_later (n : nat) (blocks : list CD.BlockRef)
    (cache : gmap Z string) :
  (forall b, b ∈ blocks -> exists j, (n <= j)%nat /\ chain !! j = Some b) ->
  window_ok base depth chain n cache ->
  window_ok base depth chain n
    (foldl (fun m x => <[VBM.height x := VBM.hash x]> m) cache (CD.registryRef <$> blocks)).
Proof using chain_rising.
  revert cache. induction blocks as [|b blocks IH]; intros cache Hlater Hok; [done|].
  cbn [fmap list_fmap foldl]. apply IH.
  - intros b' Hb'. apply Hlater. by right.
  - destruct (Hlater b) as (j & Hj & Hb); [left|].
    by apply (window_ok_insert_later n j).
Qed.

(** The reorg step, seen from the part of the chain it keeps. *)
Lemma reorg_step_registers (info : CD.HotTxInfo) (reorgDetected : bool)
    (w w2 : CD.World) :
  reorg_step info reorgDetected w = (Js.Ok tt, w2) ->
  chain = (CD.hotBlocks (CD.this w2) ++ CD.newBlocks info)%list ->
  VBM.finalityDepth (CD.validBlocksManager (CD.this w)) = depth ->
  (forall b, b ∈ CD.hotBlocks (CD.this w) -> registered (CD.this w) b) ->
  VBM.finalityDepth (CD.validBlocksManager (CD.this w2)) = depth
  /\ window_ok base depth chain (length (CD.hotBlocks (CD.this w2)))
       (VBM.validBlocks (CD.validBlocksManager (CD.this w2))).
Proof using chain_rising depth_nonneg.
  intros Hstep Hchain Hd Hreg.
  pose proof (reorg_step_footprint info reorgDetected w w2 Hstep) as [_ Hkept].
  assert (Hstart : window_ok base depth chain (length (CD.hotBlocks (CD.this w2)))
                     (VBM.validBlocks (CD.validBlocksManager (CD.this w)))).
  { intros i b Hi Hb _. rewrite Hchain, lookup_app_l in Hb by done.
    assert (Hin : b ∈ CD.hotBlocks (CD.this w)).
    { apply list_elem_of_lookup_2 in Hb. rewrite Hkept in Hb.
      destruct reorgDetected; [|done]. by apply list_elem_of_filter in Hb as [_ Hb]. }
    apply Hreg in Hin. unfold registered, VBM.isValidBlock in Hin.
    by apply bool_decide_eq_true in Hin. }
  unfold reorg_step in Hstep. destruct reorgDetected; [|by injection Hstep as <-].
  apply bind_Ok_inv in Hstep as (rollbackHeight & w0 & [= <- <-] & Hstep).
  apply bind_Ok_inv in Hstep as ([] & w1 & Hreorg & [= <-]).
  set (rollbackHeight := CD.findCommonAncestor (CD.this w) (CD.newBlocks info)) in *.
  pose proof (manager_self (VBM.handleReorg (rollbackHeight + 1)
                              (CD.registryRef <$> CD.newBlocks info)) w) as Hm.
  rewrite Hreorg in Hm. cbn [snd] in Hm.
  assert (Hsame : CD.validBlocksManager
                    (CD.this (CD.on_this (CD.set_hotBlocks
                       (filter (fun b => CD.height b <= rollbackHeight))) w1))
                  = CD.validBlocksManager (CD.this w1)) by (by destruct w1 as [? [] ? ?]).
  rewrite Hsame, Hm. clear Hsame Hm.
  set (n := length (CD.hotBlocks (CD.this (CD.on_this _ w1)))) in *.
  assert (Hfilter : window_ok base depth chain n
            (filter (fun kv : Z * string => ~ kv.1 >= rollbackHeight + 1)
               (VBM.validBlocks (CD.validBlocksManager (CD.this w))))).
  { apply window_ok_filter; [done|]. intros i b Hi Hb _. simpl.
    rewrite Hchain, lookup_app_l in Hb by done. apply list_elem_of_lookup_2 in Hb.
    rewrite Hkept in Hb. apply list_elem_of_filter in Hb as [Hlow _]. lia. }
  rewrite handleReorg_effect. cbn zeta.
  destruct (CD.newBlocks info) as [|b rest] eqn:Hnew; [done|].
  set (e1 := VBM.mkEnv _ _). rewrite fmap_cons. cbn match.
  destruct (addBlocks_self (CD.registryRef b) (CD.registryRef <$> rest) e1) as [_ ->].
  cbn [VBM.finalityDepth VBM.validBlocks VBM.self VBM.processorId e1].
  split; [done|]. rewrite Hd.
  assert (Hlater : forall x, x ∈ b :: rest ->
            exists j, (n <= j)%nat /\ chain !! j = Some x).
  { intros x Hx. apply list_elem_of_lookup in Hx as [j Hj]. exists (n + j)%nat.
    split; [lia|]. rewrite Hchain, lookup_app_r by (fold n; lia).
    fold n. by replace (n + j - n)%nat with j by lia. }
  apply window_ok_filter.
  - by apply (window_ok_inserts_later n (b :: rest)).
  - intros i x _ Hx Hwin. simpl.
    assert (Hmax : VBM.max_height (CD.registryRef <$> b :: rest)
                   <= base + Z.of_nat (length chain) - 1).
    { cbn [fmap list_fmap VBM.max_height].
      destruct (foldl_max_spec (VBM.height (CD.registryRef b))
                  (VBM.height <$> (CD.registryRef <$> rest))) as [Hin _].
      change (VBM.height (CD.registryRef b) :: (VBM.height <$> (CD.registryRef <$> rest)))
        with (VBM.height <$> (CD.registryRef <$> b :: rest)) in Hin.
      apply list_elem_of_fmap in Hin as (r & -> & Hr).
      apply list_elem_of_fmap in Hr as (y & -> & Hy).
      destruct (Hlater y Hy) as (j & _ & Hj). exact (rising_top j y Hj). }
    change (VBM.max_height (CD.registryRef <$> b :: rest))
      with (foldl Z.max (CD.height b) (VBM.height <$> (CD.registryRef <$> rest))) in Hmax.
    lia.
Qed.

End RisingChain.


Lemma after_finality_manager (info : CD.HotTxInfo) (d : CD.t) :
  CD.validBlocksManager (after_finality info d) = CD.validBlocksManager d.
Proof. unfold after_finality. by case_bool_decide. Qed.

(** A block of the chain cut to a positive depth lies within that depth of
    the end of the chain. *)
Lemma cut_to_depth_lookup (depth : Z) (chain : list CD.BlockRef) (b : CD.BlockRef) :
  0 < depth ->
  b ∈ cut_to_depth depth chain ->
  exists i, chain !! i = Some b /\ Z.of_nat (length chain) - depth <= Z.of_nat i.
Proof.
  intros Hdepth. unfold cut_to_depth. case_bool_decide as Hlong.
  - unfold Js.slice_from.
    replace (- depth <? 0) with true by (symmetry; apply Z.ltb_lt; lia).
    intros Hb. apply list_elem_of_lookup in Hb as [j Hj]. rewrite lookup_drop in Hj.
    eexists. split; [exact Hj|]. lia.
  - intros Hb. apply list_elem_of_lookup in Hb as [i Hi]. exists i. split; [done|]. lia.
Qed.

Section RegisteredChain.

Variable hooks : option CD.MigrationHooks.

Hypothesis custom_frame :
  forall custom, hooks ≫= CD.customMigration = Some custom ->
                 preserves live_view custom.

(** X19. The hot chain stays inside the registry: when the registry prunes
    at the depth the chain is cut to, that depth is positive, every block
    of the hot chain is valid in the registry, and the blocks a batch
    brings continue what is kept of the chain with heights going up by
    one, then after [transactHot] has returned every block of the hot
    chain is again valid in the registry. *)
Theorem transactHot_chain_is_registered (info : CD.HotTxInfo)
    (cb : CD.BlockRef -> Js.M ClickhouseStore.t unit) (w w' : CD.World) (base : Z) :
  CD.transactHot hooks info cb w = (Js.Ok tt, w') ->
  0 < CD.hotBlocksDepth (CD.this w) ->
  VBM.finalityDepth (CD.validBlocksManager (CD.this w)) = CD.hotBlocksDepth (CD.this w) ->
  (forall b, b ∈ CD.hotBlocks (CD.this w) -> registered (CD.this w) b) ->
  rising base (kept_chain info (CD.this w) ++ CD.newBlocks info) ->
  forall b, b ∈ CD.hotBlocks (CD.this w') -> registered (CD.this w') b.
Proof using custom_frame.
  intros Hrun Hpos Hwired Hreg Hrising.
  apply (transactHot_steps hooks custom_frame) in Hrun
    as (w1 & w2 & w3 & Hfinal & Hreorg & Hloop & Hcut & Hmanager & _).
  set (depth := CD.hotBlocksDepth (CD.this w)) in *.
  set (chain := (kept_chain info (CD.this w) ++ CD.newBlocks info)%list) in *.
  apply finality_step_footprint in Hfinal as [Hb1 Hd1].
  pose proof (reorg_step_footprint info _ w1 w2 Hreorg) as [Hb2 Hc2].
  rewrite Hd1 in Hc2. fold (kept_chain info (CD.this w)) in Hc2.
  pose proof (hot_loop_appends cb _ w2 w3 Hloop) as [Hb3 Hc3]. rewrite Hc2 in Hc3.
  fold chain in Hc3.
  assert (Hdepth3 : CD.hotBlocksDepth (CD.this w3) = depth).
  { assert (Hbooks : books w3 = books w) by congruence.
    unfold books in Hbooks. by injection Hbooks as _ -> _. }
  assert (Hwired1 : VBM.finalityDepth (CD.validBlocksManager (CD.this w1)) = depth)
    by (by rewrite Hd1, after_finality_manager).
  assert (Hreg1 : forall b, b ∈ CD.hotBlocks (CD.this w1) -> registered (CD.this w1) b).
  { intros b Hb. unfold registered. rewrite Hd1, after_finality_manager. apply Hreg.
    rewrite Hd1 in Hb. unfold after_finality in Hb.
    case_bool_decide; [|done]. by apply list_elem_of_filter in Hb as [_ Hb]. }
  assert (0 <= depth) as Hnonneg by lia.
  destruct (reorg_step_registers base depth chain Hrising Hnonneg info _ w1 w2 Hreorg)
    as [Hwired2 Hok2]; [by rewrite Hc2|done|done|].
  destruct (hot_loop_registers base depth chain Hrising Hnonneg cb (CD.newBlocks info)
              (CD.hotBlocks (CD.this w2)) w2 w3) as [Hwired3 Hok3];
    [by rewrite Hc2|done|done|done|].
  intros b Hb. unfold registered, VBM.isValidBlock. rewrite Hmanager.
  apply bool_decide_eq_true. rewrite Hcut, Hdepth3, Hc3 in Hb.
  apply cut_to_depth_lookup in Hb as (i & Hi & Hwin); [|done].
  apply (Hok3 i b); [by apply lookup_lt_Some in Hi|done|].
  rewrite (Hrising i b Hi). lia.
Qed.

End RegisteredChain.


Lemma transactHot_chain_is_registered_at_tip_world :
  let w' := (CD.transactHot None next_info one_transfer tip_world).2 in
  (forall custom, None ≫= CD.customMigration = Some custom -> preserves live_view custom)
  /\ CD.transactHot None next_info one_transfer tip_world = (Js.Ok tt, w')
  /\ 0 < CD.hotBlocksDepth (CD.this tip_world)
  /\ VBM.finalityDepth (CD.validBlocksManager (CD.this tip_world))
     = CD.hotBlocksDepth (CD.this tip_world)
  /\ (forall b, b ∈ CD.hotBlocks (CD.this tip_world) -> registered (CD.this tip_world) b)
  /\ rising 100 (kept_chain next_info (CD.this tip_world) ++ CD.newBlocks next_info)
  /\ forall b, b ∈ CD.hotBlocks (CD.this w') -> registered (CD.this w') b.
Proof.
  intros w'.
  assert (Hframe : forall custom,
            None ≫= CD.customMigration = Some custom -> preserves live_view custom)
    by (intros custom Hc; discriminate Hc).
  assert (Hrun : CD.transactHot None next_info one_transfer tip_world = (Js.Ok tt, w'))
    by (vm_compute; reflexivity).
  assert (Hpos : 0 < CD.hotBlocksDepth (CD.this tip_world)) by reflexivity.
  assert (Hwired : VBM.finalityDepth (CD.validBlocksManager (CD.this tip_world))
                   = CD.hotBlocksDepth (CD.this tip_world)) by reflexivity.
  assert (Hreg : forall b, b ∈ CD.hotBlocks (CD.this tip_world) ->
                           registered (CD.this tip_world) b).
  { intros b Hb. change (CD.hotBlocks (CD.this tip_world))
      with [block 100 "0xa"; block 101 "0xb"; block 102 "0xc"] in Hb.
    rewrite !elem_of_cons, elem_of_nil in Hb.
    destruct Hb as [->|[->|[->|[]]]]; vm_compute; reflexivity. }
  assert (Hrising : rising 100 (kept_chain next_info (CD.this tip_world)
                                ++ CD.newBlocks next_info)).
  { assert (Hchain : (kept_chain next_info (CD.this tip_world) ++ CD.newBlocks next_info)%list
                     = [block 100 "0xa"; block 101 "0xb"; block 102 "0xc";
                        block_with_gas; block 104 "0xe"]) by (vm_compute; reflexivity).
    rewrite Hchain. intros i b Hi.
    destruct i as [|[|[|[|[|i]]]]]; simpl in Hi; try discriminate Hi;
      injection Hi as <-; reflexivity. }
  split; [exact Hframe|]. split; [exact Hrun|]. split; [exact Hpos|].
  split; [exact Hwired|]. split; [exact Hreg|]. split; [exact Hrising|].
  exact (transactHot_chain_is_registered None Hframe next_info one_transfer tip_world w'
           100 Hrun Hpos Hwired Hreg Hrising).
Defined.


(** * MetricsCollector *)

Lemma tail_drop {A} (l : list A) : tail l = drop 1 l.
Proof. by destruct l. Qed.

Lemma push_sample_length d window :
  (length window <= MC.maxSampleSize)%nat ->
  (length (MC.push_sample d window) <= MC.maxSampleSize)%nat
  /\ (length (MC.push_sample d window) <= S (length window))%nat
  /\ MC.push_sample d window <> []
  /\ last (MC.push_sample d window) = Some d.
Proof.
  intros Hlen. unfold MC.push_sample. cbn zeta.
  destruct (bool_decide _) eqn:Hfull.
  - apply bool_decide_eq_true_1 in Hfull. rewrite length_app in Hfull.
    destruct window as [|x rest]; [cbn [length] in Hfull; unfold MC.maxSampleSize in Hfull; lia|].
    change (tail ((x :: rest) ++ [d])%list) with (rest ++ [d])%list.
    rewrite length_app. cbn [length] in *.
    split; [lia|]. split; [lia|]. split; [by destruct rest|apply last_snoc].
  - apply bool_decide_eq_false_1 in Hfull. rewrite length_app in *. cbn [length] in *.
    split; [lia|]. split; [lia|]. split; [by destruct window|apply last_snoc].
Qed.

Lemma record_timing_ok d success x :
  timing_ok x -> timing_ok (MC.record_timing d success x).
Proof.
  intros (Hlen & Herr & Htotal & Hlast). unfold MC.record_timing.
  destruct success; cbn zeta.
  - destruct (push_sample_length d (MC.durations x) Hlen) as (H1 & H2 & H3 & H4).
    unfold timing_ok. cbn [MC.durations MC.errors MC.total MC.avgDuration MC.lastDuration].
    split; [exact H1|]. split; [exact Herr|]. split; [lia|]. intros _. by split.
  - unfold timing_ok. cbn [MC.durations MC.errors MC.total MC.avgDuration MC.lastDuration].
    split; [exact Hlen|]. split; [lia|]. split; [lia|]. exact Hlast.
Qed.

Lemma timing_ok_new : timing_ok (MC.mkTiming 0 0 0 (0, 0) []).
Proof.
  unfold timing_ok. cbn [MC.durations MC.errors MC.total length].
  split; [unfold MC.maxSampleSize; lia|]. split; [lia|]. split; [lia|]. by intros [].
Qed.

Lemma push_sample_newest d (l : list Z) :
  MC.push_sample d (newest MC.maxSampleSize l) = newest MC.maxSampleSize (l ++ [d]).
Proof.
  unfold MC.push_sample, newest. cbn zeta.
  rewrite !length_app, length_drop. cbn [length]. unfold MC.maxSampleSize.
  destruct (bool_decide _) eqn:Hfull.
  - apply bool_decide_eq_true_1 in Hfull.
    rewrite tail_drop, <- drop_app_le by (rewrite ?length_app; lia).
    rewrite drop_drop. f_equal. lia.
  - apply bool_decide_eq_false_1 in Hfull.
    replace (length l - 100)%nat with 0%nat by lia.
    replace (length l + 1 - 100)%nat with 0%nat by lia. reflexivity.
Qed.

(** X20. Over any sequence of calls on a fresh collector, resets included,
    the processed blocks are the finalized plus the hot ones, and each of
    the two sample windows holds at most 100 durations, no more than the
    successful operations counted, ends with the last duration reported and
    is what the average was taken of. *)
Theorem metrics_counters_add_up (calls : list MetricsCall) :
  let m := run calls in
  MC.blocksProcessed m = MC.blocksFinalized m + MC.hotBlocksProcessed m
  /\ timing_ok (MC.inserts m) /\ timing_ok (MC.queries m).
Proof.
  cbn zeta. unfold run. induction calls as [|c calls IH] using rev_ind.
  - cbn. split; [reflexivity|]. split; apply timing_ok_new.
  - rewrite foldl_snoc. destruct IH as (Hsum & Hins & Hqry).
    set (m := foldl call MC.new calls) in *.
    destruct c as [ok|count fin|fin| | |d ok|d ok| |]; cbn.
    + destruct ok; (split; [assumption|split; assumption]).
    + split; [destruct fin; lia|]. split; assumption.
    + split; [destruct fin; lia|]. split; assumption.
    + (split; [assumption|split; assumption]).
    + (split; [assumption|split; assumption]).
    + split; [exact Hsum|]. split; [by apply record_timing_ok|exact Hqry].
    + split; [exact Hsum|]. split; [exact Hins|by apply record_timing_ok].
    + (split; [assumption|split; assumption]).
    + split; [reflexivity|]. split; apply timing_ok_new.
Qed.

(** X21. Between resets the insert window is the newest 100 durations of
    the successful inserts, in the order reported, the total counts every
    insert and the errors count the failed ones. *)
Theorem insert_window_is_newest_hundred (calls : list MetricsCall) :
  Reset ∉ calls ->
  let x := MC.inserts (run calls) in
  MC.durations x = newest MC.maxSampleSize (successful_inserts calls)
  /\ MC.total x = Z.of_nat (length (insert_calls calls))
  /\ MC.errors x = Z.of_nat (length (filter (fun ok => ok = false) (insert_calls calls))).
Proof.
  cbn zeta. unfold run, successful_inserts, insert_calls.
  induction calls as [|c calls IH] using rev_ind; intros Hno.
  - by cbn.
  - assert (Hc : c <> Reset) by (intros ->; apply Hno, elem_of_app; right; apply list_elem_of_singleton; reflexivity).
    assert (Hprev : Reset ∉ calls) by (intros Hin; apply Hno, elem_of_app; by left).
    destruct (IH Hprev) as (Hwin & Htot & Herr). clear IH.
    rewrite foldl_snoc, !omap_app.
    set (m := foldl call MC.new calls) in *.
    destruct c as [ok|count fin|fin| | |d ok|d ok| |];
      try (cbn; rewrite !app_nil_r; by repeat split); try done.
    cbn [call MC.recordInsert MC.inserts omap]. unfold MC.record_timing.
    destruct ok; cbn zeta; cbn [MC.durations MC.total MC.errors].
    + rewrite Hwin, push_sample_newest, Htot, Herr, filter_app, !length_app.
      rewrite !Nat2Z.inj_add. split; [reflexivity|]. split; [reflexivity|].
      cbn. destruct (decide (true = false)) as [E|_]; [discriminate E|]. cbn. lia.
    + rewrite Hwin, Htot, Herr, filter_app, !length_app, app_nil_r.
      rewrite !Nat2Z.inj_add. split; [reflexivity|]. split; [reflexivity|].
      cbn. destruct (decide (false = false)) as [_|E]; [reflexivity|by destruct E].
Qed.

Lemma insert_window_after_burst :
  (Reset ∉ burst)
  /\ MC.durations (MC.inserts (run burst)) = seqZ 2 100
  /\ MC.total (MC.inserts (run burst)) = 102
  /\ MC.errors (MC.inserts (run burst)) = 1.
Proof.
  assert (Hno : Reset ∉ burst).
  { intros Hin. apply list_elem_of_In in Hin. vm_compute in Hin.
    repeat (destruct Hin as [Hin|Hin]; [discriminate Hin|]). exact Hin. }
  split; [exact Hno|].
  destruct (insert_window_is_newest_hundred burst Hno) as (Hwin & Htot & Herr).
  split; [rewrite Hwin; vm_compute; reflexivity|].
  split; [rewrite Htot; vm_compute; reflexivity|rewrite Herr; vm_compute; reflexivity].
Defined.
